(** * The chain execution engine of contenox/runtime-mvp (package taskengine)

    A shallow embedding of [core/taskengine]: [validateChain],
    [findTaskByID], [parseNumber], [compare], [evaluateTransitions] and the
    driver [SimpleEnv.ExecEnv], with the properties of the engine stated
    and proved over it.

    Conventions.
    - A Go [string] is a [string] of bytes; a Go [error] is an
      [option string] holding [err.Error()], [None] being [nil].
    - A Go function with several results returns a tuple, in the order of
      the Go results.
    - A Go [int] is a 64-bit integer kept as a [Z], its wrap-around
      written out ([wrap64]).
    - A Go [float64] is a binary64 number of [SpecFloat]. *)

From Stdlib Require Import ZArith Ascii String List Bool Lia.
From Stdlib Require Import Floats.SpecFloat.
From stdpp Require Import base option list strings gmap pretty.

Local Open Scope string_scope.
Local Open Scope Z_scope.

(** ** Go values *)

Definition error := option string.
Abbreviation nil_error := (@None string).

Definition float64 := spec_float.

Definition MaxInt64 : Z := 9223372036854775807.
Definition MinInt64 : Z := -9223372036854775808.

(** Two's-complement wrap-around of a 64-bit [int]. *)
Definition wrap64 (z : Z) : Z := (z - MinInt64) mod 2 ^ 64 + MinInt64.

(** The conversion [float64(i)] of an [int64]: round to nearest, ties to
    even. *)
Definition float64_of_int (i : Z) : float64 := binary_normalize 53 1024 i 0 false.

(** Go's [<], [<=], [>] and [>=] on [float64]. *)
Definition f64_lt (x y : float64) : bool := SFltb x y.
Definition f64_le (x y : float64) : bool := SFleb x y.
Definition f64_gt (x y : float64) : bool := SFltb y x.
Definition f64_ge (x y : float64) : bool := SFleb y x.

(** ** package strings *)

Module strings.

(** [strings.HasPrefix(s, prefix)]. *)
Definition HasPrefix (s pre : string) : bool := String.prefix pre s.

(** [strings.HasSuffix(s, suffix)]. *)
Definition HasSuffix (s suf : string) : bool :=
  (String.length suf <=? String.length s)%nat
  && String.eqb (String.substring (String.length s - String.length suf)
                                  (String.length suf) s) suf.

(** [strings.Contains(s, substr)]: [substr] starts at some index of [s]. *)
Fixpoint Contains (s substr : string) : bool :=
  String.prefix substr s
  || match s with
     | EmptyString => false
     | String _ s' => Contains s' substr
     end.

(** [strings.Split(s, sep)] at a separator of one byte, which is how
    [compare] calls it: the pieces of [s] between the occurrences of
    [sep]; one piece more than there are occurrences. *)
Fixpoint Split (s : string) (sep : ascii) : list string :=
  match s with
  | EmptyString => [EmptyString]
  | String c s' =>
      if Ascii.eqb c sep then EmptyString :: Split s' sep
      else match Split s' sep with
           | piece :: rest => String c piece :: rest
           | [] => [String c EmptyString]
           end
  end.

(** The number of occurrences of a byte. *)
Fixpoint CountByte (s : string) (c : ascii) : nat :=
  match s with
  | EmptyString => 0%nat
  | String a s' => ((if Ascii.eqb a c then 1 else 0) + CountByte s' c)%nat
  end.

End strings.

(** ** package strconv *)

Module strconv.

Definition digit (c : ascii) : option Z :=
  let n := Z.of_nat (nat_of_ascii c) in
  if (48 <=? n) && (n <=? 57) then Some (n - 48) else None.

(** Base-10 digits, most significant first; [None] at a byte that is
    not a digit. *)
Fixpoint digits (s : string) (acc : Z) : option Z :=
  match s with
  | EmptyString => Some acc
  | String c s' =>
      match digit c with
      | Some d => digits s' (10 * acc + d)
      | None => None
      end
  end.

(** [strconv.ParseUint(s, 10, 64)] before its range check. *)
Definition ParseUint (s : string) : option Z :=
  match s with
  | EmptyString => None
  | _ => digits s 0
  end.

(** [strconv.ParseInt(s, 10, 64)]: an optional sign, then one digit or
    more, the value within the [int64] range. [None] stands for any
    non-nil error ([parseNumber] looks at nothing else). *)
Definition ParseInt (s : string) : option Z :=
  match s with
  | EmptyString => None
  | String c s' =>
      let '(neg, body) :=
        if Ascii.eqb c "+" then (false, s')
        else if Ascii.eqb c "-" then (true, s')
        else (false, s) in
      match ParseUint body with
      | None => None
      | Some un =>
          if negb neg && (2 ^ 63 <=? un) then None
          else if neg && (2 ^ 63 <? un) then None
          else Some (if neg then - un else un)
      end
  end.

End strconv.

(** ** package taskengine: the chain model *)

Module taskengine.

(** [DataType], the tag of a payload passed between tasks. *)
Inductive DataType :=
| DataTypeAny
| DataTypeString
| DataTypeBool
| DataTypeInt
| DataTypeFloat
| DataTypeSearchResults
| DataTypeJSON
| DataTypeChatHistory
| DataTypeOpenAIChat
| DataTypeOpenAIChatResponse.

(** A value of Go's [any] as the engine passes it around. Structured
    payloads (chat histories, search results, ...) are opaque to the engine
    and kept by a tag. *)
Inductive any :=
| AnyNil
| AnyString (s : string)
| AnyInt (i : Z)
| AnyBool (b : bool)
| AnyFloat (f : float64)
| AnyError (msg : string)
| AnyStruct (tag : nat).

(** Modelled from the spec: the declarations of [TransitionBranch],
    [TaskTransition], [ChainTask] and [ChainDefinition] are not among the
    sources; the fields are those the engine reads, named as it names
    them ([TaskType] is the Go field [Type]). *)
Record TransitionBranch := {
  Operator : string;
  When : string;
  Goto : string
}.

Record TaskTransition := {
  OnFailure : string;
  Branches : list TransitionBranch
}.

Record ChainTask := {
  ID : string;
  TaskType : string;
  Template : string;
  Timeout : string;
  RetryOnFailure : Z;
  Transition : TaskTransition;
  Print : string
}.

Record ChainDefinition := {
  RoutingStrategy : string;
  Tasks : list ChainTask
}.

(** Modelled from the spec: the constants [TermEnd] and [Op...] are
    declared outside the sources; section 6.4 of the specification
    reserves [end] and [default], section 3 lists the operators. *)
Definition TermEnd : string := "end".
Definition OpEquals : string := "equals".
Definition OpContains : string := "contains".
Definition OpStartsWith : string := "starts_with".
Definition OpEndsWith : string := "ends_with".
Definition OpGreaterThan : string := "greater_than".
Definition OpGt : string := ">".
Definition OpLessThan : string := "less_than".
Definition OpLt : string := "<".
Definition OpInRange : string := "in_range".
Definition OpDefault : string := "default".

(** [fmt.Errorf] with [%s], [%d] and [%v] verbs: the pieces joined. *)
Definition Errorf (pieces : list string) : error :=
  Some (String.concat "" pieces).

(** ** Transition evaluation *)

Section Transitions.

(** [strconv.ParseFloat(s, 64)] and [strings.TrimSpace] belong to Go's
    library; the engine is verified for whatever they compute. *)
Variable ParseFloat : string -> float64 * error.
Variable TrimSpace : string -> string.

(** [parseNumber]: an integer first, a float otherwise. *)
Definition parseNumber (s : string) : float64 * error :=
  match strconv.ParseInt s with
  | Some i => (float64_of_int i, None)
  | None => ParseFloat s
  end.

(** The two operands of [>], [<], [greater_than] and [less_than]:
    the response is parsed first. *)
Definition compareNumbers (rel : float64 -> float64 -> bool)
    (response when : string) : bool * error :=
  let '(resNum, err) := parseNumber response in
  match err with
  | Some e => (false, Some e)
  | None =>
      let '(targetNum, err) := parseNumber when in
      match err with
      | Some e => (false, Some e)
      | None => (rel resNum targetNum, None)
      end
  end.

(** [compare] applies an operator to a response and a target. *)
Definition compare (operator response when : string) : bool * error :=
  if String.eqb operator OpEquals then (String.eqb response when, None)
  else if String.eqb operator OpContains then
    (strings.Contains response when, None)
  else if String.eqb operator OpStartsWith then
    (strings.HasPrefix response when, None)
  else if String.eqb operator OpEndsWith then
    (strings.HasSuffix response when, None)
  else if String.eqb operator OpGreaterThan || String.eqb operator OpGt then
    compareNumbers f64_gt response when
  else if String.eqb operator OpLessThan || String.eqb operator OpLt then
    compareNumbers f64_lt response when
  else if String.eqb operator OpInRange then
    match strings.Split when "-" with
    | [part0; part1] =>
        let '(lower, err) := parseNumber (TrimSpace part0) in
        match err with
        | Some e => (false, Errorf ["invalid lower bound: "; e])
        | None =>
            let '(upper, err) := parseNumber (TrimSpace part1) in
            match err with
            | Some e => (false, Errorf ["invalid upper bound: "; e])
            | None =>
                let '(resNum, err) := parseNumber response in
                match err with
                | Some e => (false, Some e)
                | None => (f64_ge resNum lower && f64_le resNum upper, None)
                end
            end
        end
    | _ => (false, Errorf ["invalid between range format: "; when])
    end
  else (false, Errorf ["unsupported operator: "; operator]).

(** The first loop of [evaluateTransitions]: [Some] is what the loop
    returns from inside, [None] that it ran to its end. *)
Fixpoint explicitMatch (branches : list TransitionBranch) (eval : string)
    : option (string * error) :=
  match branches with
  | [] => None
  | ct :: rest =>
      if String.eqb (Operator ct) OpDefault then explicitMatch rest eval
      else
        let '(matched, err) := compare (Operator ct) eval (When ct) in
        match err with
        | Some e => Some ("", Some e)
        | None =>
            if matched then Some (Goto ct, None)
            else explicitMatch rest eval
        end
  end.

(** The second loop: the first [default] branch. *)
Fixpoint defaultMatch (branches : list TransitionBranch)
    : option (string * error) :=
  match branches with
  | [] => None
  | ct :: rest =>
      if String.eqb (Operator ct) "default" then Some (Goto ct, None)
      else defaultMatch rest
  end.

Definition evaluateTransitions (transition : TaskTransition) (eval : string)
    : string * error :=
  match explicitMatch (Branches transition) eval with
  | Some r => r
  | None =>
      match defaultMatch (Branches transition) with
      | Some r => r
      | None => ("", Errorf ["no matching transition found"])
      end
  end.

End Transitions.

(** ** Chain validation *)

(** [findTaskByID]: the first task of the list with the id. *)
Fixpoint findTaskByID (tasks : list ChainTask) (id : string)
    : option ChainTask * error :=
  match tasks with
  | [] => (None, Errorf ["task not found: "; id])
  | task :: rest =>
      if String.eqb (ID task) id then (Some task, None)
      else findTaskByID rest id
  end.

(** The loop of [validateChain]: the error of the first offending id. *)
Fixpoint validateIDs (tasks : list ChainTask) : error :=
  match tasks with
  | [] => None
  | ct :: rest =>
      if String.eqb (ID ct) "" || String.eqb (ID ct) TermEnd then
        if String.eqb (ID ct) "" then Errorf ["task ID cannot be empty"]
        else if String.eqb (ID ct) TermEnd then
          Errorf ["task ID cannot be '"; TermEnd; "'"]
        else validateIDs rest
      else validateIDs rest
  end.

Definition validateChain (tasks : list ChainTask) : error :=
  if (List.length tasks =? 0)%nat then Errorf ["chain has no tasks"]
  else validateIDs tasks.

(** ** The engine and its collaborators *)

(** What the engine does to the world outside it, in the order it does
    it: calls of the activity tracker ([Start] and the three closures it
    returns), calls of the task executor, lines written by [fmt.Println],
    and [cancel] calls of timeout contexts. *)
Inductive Event :=
| TrackerStart (operation subject : string) (kvArgs : list any)
| TrackerReportErr (operation subject : string) (err : string)
| TrackerReportChange (operation subject : string) (id : string) (data : any)
| TrackerEnd (operation subject : string)
| ContextCancel (timeout : Z)
| Stdout (line : string).

(** [TaskExecutor]: the interface the engine dispatches a task through.
    An executor has a state of its own; the context it is given is kept
    as the timeout of the attempt, if the task sets one. *)
Class TaskExecutor (S Policy : Type) := {
  TaskExec : S -> option Z -> Policy -> ChainTask -> any -> DataType
             -> (any * DataType * string * error) * S
}.

(** The state around a run: the executor, the events so far (oldest
    first), and the [defer]red calls (latest first), which run when
    [ExecEnv] returns. *)
Record World (S : Type) := mkWorld {
  executor : S;
  events : list Event;
  deferred : list Event
}.
Arguments mkWorld {S} _ _ _.
Arguments executor {S} _.
Arguments events {S} _.
Arguments deferred {S} _.

Definition emit {S} (e : Event) (w : World S) : World S :=
  mkWorld (executor w) (events w ++ [e]) (deferred w).

Definition defer {S} (e : Event) (w : World S) : World S :=
  mkWorld (executor w) (events w) (e :: deferred w).

(** [tracker.Start(ctx, operation, subject, kvArgs...)] followed by
    [defer end()]. *)
Definition trackerStart {S} (operation subject : string) (kvArgs : list any)
    (w : World S) : World S :=
  defer (TrackerEnd operation subject)
        (emit (TrackerStart operation subject kvArgs) w).

(** Leaving [ExecEnv]: the deferred calls run, latest first. *)
Definition runDeferred {S} (w : World S) : World S :=
  mkWorld (executor w) (events w ++ deferred w) [].

(** The local variables of [ExecEnv] that its loops carry. *)
Record Locals := mkLocals {
  currentTask : ChainTask;
  output : any;
  outputType : DataType;
  transitionEval : string;
  taskErr : error;
  vars : gmap string any
}.

(** How a loop body ends: [ExecEnv] returns, or the loop goes on; [None]
    in the functions below is a loop that has not ended within the
    iterations allowed. *)
Inductive Flow (A : Type) :=
| Return (r : any * error)
| Next (a : A).
Arguments Return {A} _.
Arguments Next {A} _.

Definition DataType_eqb (a b : DataType) : bool :=
  match a, b with
  | DataTypeAny, DataTypeAny | DataTypeString, DataTypeString
  | DataTypeBool, DataTypeBool | DataTypeInt, DataTypeInt
  | DataTypeFloat, DataTypeFloat
  | DataTypeSearchResults, DataTypeSearchResults
  | DataTypeJSON, DataTypeJSON | DataTypeChatHistory, DataTypeChatHistory
  | DataTypeOpenAIChat, DataTypeOpenAIChat
  | DataTypeOpenAIChatResponse, DataTypeOpenAIChatResponse => true
  | _, _ => false
  end.

Section Engine.

Variable ParseFloat : string -> float64 * error.
Variable TrimSpace : string -> string.

(** [text/template]: parsing a template and executing it on the
    variables, each giving its result or the message of its error. *)
Variable TextTemplate : Type.
Variable template_Parse : string -> TextTemplate + string.
Variable template_Execute : TextTemplate -> gmap string any -> string + string.

(** [time.ParseDuration]: nanoseconds, or the message of the error. *)
Variable ParseDuration : string -> Z + string.

(** Package [llmresolver] is not among the sources: its policies, the
    policy [Randomly] and [PolicyFromString] are taken as they come (the
    policy returned with an error is never looked at). *)
Variable Policy : Type.
Variable Randomly : Policy.
Variable PolicyFromString : string -> Policy * error.

Context {S : Type} {exec : TaskExecutor S Policy}.

Definition renderTemplate (tmplStr : string) (vars : gmap string any)
    : string * error :=
  match template_Parse tmplStr with
  | inr e => ("", Some e)
  | inl tmpl =>
      match template_Execute tmpl vars with
      | inr e => ("", Some e)
      | inl buf => (buf, None)
      end
  end.

(** The context of an attempt: the caller's, or one bounded by the
    timeout of the task, with its [cancel] deferred; the message of the
    error for a timeout that does not parse. *)
Definition attemptContext (task : ChainTask) (w : World S)
    : string + (option Z * World S) :=
  if String.eqb (Timeout task) "" then inr (None, w)
  else
    match ParseDuration (Timeout task) with
    | inr e => inl e
    | inl timeout => inr (Some timeout, defer (ContextCancel timeout) w)
    end.

(** The body of the attempt loop: what [ExecEnv] returns for a timeout
    that does not parse; else the locals as the executor leaves them,
    the attempt tracked from its start to the report of its error or of
    its output. *)
Definition attempt (resolver : Policy) (retry : Z) (l : Locals) (w : World S)
    : (any * error) + (Locals * World S) :=
  let task := currentTask l in
  match attemptContext task w with
  | inl e =>
      inl (AnyNil, Errorf ["task "; ID task; ": invalid timeout: "; e])
  | inr (taskCtx, w) =>
      let w := trackerStart "task_attempt" (ID task)
                 [AnyString "retry"; AnyInt retry;
                  AnyString "task_type"; AnyString (TaskType task)] w in
      let '(out, outType, eval, err, s') :=
        TaskExec (executor w) taskCtx resolver task
                 (output l) (outputType l) in
      let w := mkWorld s' (events w) (deferred w) in
      let l := mkLocals task out outType eval err (vars l) in
      match err with
      | Some e => inr (l, emit (TrackerReportErr "task_attempt" (ID task) e) w)
      | None =>
          (* Report successful attempt *)
          inr (l, emit (TrackerReportChange "task_attempt" (ID task)
                          (ID task) out) w)
      end
  end.

(** The attempt loop, [for retry := 0; retry <= maxRetries; retry++],
    entered at [retry] and allowed [fuel] iterations: a failed attempt
    goes on with the next [retry], a successful one leaves the loop.
    [Next] carries the locals with which the loop is left. *)
Fixpoint retryLoop (fuel : nat) (resolver : Policy) (maxRetries retry : Z)
    (l : Locals) (w : World S) : option (Flow Locals) * World S :=
  if negb (retry <=? maxRetries) then (Some (Next l), w)
  else
    match fuel with
    | O => (None, w)
    | Datatypes.S fuel' =>
        match attempt resolver retry l w with
        | inl r => (Some (Return r), w)
        | inr (l, w) =>
            match taskErr l with
            | Some _ =>
                retryLoop fuel' resolver maxRetries (wrap64 (retry + 1)) l w
            | None => (Some (Next l), w)
            end
        end
    end.

(** The head of the main loop's body, under [// Render prompt template]:
    the locals with the rendered prompt as output, or the error
    [ExecEnv] returns. *)
Definition renderPrompt (l : Locals) : (any * error) + Locals :=
  let task := currentTask l in
  if DataType_eqb (outputType l) DataTypeString
     && negb (String.eqb (Template task) "") then
    let '(out, err) := renderTemplate (Template task) (vars l) in
    match err with
    | Some e =>
        inl (AnyNil, Errorf ["task "; ID task; ": template error: "; e])
    | None =>
        if String.eqb out "" then
          inl (AnyNil,
               Errorf ["task "; ID task; ": template rendered empty string"])
        else
          inr (mkLocals task (AnyString out) (outputType l)
                        (transitionEval l) (taskErr l) (vars l))
    end
  else inr l.

(** Under [// Handle print statement]: the print template rendered
    against the variables and written by [fmt.Println]; the error
    [ExecEnv] returns when it does not render. *)
Definition printStatement (task : ChainTask) (vars : gmap string any)
    (w : World S) : (any * error) + World S :=
  if negb (String.eqb (Print task) "") then
    let '(printMsg, err) := renderTemplate (Print task) vars in
    match err with
    | Some e =>
        inl (AnyNil, Errorf ["task "; ID task; ": print template error: "; e])
    | None => inr (emit (Stdout printMsg) w)
    end
  else inr w.

(** [vars["previous_output"] = output; vars[currentTask.ID] = output]. *)
Definition updateVars (l : Locals) : gmap string any :=
  <[ID (currentTask l) := output l]>
    (<["previous_output" := output l]> (vars l)).

(** The end of a chain: the final output tracked as [chain_complete]. *)
Definition complete (finalOutput : any) (w : World S) : World S :=
  emit (TrackerReportChange "chain_complete" "chain" "chain" finalOutput)
       (trackerStart "chain_complete" "chain"
          [AnyString "final_output"; finalOutput] w).

(** The rest of the body, from [if taskErr != nil] on: the failure
    transition or the error after the attempts have failed; after a
    success the variables, the print statement and the transition. *)
Definition afterAttempts (tasks : list ChainTask) (maxRetries : Z)
    (l : Locals) (w : World S) : Flow Locals * World S :=
  let task := currentTask l in
  match taskErr l with
  | Some e =>
      if negb (String.eqb (OnFailure (Transition task)) "") then
        let previousTaskID := ID task in
        match findTaskByID tasks (OnFailure (Transition task)) with
        | (Some next, None) =>
            (* Track error-based transition *)
            let w := trackerStart "next_task" previousTaskID
                       [AnyString "next_task"; AnyString (ID next);
                        AnyString "reason"; AnyString "error"] w in
            let w := emit (TrackerReportChange "next_task"
                             previousTaskID (ID next) (AnyError e)) w in
            (Next (mkLocals next (output l) (outputType l)
                            (transitionEval l) (taskErr l) (vars l)), w)
        | (_, err) =>
            (Return (AnyNil,
               Errorf ["error transition target not found: ";
                       default "" err]), w)
        end
      else
        (Return (AnyNil,
           Errorf ["task "; ID task; " failed after ";
                   pretty maxRetries; " retries: "; e]), w)
  | None =>
      (* Update execution variables *)
      let vars := updateVars l in
      match printStatement task vars w with
      | inl r => (Return r, w)
      | inr w =>
          (* Evaluate transitions *)
          let '(nextTaskID, err) :=
            evaluateTransitions ParseFloat TrimSpace
              (Transition task) (transitionEval l) in
          match err with
          | Some e =>
              (Return (AnyNil,
                 Errorf ["task "; ID task; ": transition error: "; e]), w)
          | None =>
              if String.eqb nextTaskID "" || String.eqb nextTaskID TermEnd
              then
                let finalOutput := output l in
                (Return (finalOutput, None), complete finalOutput w)
              else
                (* Track normal transition to next task *)
                let w := trackerStart "next_task" (ID task)
                           [AnyString "next_task"; AnyString nextTaskID] w in
                let w := emit (TrackerReportChange "next_task" (ID task)
                                 nextTaskID
                                 (AnyString (transitionEval l))) w in
                (* Find next task *)
                match findTaskByID tasks nextTaskID with
                | (Some next, None) =>
                    (Next (mkLocals next (output l) (outputType l)
                                    (transitionEval l) (taskErr l) vars), w)
                | (_, err) =>
                    (Return (AnyNil,
                       Errorf ["next task "; nextTaskID; " not found: ";
                               default "" err]), w)
                end
          end
      end
  end.

(** One pass through the body of the main loop of [ExecEnv]. *)
Definition visit (fuel : nat) (resolver : Policy) (tasks : list ChainTask)
    (l : Locals) (w : World S) : option (Flow Locals) * World S :=
  match renderPrompt l with
  | inl r => (Some (Return r), w)
  | inr l =>
      let maxRetries := Z.max (RetryOnFailure (currentTask l)) 0 in
      match retryLoop fuel resolver maxRetries 0 l w with
      | (None, w) => (None, w)
      | (Some (Return r), w) => (Some (Return r), w)
      | (Some (Next l), w) =>
          let '(flow, w) := afterAttempts tasks maxRetries l w in
          (Some flow, w)
      end
  end.

(** The main loop, [for { ... }], allowed [fuel] passes (and each
    attempt loop as many iterations). *)
Fixpoint mainLoop (fuel : nat) (resolver : Policy) (tasks : list ChainTask)
    (l : Locals) (w : World S) : option (any * error) * World S :=
  match fuel with
  | O => (None, w)
  | Datatypes.S fuel' =>
      match visit fuel resolver tasks l w with
      | (None, w) => (None, w)
      | (Some (Return r), w) => (Some r, w)
      | (Some (Next l), w) => mainLoop fuel' resolver tasks l w
      end
  end.

(** [ExecEnv] up to the main loop: the resolver, the validation and
    the entry task. *)
Definition prepare (chain : ChainDefinition)
    : (any * error) + (Policy * ChainTask) :=
  let resolved :=
    if (0 <? String.length (RoutingStrategy chain))%nat then
      let '(resolver, err) := PolicyFromString (RoutingStrategy chain) in
      match err with
      | Some e => inl (AnyNil, Some e)
      | None => inr resolver
      end
    else inr Randomly in
  match resolved with
  | inl r => inl r
  | inr resolver =>
      match validateChain (Tasks chain) with
      | Some e => inl (AnyNil, Some e)
      | None =>
          match Tasks chain with
          | [] => inl (AnyNil, Some "index out of range")
          | first :: _ =>
              match findTaskByID (Tasks chain) (ID first) with
              | (Some task, None) => inr (resolver, task)
              | (_, err) => inl (AnyNil, err)
              end
          end
      end
  end.

(** [SimpleEnv.ExecEnv]: [None] when the run has not ended within
    [fuel]. The call starts without deferred calls of its own and runs
    those it has made when it returns. *)
Definition ExecEnv (fuel : nat) (chain : ChainDefinition) (input : any)
    (dataType : DataType) (w : World S) : option (any * error) * World S :=
  let vars : gmap string any := {["input" := input]} in
  let w := mkWorld (executor w) (events w) [] in
  match prepare chain with
  | inl r => (Some r, runDeferred w)
  | inr (resolver, task) =>
      let l := mkLocals task input dataType "" None vars in
      let '(r, w) := mainLoop fuel resolver (Tasks chain) l w in
      (r, runDeferred w)
  end.

End Engine.

End taskengine.
Import taskengine.

(** ** Collaborators to run the engine with

    The theorems below hold for every [ParseFloat], [TrimSpace], template
    library, [ParseDuration], resolver package and executor. The examples
    run the engine with the ones of this section, each of which covers
    the part of its Go original that its comment names. *)

(** [strconv.Quote] of a string without bytes to escape. *)
Definition quote (s : string) : string :=
  String (ascii_of_nat 34) (s +:+ String (ascii_of_nat 34) EmptyString).

Module decimal.

(** The digits of a mantissa, with one point at most: the digits read
    as an integer, how many of them follow the point, whether a digit
    was seen, and the rest of the string. *)
Fixpoint mantissa (s : string) (acc : Z) (frac : Z) (point digit : bool)
    : Z * Z * bool * string :=
  match s with
  | EmptyString => (acc, frac, digit, s)
  | String c s' =>
      match strconv.digit c with
      | Some d =>
          mantissa s' (10 * acc + d) (if point then frac + 1 else frac)
                   point true
      | None =>
          if Ascii.eqb c "." && negb point then mantissa s' acc frac true digit
          else (acc, frac, digit, s)
      end
  end.

Definition sign (s : string) : bool * string :=
  match s with
  | String c s' =>
      if Ascii.eqb c "-" then (true, s')
      else if Ascii.eqb c "+" then (false, s')
      else (false, s)
  | EmptyString => (false, s)
  end.

(** An exponent part, [e] or [E], a sign and digits: its value. *)
Definition exponent (s : string) : option Z :=
  match s with
  | EmptyString => Some 0
  | String c s' =>
      if Ascii.eqb c "e" || Ascii.eqb c "E" then
        let '(neg, ds) := sign s' in
        match strconv.ParseUint ds with
        | Some e => Some (if neg then - e else e)
        | None => None
        end
      else None
  end.

(** The binary64 number nearest to [m * 10 ^ e], ties to even: for a
    negative [e] the quotient is taken with 65 bits or more and the
    remainder kept as a sticky bit. *)
Definition nearest (neg : bool) (m e : Z) : float64 :=
  if m =? 0 then S754_zero neg
  else
    let m' := if neg then - m else m in
    if 0 <=? e then binary_normalize 53 1024 (m' * 10 ^ e) 0 false
    else
      let d := 10 ^ (- e) in
      let k := Z.log2 d + 66 in
      let q := (m * 2 ^ k) / d in
      let sticky := if (m * 2 ^ k) mod d =? 0 then 0 else 1 in
      let q' := 2 * q + sticky in
      binary_normalize 53 1024 (if neg then - q' else q') (- (k + 1)) false.

(** [strconv.ParseFloat(s, 64)] on decimal numerals: a sign, digits
    with a point, an exponent. The forms with [Inf], [NaN], a [0x]
    prefix or underscores are outside this instance and refused. *)
Definition ParseFloat (s : string) : float64 * error :=
  let syntax :=
    Some ("strconv.ParseFloat: parsing " +:+ quote s +:+ ": invalid syntax") in
  let '(neg, s1) := sign s in
  let '(m, frac, digit, rest) := mantissa s1 0 0 false false in
  if negb digit then (S754_zero false, syntax)
  else
    match exponent rest with
    | None => (S754_zero false, syntax)
    | Some e =>
        match nearest neg m (e - frac) with
        | S754_infinity sg =>
            (S754_infinity sg,
             Some ("strconv.ParseFloat: parsing " +:+ quote s
                   +:+ ": value out of range"))
        | f => (f, None)
        end
    end.

End decimal.

Module ascii_space.

Definition isSpace (c : ascii) : bool :=
  let n := nat_of_ascii c in
  ((9 <=? n) && (n <=? 13) || (n =? 32))%nat.

Fixpoint trimLeft (s : string) : string :=
  match s with
  | String c s' => if isSpace c then trimLeft s' else s
  | EmptyString => s
  end.

(** [s] without its trailing spaces. *)
Fixpoint trimRight (s : string) : string :=
  match s with
  | EmptyString => EmptyString
  | String c s' =>
      match trimRight s' with
      | EmptyString => if isSpace c then EmptyString else String c EmptyString
      | t => String c t
      end
  end.

(** [strings.TrimSpace] on strings of ASCII bytes. *)
Definition TrimSpace (s : string) : string := trimRight (trimLeft s).

End ascii_space.

Module plain.

(** [text/template] on templates without actions, which render as they
    are; a template with an opening delimiter is outside this instance
    and refused. *)
Definition Parse (s : string) : string + string :=
  if strings.Contains s "{{" then inr "template: prompt: action outside the instance"
  else inl s.

Definition Execute (tmpl : string) (_ : gmap string any) : string + string :=
  inl tmpl.

(** [time.ParseDuration] on a decimal count of seconds, [<digits>s]. *)
Definition ParseDuration (s : string) : Z + string :=
  if strings.HasSuffix s "s" then
    match strconv.ParseUint (String.substring 0 (String.length s - 1) s) with
    | Some n => inl (n * 1000000000)
    | None => inr ("time: invalid duration " +:+ quote s)
    end
  else inr ("time: invalid duration " +:+ quote s).

End plain.

Module llmresolver.

(** Modelled from the spec: package [llmresolver] is not among the
    sources. Section 6.1 names the routing strategies [random],
    [round_robin] and [low_latency]; any other name is an error. *)
Inductive Policy := Randomly | RoundRobin | LowLatency.

Definition PolicyFromString (s : string) : Policy * error :=
  if String.eqb s "random" then (Randomly, None)
  else if String.eqb s "round_robin" then (RoundRobin, None)
  else if String.eqb s "low_latency" then (LowLatency, None)
  else (Randomly, Some ("unknown routing strategy: " +:+ s)).

End llmresolver.

(** [MockTaskExecutor], the executor of the package's tests: the output
    and raw response it is set up with, and the errors of
    [ErrorSequence] call after call, [MockError] once they are used up. *)
Record MockTaskExecutor := mkMock {
  MockOutput : any;
  MockRawResponse : string;
  MockError : error;
  CalledWithTask : option ChainTask;
  CalledWithPrompt : string;
  ErrorSequence : list error;
  callIndex : nat
}.

Definition MockTaskExec {Policy : Type} (m : MockTaskExecutor) (_ : option Z)
    (_ : Policy) (currentTask : ChainTask) (input : any) (dataType : DataType)
    : (any * DataType * string * error) * MockTaskExecutor :=
  let prompt := match input with AnyString s => s | _ => "" end in
  let '(err, idx) :=
    if (callIndex m <? List.length (ErrorSequence m))%nat
    then (nth (callIndex m) (ErrorSequence m) None, Datatypes.S (callIndex m))
    else (MockError m, callIndex m) in
  ((MockOutput m, dataType, MockRawResponse m, err),
   mkMock (MockOutput m) (MockRawResponse m) (MockError m)
          (Some currentTask) prompt (ErrorSequence m) idx).

#[export] Instance MockTaskExecutor_exec {Policy : Type}
  : TaskExecutor MockTaskExecutor Policy := {| TaskExec := MockTaskExec |}.

(** A mock that has not been called. *)
Definition newMock (out : any) (raw : string) (err : error) (seq : list error)
    : MockTaskExecutor :=
  mkMock out raw err None "" seq 0.

Definition emptyWorld {S} (s : S) : World S := mkWorld s [] [].

(** The functions of the engine at the collaborators above. *)
Definition parseNumber' := parseNumber decimal.ParseFloat.
Definition compare' := compare decimal.ParseFloat ascii_space.TrimSpace.
Definition evaluateTransitions' :=
  evaluateTransitions decimal.ParseFloat ascii_space.TrimSpace.
Definition retryLoop' :=
  retryLoop plain.ParseDuration llmresolver.Policy (S := MockTaskExecutor).
Definition afterAttempts' :=
  afterAttempts decimal.ParseFloat ascii_space.TrimSpace
                string plain.Parse plain.Execute (S := MockTaskExecutor).
Definition visit' :=
  visit decimal.ParseFloat ascii_space.TrimSpace
        string plain.Parse plain.Execute plain.ParseDuration
        llmresolver.Policy (S := MockTaskExecutor).
Definition ExecEnv' :=
  ExecEnv decimal.ParseFloat ascii_space.TrimSpace
          string plain.Parse plain.Execute plain.ParseDuration
          llmresolver.Policy llmresolver.Randomly llmresolver.PolicyFromString
          (S := MockTaskExecutor).

(** ** What is counted and compared in the properties *)

Definition isAttemptStart (e : Event) : bool :=
  match e with
  | TrackerStart operation _ _ => String.eqb operation "task_attempt"
  | _ => false
  end.

(** The attempts of a run: the [task_attempt] events started, one before
    each call of the executor. *)
Definition attempts (evs : list Event) : nat :=
  List.length (List.filter isAttemptStart evs).

Definition isVisitStart (e : Event) : bool :=
  match e with
  | TrackerStart operation _ (_ :: AnyInt 0 :: _) =>
      String.eqb operation "task_attempt"
  | _ => false
  end.

(** The task visits of a run that reached their first attempt. *)
Definition visits (evs : list Event) : nat :=
  List.length (List.filter isVisitStart evs).

Definition isStdout (e : Event) : bool :=
  match e with Stdout _ => true | _ => false end.

(** The events of the transition out of a task. *)
Definition isTransitionEvent (e : Event) : bool :=
  match e with
  | TrackerStart operation _ _ | TrackerReportChange operation _ _ _ =>
      String.eqb operation "next_task" || String.eqb operation "chain_complete"
  | _ => false
  end.

(** A tracker event that carries the string [msg]. *)
Definition trackerCarries (msg : string) (e : Event) : bool :=
  let carries (a : any) :=
    match a with AnyString s => String.eqb s msg | _ => false end in
  match e with
  | TrackerStart _ _ kvArgs => existsb carries kvArgs
  | TrackerReportErr _ _ err => String.eqb err msg
  | TrackerReportChange _ _ id data => String.eqb id msg || carries data
  | _ => false
  end.

(** Modelled from the spec: the captured state unit of section 6.3,
    which the sources of the engine do not declare. *)
Record CapturedStateUnit := {
  unit_taskID : string;
  unit_taskType : string;
  unit_inputType : DataType;
  unit_outputType : DataType;
  unit_transition : string;
  unit_duration_ms : Z;
  unit_error : error
}.

(** An executor that notes the resolver of each call it receives and
    hands the call on. *)
Definition spy {S Policy : Type} (exec : TaskExecutor S Policy)
    : TaskExecutor (S * list Policy) Policy :=
  {| TaskExec := fun st ctx resolver task input dataType =>
       let '(res, s') := TaskExec (fst st) ctx resolver task input dataType in
       (res, (s', (snd st ++ [resolver])%list)) |}.

(** The resolvers that the spy has noted from [w] to [w'] are copies of
    [resolver]. *)
Definition noted {S Policy : Type} (resolver : Policy)
    (w w' : World (S * list Policy)) : Prop :=
  exists n, snd (executor w') = (snd (executor w) ++ repeat resolver n)%list.

(** The mantissa of the float of a positive integer below [2 ^ 53]:
    the integer shifted to 53 bits. *)
Definition mantissa53 (p : positive) : positive :=
  match (Zpos (Pos.size p) - 53)%Z with
  | Zneg k => Pos.iter xO p k
  | _ => p
  end.

(** The four operators that compare two numbers, with the relation of
    each. *)
Definition numericRelation (operator : string)
    : option (float64 -> float64 -> bool) :=
  if String.eqb operator OpGt || String.eqb operator OpGreaterThan
  then Some f64_gt
  else if String.eqb operator OpLt || String.eqb operator OpLessThan
  then Some f64_lt
  else None.

(** The validation as section 4.1 of the specification words it:
    whether the chain is to be rejected. *)
Fixpoint hasDuplicate (ids : list string) : bool :=
  match ids with
  | [] => false
  | id :: rest => existsb (String.eqb id) rest || hasDuplicate rest
  end.

Definition danglingGoto (tasks : list ChainTask) (ct : TransitionBranch) : bool :=
  negb (String.eqb (Goto ct) TermEnd)
  && negb (existsb (fun t => String.eqb (ID t) (Goto ct)) tasks).

Definition validateChain_spec (tasks : list ChainTask) : bool :=
  (List.length tasks =? 0)%nat
  || existsb (fun t => String.eqb (ID t) "" || String.eqb (ID t) TermEnd) tasks
  || hasDuplicate (List.map ID tasks)
  || existsb (fun t => existsb (danglingGoto tasks) (Branches (Transition t)))
             tasks.

(** The transition evaluation as section 4.3 of the specification words
    it: the first branch, not a default one, on which [compare] returns
    true; else the first default branch; else the error. *)
Module words.

Section TransitionsSpec.

Variable ParseFloat : string -> float64 * error.
Variable TrimSpace : string -> string.

Definition isDefault (ct : TransitionBranch) : bool :=
  String.eqb (Operator ct) OpDefault.

Definition branchMatches (eval : string) (ct : TransitionBranch) : bool :=
  negb (isDefault ct)
  && fst (compare ParseFloat TrimSpace (Operator ct) eval (When ct)).

(** [compare] raises an error on the branch. *)
Definition branchFails (eval : string) (ct : TransitionBranch) : bool :=
  negb (isDefault ct)
  && match snd (compare ParseFloat TrimSpace (Operator ct) eval (When ct)) with
     | Some _ => true
     | None => false
     end.

(** [compare] returns false on the branch, without an error, or the
    branch is a default one. *)
Definition branchQuiet (eval : string) (ct : TransitionBranch) : bool :=
  negb (branchMatches eval ct) && negb (branchFails eval ct).

Definition evaluateTransitions_spec (transition : TaskTransition)
    (eval : string) : string * error :=
  match List.find (branchMatches eval) (Branches transition) with
  | Some ct => (Goto ct, None)
  | None =>
      match List.find isDefault (Branches transition) with
      | Some ct => (Goto ct, None)
      | None => ("", Errorf ["no matching transition found"])
      end
  end.

End TransitionsSpec.

End words.
Import words.

(** ** Chains and tasks of the examples *)

Definition branch (operator when goto : string) : TransitionBranch :=
  {| Operator := operator; When := when; Goto := goto |}.

Definition task (id : string) (retries : Z) (timeout print onFailure : string)
    (branches : list TransitionBranch) : ChainTask :=
  {| ID := id; TaskType := "raw_string"; Template := ""; Timeout := timeout;
     RetryOnFailure := retries;
     Transition := {| OnFailure := onFailure; Branches := branches |};
     Print := print |}.

Definition toEnd : list TransitionBranch := [branch "default" "" "end"].

Definition chainOf (tasks : list ChainTask) : ChainDefinition :=
  {| RoutingStrategy := ""; Tasks := tasks |}.

(** A default branch ahead of a numeric one; branches behind one with
    an operator that [compare] does not know. *)
Definition lowHigh : TaskTransition :=
  {| OnFailure := "";
     Branches := [branch "default" "" "low"; branch ">" "50" "high"] |}.

Definition regexThen (rest : list TransitionBranch) : TaskTransition :=
  {| OnFailure := ""; Branches := branch "regex" "h.*" "a" :: rest |}.

(** A mock executor that fails at every call. *)
Definition failingMock : MockTaskExecutor :=
  newMock AnyNil "" (Some "boom") [].

(** A mock executor that succeeds at every call. *)
Definition goodMock : MockTaskExecutor :=
  newMock (AnyString "out") "raw" None [].

Definition startLocals (t : ChainTask) : Locals :=
  mkLocals t (AnyString "in") DataTypeString "" None {["input" := AnyString "in"]}.

(** Two tasks with one id, the first with a goto to no task. *)
Definition twins : list ChainTask :=
  [task "a" 0 "" "" "" [branch "default" "" "nowhere"];
   task "a" 0 "" "" "" toEnd].

(** A task with the reserved id. *)
Definition reserved : list ChainTask := [task "end" 0 "" "" "" toEnd].

(** One task, and two in a row, each passing to the end. *)
Definition oneTask : ChainDefinition := chainOf [task "t" 0 "" "" "" toEnd].

Definition twoTasks : ChainDefinition :=
  chainOf [task "t" 0 "" "" "" [branch "default" "" "u"];
           task "u" 0 "" "" "" toEnd].

(** A task with a print statement. *)
Definition printing : ChainDefinition :=
  chainOf [task "t" 0 "" "printed" "" toEnd].

(** A task whose default branch has an empty goto. *)
Definition emptyGoto : ChainDefinition :=
  chainOf [task "t" 0 "" "" "" [branch "default" "" ""]].

(** Failing tasks: with a timeout that is no duration, with a handler
    that is no task, with a handler, with none, and with the largest
    retry count. *)
Definition badTimeout : ChainDefinition :=
  chainOf [task "t" 2 "soon" "" "" toEnd].

Definition ghostHandler : ChainDefinition :=
  chainOf [task "t" 0 "" "" "ghost" toEnd].

Definition handled : ChainDefinition :=
  chainOf [task "t" 2 "" "" "h" toEnd; task "h" 0 "" "" "" toEnd].

Definition unhandled : ChainDefinition :=
  chainOf [task "t" 2 "" "" "" toEnd].

Definition endless : ChainDefinition :=
  chainOf [task "t" MaxInt64 "" "" "" toEnd].

(** A run of a chain on the input [in] with a mock executor. *)
Definition run (fuel : nat) (chain : ChainDefinition) (m : MockTaskExecutor)
    : option (any * error) * World MockTaskExecutor :=
  ExecEnv' fuel chain (AnyString "in") DataTypeString (emptyWorld m).

(** A chain without tasks whose routing strategy is no policy. *)
Definition unknownStrategy : ChainDefinition :=
  {| RoutingStrategy := "fastest"; Tasks := [] |}.

(** A run with the spy around the mock executor. *)
Definition runSpied (fuel : nat) (chain : ChainDefinition)
    (m : MockTaskExecutor)
    : option (any * error) * World (MockTaskExecutor * list llmresolver.Policy) :=
  @ExecEnv decimal.ParseFloat ascii_space.TrimSpace
    string plain.Parse plain.Execute plain.ParseDuration
    llmresolver.Policy llmresolver.Randomly llmresolver.PolicyFromString
    (MockTaskExecutor * list llmresolver.Policy) (spy MockTaskExecutor_exec)
    fuel chain (AnyString "in") DataTypeString (emptyWorld (m, [])).

(** The loops and the rest of the body at the collaborators above. *)
Definition mainLoop' :=
  mainLoop decimal.ParseFloat ascii_space.TrimSpace
           string plain.Parse plain.Execute plain.ParseDuration
           llmresolver.Policy (S := MockTaskExecutor).

(** The one task of a chain of the examples. *)
Definition entry (chain : ChainDefinition) : ChainTask :=
  match Tasks chain with
  | t :: _ => t
  | [] => task "" 0 "" "" "" []
  end.

(** The timeout of a task is absent or a duration. *)
Definition timeoutParses (ParseDuration : string -> Z + string)
    (task : ChainTask) : Prop :=
  Timeout task = "" \/ exists d, ParseDuration (Timeout task) = inl d.

(** A mock executor in a state from which every call fails. *)
Definition mockFails (m : MockTaskExecutor) : Prop :=
  MockError m = Some "boom" /\ ErrorSequence m = [].

(** ** What the further properties speak of *)

(** The calls that [ExecEnv] defers: the end of a tracked operation and
    the [cancel] of a timeout context. *)
Definition isDeferredCall (e : Event) : bool :=
  match e with
  | TrackerEnd _ _ | ContextCancel _ => true
  | _ => false
  end.

(** The operations started, and those ended, in the order of the
    events: each with its subject. *)
Fixpoint startsOf (evs : list Event) : list (string * string) :=
  match evs with
  | [] => []
  | TrackerStart operation subject _ :: rest =>
      (operation, subject) :: startsOf rest
  | _ :: rest => startsOf rest
  end.

Fixpoint endsOf (evs : list Event) : list (string * string) :=
  match evs with
  | [] => []
  | TrackerEnd operation subject :: rest => (operation, subject) :: endsOf rest
  | _ :: rest => endsOf rest
  end.

(** The tasks visited, in order: the subjects of the first attempts. *)
Fixpoint visited (evs : list Event) : list string :=
  match evs with
  | [] => []
  | TrackerStart operation subject (_ :: AnyInt 0 :: _) :: rest =>
      if String.eqb operation "task_attempt" then subject :: visited rest
      else visited rest
  | _ :: rest => visited rest
  end.

(** From [w] to [w'] events have been added and calls deferred, and the
    operations ended by the deferred calls are those started by the new
    events, the latest first. *)
Definition grows {S : Type} (w w' : World S) : Prop :=
  exists new dnew,
    events w' = (events w ++ new)%list
    /\ deferred w' = (dnew ++ deferred w)%list
    /\ forallb isDeferredCall dnew = true
    /\ endsOf new = []
    /\ endsOf dnew = rev (startsOf new).

(** A call of the executor as a recording executor notes it: what it
    was given and what it returned. *)
Record Call := mkCall {
  callInput : any;
  callInputType : DataType;
  callOutput : any;
  callOutputType : DataType;
  callErr : error
}.

(** An executor that notes each call it receives and hands it on. *)
Definition recorder {S Policy : Type} (exec : TaskExecutor S Policy)
    : TaskExecutor (S * list Call) Policy :=
  {| TaskExec := fun st ctx resolver task input dataType =>
       let '(out, outType, eval, err, s') :=
         TaskExec (fst st) ctx resolver task input dataType in
       ((out, outType, eval, err),
        (s', (snd st ++ [mkCall input dataType out outType err])%list)) |}.

(** Calls in a row, the first given [payload] and each later one what
    the call before it returned; all but the last have failed. *)
Fixpoint chained (payload : any * DataType) (calls : list Call) : Prop :=
  match calls with
  | [] => True
  | c :: rest =>
      (callInput c, callInputType c) = payload
      /\ (rest <> [] -> callErr c <> None)
      /\ chained (callOutput c, callOutputType c) rest
  end.

(** The results of a mock executor called with one task, input and type
    after the other (the mock looks at no context and no resolver). *)
Fixpoint mockCalls (m : MockTaskExecutor)
    (args : list (ChainTask * any * DataType))
    : list (any * DataType * string * error) :=
  match args with
  | [] => []
  | (task, input, dataType) :: rest =>
      let '(res, m') := MockTaskExec (Policy := unit) m None tt task input
                                     dataType in
      res :: mockCalls m' rest
  end.

(** A mock executor that is to fail [k] more times and then to succeed. *)
Definition mockFailsFor (k : nat) (m : MockTaskExecutor) : Prop :=
  MockError m = None
  /\ skipn (callIndex m) (ErrorSequence m) = repeat (Some "boom") k.

(** A mock executor that fails three times and succeeds from its fourth
    call on. *)
Definition failsThrice : MockTaskExecutor :=
  newMock (AnyString "o") "raw" None [Some "boom"; Some "boom"; Some "boom"].

(** A mock executor that fails twice before it succeeds. *)
Definition recoveringMock : MockTaskExecutor :=
  newMock (AnyString "out") "raw" None [Some "boom"; Some "boom"].

(** A task without templates whose branches are default ones, the first
    of them leading to a task of the chain. *)
Definition passesOn (ParseDuration : string -> Z + string)
    (tasks : list ChainTask) (t : ChainTask) : Prop :=
  Template t = "" /\ Print t = ""
  /\ timeoutParses ParseDuration t
  /\ Forall (fun ct => Operator ct = OpDefault) (Branches (Transition t))
  /\ exists ct rest next,
       Branches (Transition t) = ct :: rest
       /\ Goto ct <> "" /\ Goto ct <> TermEnd
       /\ findTaskByID tasks (Goto ct) = (Some next, None).

(** Two tasks that pass the run to each other. *)
Definition pingPong : ChainDefinition :=
  chainOf [task "ping" 1 "" "" "" [branch "default" "" "pong"];
           task "pong" 0 "1s" "" "" [branch "default" "" "ping";
                                     branch "default" "" "end"]].

(** An event beside the attempts that ends nothing: a printed line, or
    a change reported for another operation than [task_attempt]. *)
Definition besideAttempts (e : Event) : bool :=
  match e with
  | Stdout _ => true
  | TrackerReportChange operation _ _ _ =>
      negb (String.eqb operation "task_attempt")
  | _ => false
  end.

(** What the tracker is told of the attempts, in order: the error of a
    failed one, the output of a successful one. *)
Fixpoint reportsOf (evs : list Event) : list (any + string) :=
  match evs with
  | [] => []
  | TrackerReportErr operation _ err :: rest =>
      if String.eqb operation "task_attempt" then inr err :: reportsOf rest
      else reportsOf rest
  | TrackerReportChange operation _ _ data :: rest =>
      if String.eqb operation "task_attempt" then inl data :: reportsOf rest
      else reportsOf rest
  | _ :: rest => reportsOf rest
  end.

(** What a call of the executor has come to: its error, or its output. *)
Definition outcome (c : Call) : any + string :=
  match callErr c with
  | Some e => inr e
  | None => inl (callOutput c)
  end.

(** From [w] to [w'] the recording executor has noted as many calls as
    attempts have been started, and the tracker has been told what each
    of them has come to. *)
Definition tracked {S : Type} (w w' : World (S * list Call)) : Prop :=
  exists new calls,
    events w' = (events w ++ new)%list
    /\ snd (executor w') = (snd (executor w) ++ calls)%list
    /\ attempts new = List.length calls
    /\ reportsOf new = List.map outcome calls.

(** A call of the [cancel] function of a timeout context. That a
    context ends by itself at its deadline is no event: the engine does
    not see it. *)
Definition isCancelCall (e : Event) : bool :=
  match e with ContextCancel _ => true | _ => false end.

(** The calls of [cancel] functions among the events. *)
Definition cancelCalls (evs : list Event) : nat :=
  List.length (List.filter isCancelCall evs).

(** From [w] to [w'] no [cancel] function has been called; the calls
    of [cancel] functions deferred are at most as many as the attempts
    started, as many when every task of [tasks] has a timeout, and none
    when no task has. *)
Definition timing {S : Type} (tasks : list ChainTask) (w w' : World S) : Prop :=
  exists new dnew,
    events w' = (events w ++ new)%list
    /\ deferred w' = (dnew ++ deferred w)%list
    /\ cancelCalls new = 0%nat
    /\ attempts dnew = 0%nat
    /\ (cancelCalls dnew <= attempts new)%nat
    /\ ((forall t, In t tasks -> Timeout t <> "") ->
        cancelCalls dnew = attempts new)
    /\ ((forall t, In t tasks -> Timeout t = "") -> cancelCalls dnew = 0%nat).

(** A task with a timeout of one second, to be retried twice. *)
Definition timed : ChainDefinition :=
  chainOf [task "t" 2 "1s" "" "" toEnd].

(** * Properties *)

(** ** Strings *)

Lemma Split_nonempty (s : string) (sep : ascii) : strings.Split s sep <> [].
Proof.
  destruct s as [|c s]; simpl; [discriminate|].
  destruct (Ascii.eqb c sep); [discriminate|].
  destruct (strings.Split s sep); discriminate.
Qed.

(** [Split] gives one piece more than the separator occurs. *)
Lemma Split_length (s : string) (sep : ascii) :
  List.length (strings.Split s sep) = Datatypes.S (strings.CountByte s sep).
Proof.
  induction s as [|c s IH]; simpl; [reflexivity|].
  destruct (Ascii.eqb c sep); simpl; [now rewrite IH|].
  pose proof (Split_nonempty s sep) as Hne.
  destruct (strings.Split s sep) as [|p rest]; [contradiction|].
  simpl in *. exact IH.
Qed.

Lemma CountByte_app (s t : string) (c : ascii) :
  strings.CountByte (s +:+ t) c
  = (strings.CountByte s c + strings.CountByte t c)%nat.
Proof.
  induction s as [|a s IH]; simpl; [reflexivity|]. rewrite IH. lia.
Qed.

(** A string without the separator is one piece. *)
Lemma Split_none (s : string) (sep : ascii) :
  strings.CountByte s sep = 0%nat -> strings.Split s sep = [s].
Proof.
  induction s as [|c s IH]; simpl; [reflexivity|].
  destruct (Ascii.eqb c sep); [discriminate|].
  intros H. rewrite (IH H). reflexivity.
Qed.

(** Two strings without the separator, joined by it, are split back. *)
Lemma Split_join (lo hi : string) (sep : ascii) :
  strings.CountByte lo sep = 0%nat ->
  strings.CountByte hi sep = 0%nat ->
  strings.Split (lo +:+ String sep hi) sep = [lo; hi].
Proof.
  intros Hlo Hhi. induction lo as [|c lo IH]; simpl in *.
  - rewrite Ascii.eqb_refl, (Split_none hi sep Hhi). reflexivity.
  - destruct (Ascii.eqb c sep); [discriminate|].
    rewrite (IH Hlo). reflexivity.
Qed.

(** ** Numbers *)

Lemma SFcompare_refl (x : float64) :
  SFcompare x x = Some Eq \/ SFcompare x x = None.
Proof.
  destruct x as [s|s| |s m e]; simpl; auto.
  - destruct s; auto.
  - left. rewrite Z.compare_refl, Pos.compare_cont_refl.
    destruct s; reflexivity.
Qed.

(** [>] and [<] on [float64] never hold between a number and itself. *)
Lemma f64_gt_irrefl (x : float64) : f64_gt x x = false.
Proof.
  unfold f64_gt, SFltb. destruct (SFcompare_refl x) as [H|H]; now rewrite H.
Qed.

Lemma f64_lt_irrefl (x : float64) : f64_lt x x = false.
Proof. exact (f64_gt_irrefl x). Qed.

(** [<=] holds between every number and itself, [NaN] apart. *)
Lemma f64_le_refl (x : float64) : x <> S754_nan -> f64_le x x = true.
Proof.
  intros Hx. unfold f64_le, SFleb.
  destruct (SFcompare_refl x) as [H|H]; rewrite H; [reflexivity|].
  destruct x as [s|s| |s m e]; simpl in H;
    try discriminate; try congruence; try (destruct s; discriminate).
Qed.

Lemma f64_ge_le (x y : float64) : f64_ge x y = f64_le y x.
Proof. reflexivity. Qed.

(** *** Integers as floats *)

Lemma digits2_pos_size (p : positive) : digits2_pos p = Pos.size p.
Proof. induction p; simpl; congruence. Qed.

Lemma size_iter_xO (p k : positive) :
  Pos.size (Pos.iter xO p k) = (Pos.size p + k)%positive.
Proof.
  induction k using Pos.peano_ind.
  - simpl. now rewrite Pos.add_1_r.
  - rewrite Pos.iter_succ. simpl. rewrite IHk. lia.
Qed.

Lemma compare_iter_xO (p q k : positive) :
  (Pos.iter xO p k ?= Pos.iter xO q k)%positive = (p ?= q)%positive.
Proof.
  induction k using Pos.peano_ind.
  - reflexivity.
  - rewrite !Pos.iter_succ. exact IHk.
Qed.

Lemma size_bound (p : positive) : Zpos p < 2 ^ 53 -> Zpos (Pos.size p) <= 53.
Proof.
  intros H. pose proof (Pos.size_le p) as Hle.
  destruct (Z_le_gt_dec (Zpos (Pos.size p)) 53) as [|Hgt]; [assumption|].
  exfalso.
  assert (2 ^ 54 <= 2 ^ Zpos (Pos.size p)) by (apply Z.pow_le_mono_r; lia).
  assert (Zpos (2 ^ Pos.size p) <= Zpos p~0) by exact Hle.
  rewrite Pos2Z.inj_pow in H1.
  change (Zpos p~0) with (2 * Zpos p) in H1. lia.
Qed.

Lemma size_lt_lt (p q : positive) :
  (Pos.size p < Pos.size q)%positive -> (p < q)%positive.
Proof.
  intros H. pose proof (Pos.size_gt p) as Hp. pose proof (Pos.size_le q) as Hq.
  apply Pos2Z.pos_lt_pos in Hp. apply Pos2Z.pos_le_pos in Hq.
  rewrite Pos2Z.inj_pow in Hp, Hq.
  change (Zpos q~0) with (2 * Zpos q) in Hq.
  assert (2 * 2 ^ Zpos (Pos.size p) <= 2 ^ Zpos (Pos.size q)).
  { rewrite <- Z.pow_succ_r by lia. apply Z.pow_le_mono_r; lia. }
  lia.
Qed.

Lemma shr_fexp_exact (m : positive) (e : Z) :
  fexp 53 1024 (Zpos (digits2_pos m) + e) = e ->
  shr_fexp 53 1024 (Zpos m) e loc_Exact
  = ({| shr_m := Zpos m; shr_r := false; shr_s := false |}, e).
Proof.
  intros H. unfold shr_fexp, Zdigits2. rewrite H, Z.sub_diag. reflexivity.
Qed.

Lemma binary_round_aux_exact (s : bool) (m : positive) (e : Z) :
  fexp 53 1024 (Zpos (digits2_pos m) + e) = e ->
  e <= 971 ->
  binary_round_aux 53 1024 s (Zpos m) e loc_Exact = S754_finite s m e.
Proof.
  intros H He. unfold binary_round_aux. rewrite (shr_fexp_exact m e H).
  cbn [shr_m loc_of_shr_record round_nearest_even].
  rewrite (shr_fexp_exact m e H). cbn [shr_m].
  replace (e <=? 1024 - 53) with true; [reflexivity|].
  symmetry. apply Z.leb_le. lia.
Qed.

Lemma binary_round_small (s : bool) (p : positive) :
  Zpos p < 2 ^ 53 ->
  binary_round 53 1024 s p 0
  = S754_finite s (mantissa53 p) (Zpos (Pos.size p) - 53).
Proof.
  intros Hp. pose proof (size_bound p Hp) as Hs.
  unfold binary_round, shl_align, mantissa53.
  rewrite digits2_pos_size, Z.add_0_r.
  assert (Hf : fexp 53 1024 (Zpos (Pos.size p)) = Zpos (Pos.size p) - 53).
  { unfold fexp, emin. lia. }
  rewrite Hf, Z.sub_0_r.
  destruct (Zpos (Pos.size p) - 53) as [|k|k] eqn:E; [| lia |].
  - apply binary_round_aux_exact; [|lia].
    rewrite digits2_pos_size, Z.add_0_r. unfold fexp, emin. lia.
  - apply binary_round_aux_exact; [|lia].
    rewrite digits2_pos_size, size_iter_xO. unfold fexp, emin. lia.
Qed.

Lemma mantissa53_compare (p q : positive) :
  match Zpos (Pos.size p) - 53 ?= Zpos (Pos.size q) - 53 with
  | Lt => Lt
  | Gt => Gt
  | Eq => Pos.compare_cont Eq (mantissa53 p) (mantissa53 q)
  end = (p ?= q)%positive.
Proof.
  destruct (Z.compare_spec (Zpos (Pos.size p) - 53) (Zpos (Pos.size q) - 53))
    as [He|Hlt|Hgt].
  - unfold mantissa53. rewrite <- He.
    destruct (Zpos (Pos.size p) - 53); try reflexivity.
    apply compare_iter_xO.
  - symmetry. apply Pos.compare_lt_iff, size_lt_lt. lia.
  - symmetry. apply Pos.compare_gt_iff, size_lt_lt. lia.
Qed.

(** Integers below [2 ^ 53] in size are floats as they are: the floats
    compare as the integers do. *)
Lemma float64_of_int_compare (i j : Z) :
  Z.abs i < 2 ^ 53 -> Z.abs j < 2 ^ 53 ->
  SFcompare (float64_of_int i) (float64_of_int j) = Some (i ?= j).
Proof.
  intros Hi Hj. unfold float64_of_int, binary_normalize.
  destruct i as [|p|p], j as [|q|q];
    rewrite ?binary_round_small by (simpl in *; lia);
    cbn [SFcompare]; try reflexivity.
  - f_equal. apply mantissa53_compare.
  - f_equal.
    change (Zneg p ?= Zneg q) with (CompOpp (p ?= q)%positive).
    rewrite <- (mantissa53_compare p q).
    destruct (Zpos (Pos.size p) - 53 ?= Zpos (Pos.size q) - 53); reflexivity.
Qed.

Lemma float64_of_int_nan (i : Z) :
  Z.abs i < 2 ^ 53 -> float64_of_int i <> S754_nan.
Proof.
  intros Hi. unfold float64_of_int, binary_normalize.
  destruct i as [|p|p]; rewrite ?binary_round_small by (simpl in *; lia);
    discriminate.
Qed.

Lemma f64_gt_of_int (i j : Z) :
  Z.abs i < 2 ^ 53 -> Z.abs j < 2 ^ 53 ->
  f64_gt (float64_of_int i) (float64_of_int j) = (j <? i).
Proof.
  intros Hi Hj. unfold f64_gt, SFltb, Z.ltb.
  now rewrite (float64_of_int_compare j i Hj Hi).
Qed.

Lemma f64_lt_of_int (i j : Z) :
  Z.abs i < 2 ^ 53 -> Z.abs j < 2 ^ 53 ->
  f64_lt (float64_of_int i) (float64_of_int j) = (i <? j).
Proof. intros Hi Hj. exact (f64_gt_of_int j i Hj Hi). Qed.

Lemma f64_le_of_int (i j : Z) :
  Z.abs i < 2 ^ 53 -> Z.abs j < 2 ^ 53 ->
  f64_le (float64_of_int i) (float64_of_int j) = (i <=? j).
Proof.
  intros Hi Hj. unfold f64_le, SFleb, Z.leb.
  rewrite (float64_of_int_compare i j Hi Hj). now destruct (i ?= j).
Qed.

(** ** [parseNumber] and [compare] *)

Section CompareProperties.

Variable ParseFloat : string -> float64 * error.
Variable TrimSpace : string -> string.

Local Abbreviation parseNumber := (parseNumber ParseFloat).
Local Abbreviation compare := (compare ParseFloat TrimSpace).

Lemma compare_gt (response when : string) :
  compare OpGt response when = compareNumbers ParseFloat f64_gt response when.
Proof. reflexivity. Qed.

Lemma compare_greater_than (response when : string) :
  compare OpGreaterThan response when
  = compareNumbers ParseFloat f64_gt response when.
Proof. reflexivity. Qed.

Lemma compare_lt (response when : string) :
  compare OpLt response when = compareNumbers ParseFloat f64_lt response when.
Proof. reflexivity. Qed.

Lemma compare_less_than (response when : string) :
  compare OpLessThan response when
  = compareNumbers ParseFloat f64_lt response when.
Proof. reflexivity. Qed.

(** The [in_range] case of [compare], by the pieces of [when]. *)
Lemma compare_in_range (response when : string) :
  compare OpInRange response when
  = match strings.Split when "-" with
    | [part0; part1] =>
        match parseNumber (TrimSpace part0) with
        | (_, Some e) => (false, Errorf ["invalid lower bound: "; e])
        | (lower, None) =>
            match parseNumber (TrimSpace part1) with
            | (_, Some e) => (false, Errorf ["invalid upper bound: "; e])
            | (upper, None) =>
                match parseNumber response with
                | (_, Some e) => (false, Some e)
                | (resNum, None) =>
                    (f64_le lower resNum && f64_le resNum upper, None)
                end
            end
        end
    | _ => (false, Errorf ["invalid between range format: "; when])
    end.
Proof.
  unfold taskengine.compare. cbn [String.eqb Ascii.eqb Bool.eqb OpInRange
    OpEquals OpContains OpStartsWith OpEndsWith OpGreaterThan OpGt
    OpLessThan OpLt orb].
  destruct (strings.Split when "-") as [|p0 [|p1 [|p2 rest]]]; reflexivity.
Qed.

Lemma compareNumbers_ok rel response when x y :
  parseNumber response = (x, None) ->
  parseNumber when = (y, None) ->
  compareNumbers ParseFloat rel response when = (rel x y, None).
Proof. intros Hx Hy. unfold compareNumbers. now rewrite Hx, Hy. Qed.

Lemma compareNumbers_response_error rel response when x e :
  parseNumber response = (x, Some e) ->
  compareNumbers ParseFloat rel response when = (false, Some e).
Proof. intros Hx. unfold compareNumbers. now rewrite Hx. Qed.

Lemma compareNumbers_when_error rel response when x y e :
  parseNumber response = (x, None) ->
  parseNumber when = (y, Some e) ->
  compareNumbers ParseFloat rel response when = (false, Some e).
Proof. intros Hx Hy. unfold compareNumbers. now rewrite Hx, Hy. Qed.

Lemma compare_numericRelation operator rel response when :
  numericRelation operator = Some rel ->
  compare operator response when
  = compareNumbers ParseFloat rel response when.
Proof.
  unfold numericRelation.
  destruct (String.eqb operator OpGt) eqn:E1;
    [apply String.eqb_eq in E1; subst; intros [= <-]; reflexivity|].
  destruct (String.eqb operator OpGreaterThan) eqn:E2;
    [apply String.eqb_eq in E2; subst; intros [= <-]; reflexivity|].
  destruct (String.eqb operator OpLt) eqn:E3;
    [apply String.eqb_eq in E3; subst; intros [= <-]; reflexivity|].
  destruct (String.eqb operator OpLessThan) eqn:E4;
    [apply String.eqb_eq in E4; subst; intros [= <-]; reflexivity|].
  discriminate.
Qed.

(** C5, as amended. [parseNumber] takes a string as an integer first
    and as a float otherwise, and gives a [float64] either way. [>] and
    [greater_than] give the strict order of the two floats, false when
    they are equal; [<] and [less_than] likewise. [in_range] on
    [lo-hi], with no [-] inside [lo] and [hi], gives
    [lo <= eval && eval <= hi] on the floats, true at both endpoints.
    An operand that does not parse gives an error, with [false]. On
    integers below [2 ^ 53] in size, which are floats as they are, [>]
    is the strict order of the integers and [in_range] their order
    with both endpoints. *)
Theorem compare_numeric_operators (response when : string) :
  (forall s i, strconv.ParseInt s = Some i ->
     parseNumber s = (float64_of_int i, None))
  /\ (forall s, strconv.ParseInt s = None -> parseNumber s = ParseFloat s)
  /\ (forall operator x y,
        operator = OpGt \/ operator = OpGreaterThan ->
        parseNumber response = (x, None) ->
        parseNumber when = (y, None) ->
        compare operator response when = (f64_gt x y, None)
        /\ (x = y -> compare operator response when = (false, None)))
  /\ (forall operator x y,
        operator = OpLt \/ operator = OpLessThan ->
        parseNumber response = (x, None) ->
        parseNumber when = (y, None) ->
        compare operator response when = (f64_lt x y, None)
        /\ (x = y -> compare operator response when = (false, None)))
  /\ (forall operator rel x e,
        numericRelation operator = Some rel ->
        parseNumber response = (x, Some e) ->
        compare operator response when = (false, Some e))
  /\ (forall operator rel x y e,
        numericRelation operator = Some rel ->
        parseNumber response = (x, None) ->
        parseNumber when = (y, Some e) ->
        compare operator response when = (false, Some e))
  /\ (forall lo hi l h x,
        when = lo +:+ String "-" hi ->
        strings.CountByte lo "-" = 0%nat ->
        strings.CountByte hi "-" = 0%nat ->
        parseNumber (TrimSpace lo) = (l, None) ->
        parseNumber (TrimSpace hi) = (h, None) ->
        parseNumber response = (x, None) ->
        compare OpInRange response when = (f64_le l x && f64_le x h, None)
        /\ (x = l -> l <> S754_nan -> f64_le l h = true ->
            compare OpInRange response when = (true, None))
        /\ (x = h -> h <> S754_nan -> f64_le l h = true ->
            compare OpInRange response when = (true, None)))
  /\ (forall lo hi,
        when = lo +:+ String "-" hi ->
        strings.CountByte lo "-" = 0%nat ->
        strings.CountByte hi "-" = 0%nat ->
        (exists l e, parseNumber (TrimSpace lo) = (l, Some e))
        \/ (exists h e, parseNumber (TrimSpace hi) = (h, Some e))
        \/ (exists x e, parseNumber response = (x, Some e)) ->
        exists e, compare OpInRange response when = (false, Some e))
  /\ (forall operator i j,
        operator = OpGt \/ operator = OpGreaterThan ->
        strconv.ParseInt response = Some i ->
        strconv.ParseInt when = Some j ->
        Z.abs i < 2 ^ 53 -> Z.abs j < 2 ^ 53 ->
        compare operator response when = (j <? i, None))
  /\ (forall lo hi l h i,
        when = lo +:+ String "-" hi ->
        strings.CountByte lo "-" = 0%nat ->
        strings.CountByte hi "-" = 0%nat ->
        strconv.ParseInt (TrimSpace lo) = Some l ->
        strconv.ParseInt (TrimSpace hi) = Some h ->
        strconv.ParseInt response = Some i ->
        Z.abs l < 2 ^ 53 -> Z.abs h < 2 ^ 53 -> Z.abs i < 2 ^ 53 ->
        compare OpInRange response when = ((l <=? i) && (i <=? h), None)).
Proof.
  assert (Hint : forall s i, strconv.ParseInt s = Some i ->
                   parseNumber s = (float64_of_int i, None)).
  { intros s i Hi. unfold taskengine.parseNumber. now rewrite Hi. }
  repeat split.
  - intros s i Hi. unfold taskengine.parseNumber. now rewrite Hi.
  - intros s Hs. unfold taskengine.parseNumber. now rewrite Hs.
  - destruct H as [-> | ->]; [rewrite compare_gt|rewrite compare_greater_than];
      now apply compareNumbers_ok.
  - intros ->.
    destruct H as [-> | ->]; [rewrite compare_gt|rewrite compare_greater_than];
      rewrite (compareNumbers_ok _ _ _ _ _ H0 H1), f64_gt_irrefl; reflexivity.
  - destruct H as [-> | ->]; [rewrite compare_lt|rewrite compare_less_than];
      now apply compareNumbers_ok.
  - intros ->.
    destruct H as [-> | ->]; [rewrite compare_lt|rewrite compare_less_than];
      rewrite (compareNumbers_ok _ _ _ _ _ H0 H1), f64_lt_irrefl; reflexivity.
  - intros operator rel x e Hrel Hx.
    rewrite (compare_numericRelation _ _ _ _ Hrel).
    now apply compareNumbers_response_error with x.
  - intros operator rel x y e Hrel Hx Hy.
    rewrite (compare_numericRelation _ _ _ _ Hrel).
    now apply compareNumbers_when_error with x y.
  - rewrite compare_in_range, H, (Split_join lo hi "-" H0 H1), H2, H3, H4.
    reflexivity.
  - intros -> Hnan Hle.
    rewrite compare_in_range, H, (Split_join lo hi "-" H0 H1), H2, H3, H4.
    now rewrite (f64_le_refl l Hnan), Hle.
  - intros -> Hnan Hle.
    rewrite compare_in_range, H, (Split_join lo hi "-" H0 H1), H2, H3, H4.
    now rewrite (f64_le_refl h Hnan), Hle.
  - intros lo hi -> Hlo Hhi Hfail.
    rewrite compare_in_range, (Split_join lo hi "-" Hlo Hhi).
    destruct (parseNumber (TrimSpace lo)) as [l [e|]]; [eauto|].
    destruct (parseNumber (TrimSpace hi)) as [h [e|]]; [eauto|].
    destruct (parseNumber response) as [x [e|]]; [eauto|].
    destruct Hfail as [(? & ? & [=]) | [(? & ? & [=]) | (? & ? & [=])]].
  - intros operator i j Hop Hi Hj Bi Bj.
    rewrite <- (f64_gt_of_int i j Bi Bj).
    destruct Hop as [-> | ->];
      [rewrite compare_gt|rewrite compare_greater_than];
      apply compareNumbers_ok; now apply Hint.
  - intros lo hi l h i -> Hlo Hhi Hl Hh Hi Bl Bh Bi.
    rewrite compare_in_range, (Split_join lo hi "-" Hlo Hhi).
    rewrite (Hint _ _ Hl), (Hint _ _ Hh), (Hint _ _ Hi).
    now rewrite (f64_le_of_int l i Bl Bi), (f64_le_of_int i h Bi Bh).
Qed.

(** C10. [in_range] gives an error whenever [when] does not split at
    [-] into exactly two pieces, which is whenever [-] does not occur
    exactly once in it; so it does for every [when] that starts with
    the sign of a negative lower bound, as [-5-10] does. *)
Theorem in_range_needs_two_parts (response when : string) :
  (List.length (strings.Split when "-") <> 2%nat ->
   compare OpInRange response when
   = (false, Some ("invalid between range format: " +:+ when)))
  /\ (List.length (strings.Split when "-") <> 2%nat
      <-> strings.CountByte when "-" <> 1%nat)
  /\ (forall lo hi,
        when = String "-" (lo +:+ String "-" hi) ->
        compare OpInRange response when
        = (false, Some ("invalid between range format: " +:+ when))).
Proof.
  assert (Hlen : List.length (strings.Split when "-") <> 2%nat ->
                 compare OpInRange response when
                 = (false, Some ("invalid between range format: " +:+ when))).
  { intros Hn. rewrite compare_in_range.
    destruct (strings.Split when "-") as [|p0 [|p1 [|p2 rest]]];
      try reflexivity.
    now contradiction Hn. }
  split; [exact Hlen|]. split.
  - rewrite Split_length. lia.
  - intros lo hi Hw. apply Hlen. rewrite Split_length. subst when.
    change (String "-" (lo +:+ String "-" hi))
      with (String "-" EmptyString +:+ (lo +:+ (String "-" EmptyString +:+ hi))).
    rewrite !CountByte_app. simpl. lia.
Qed.

End CompareProperties.

(** The integers [9007199254740993] and [9007199254740992], above
    [2 ^ 53], are one float: [>] and [greater_than] do not tell the
    first greater than the second, and [in_range] takes the first to be
    within a range that ends at the second. *)
Lemma compare_rounds_large_integers :
  9007199254740993 > 9007199254740992
  /\ (forall ParseFloat TrimSpace,
        compare ParseFloat TrimSpace ">"
                "9007199254740993" "9007199254740992" = (false, None)
        /\ compare ParseFloat TrimSpace "greater_than"
                   "9007199254740993" "9007199254740992" = (false, None))
  /\ ~ (0 <= 9007199254740993 <= 9007199254740992)
  /\ compare' "in_range" "9007199254740993" "0-9007199254740992"
     = (true, None).
Proof.
  split; [lia|]. split; [|split; [lia|vm_compute; reflexivity]].
  intros ParseFloat TrimSpace. split; vm_compute; reflexivity.
Qed.

(** [73 > 50] holds and [50 > 50] does not; [11] and [50] are both in
    the range [11-50]; [5x] is no number; [-7 > -8] as integers. *)
Lemma compare_numeric_operators_witness :
  compare' ">" "73" "50" = (true, None)
  /\ compare' "greater_than" "50" "50" = (false, None)
  /\ compare' "in_range" "11" "11-50" = (true, None)
  /\ compare' "in_range" "50" "11-50" = (true, None)
  /\ compare' "<" "5x" "50"
     = (false, snd (decimal.ParseFloat "5x"))
  /\ compare' ">" "-7" "-8" = (-8 <? -7, None).
Proof.
  pose proof (compare_numeric_operators decimal.ParseFloat
                ascii_space.TrimSpace "-7" "-8")
    as (_ & _ & _ & _ & _ & _ & _ & _ & Hint & _).
  pose proof (compare_numeric_operators decimal.ParseFloat
                ascii_space.TrimSpace "73" "50") as (_ & _ & Hgt & _).
  pose proof (compare_numeric_operators decimal.ParseFloat
                ascii_space.TrimSpace "50" "50") as (_ & _ & Heq & _).
  pose proof (compare_numeric_operators decimal.ParseFloat
                ascii_space.TrimSpace "11" "11-50")
    as (_ & _ & _ & _ & _ & _ & Hlo & _).
  pose proof (compare_numeric_operators decimal.ParseFloat
                ascii_space.TrimSpace "50" "11-50")
    as (_ & _ & _ & _ & _ & _ & Hhi & _).
  pose proof (compare_numeric_operators decimal.ParseFloat
                ascii_space.TrimSpace "5x" "50")
    as (_ & _ & _ & _ & Herr & _).
  split; [|split; [|split; [|split; [|split]]]].
  - exact (proj1 (Hgt OpGt (float64_of_int 73) (float64_of_int 50)
                      (or_introl eq_refl) eq_refl eq_refl)).
  - exact (proj2 (Heq OpGreaterThan (float64_of_int 50) (float64_of_int 50)
                      (or_intror eq_refl) eq_refl eq_refl) eq_refl).
  - refine (proj1 (proj2 (Hlo "11" "50" (float64_of_int 11) (float64_of_int 50)
                             (float64_of_int 11)
                             eq_refl eq_refl eq_refl eq_refl eq_refl eq_refl))
                  eq_refl _ eq_refl).
    discriminate.
  - refine (proj2 (proj2 (Hhi "11" "50" (float64_of_int 11) (float64_of_int 50)
                             (float64_of_int 50)
                             eq_refl eq_refl eq_refl eq_refl eq_refl eq_refl))
                  eq_refl _ eq_refl).
    discriminate.
  - exact (Herr OpLt f64_lt (fst (decimal.ParseFloat "5x"))
                (String.append "strconv.ParseFloat: parsing "
                   (String.append (quote "5x") ": invalid syntax"))
                eq_refl eq_refl).
  - refine (Hint OpGt (-7) (-8) (or_introl eq_refl) eq_refl eq_refl _ _);
      simpl; lia.
Defined.

(** [-5-10] and [5] split into three pieces and one. *)
Lemma in_range_needs_two_parts_witness :
  compare' "in_range" "7" "-5-10"
  = (false, Some "invalid between range format: -5-10")
  /\ compare' "in_range" "7" "5"
     = (false, Some "invalid between range format: 5").
Proof.
  split.
  - exact (proj2 (proj2 (in_range_needs_two_parts decimal.ParseFloat
                           ascii_space.TrimSpace "7" "-5-10"))
                 "5" "10" eq_refl).
  - refine (proj1 (in_range_needs_two_parts decimal.ParseFloat
                     ascii_space.TrimSpace "7" "5") _).
    simpl. lia.
Defined.

(** ** [evaluateTransitions] *)

Section TransitionProperties.

Variable ParseFloat : string -> float64 * error.
Variable TrimSpace : string -> string.

Local Abbreviation compare := (compare ParseFloat TrimSpace).
Local Abbreviation explicitMatch := (explicitMatch ParseFloat TrimSpace).
Local Abbreviation evaluateTransitions :=
  (evaluateTransitions ParseFloat TrimSpace).
Local Abbreviation branchMatches := (branchMatches ParseFloat TrimSpace).
Local Abbreviation branchFails := (branchFails ParseFloat TrimSpace).
Local Abbreviation branchQuiet := (branchQuiet ParseFloat TrimSpace).

(** An error of [compare] comes with [false]. *)
Lemma compare_error_false operator response when e :
  snd (compare operator response when) = Some e ->
  fst (compare operator response when) = false.
Proof.
  unfold taskengine.compare, compareNumbers.
  repeat match goal with
         | |- context [if ?b then _ else _] => destruct b
         | |- context [let '(_, _) := ?p in _] => destruct p
         | |- context [match ?x with _ => _ end] => destruct x
         end; simpl; congruence.
Qed.

Lemma branchMatches_not_fails eval ct :
  branchMatches eval ct = true -> branchFails eval ct = false.
Proof.
  unfold words.branchMatches, words.branchFails.
  destruct (isDefault ct); simpl; [discriminate|]. intros Hm.
  destruct (snd (compare (Operator ct) eval (When ct))) as [e|] eqn:He;
    [|reflexivity].
  apply compare_error_false in He. congruence.
Qed.

(** The first loop passes over quiet branches. *)
Lemma explicitMatch_quiet eval pre rest :
  Forall (fun ct => branchQuiet eval ct = true) pre ->
  explicitMatch (pre ++ rest)%list eval = explicitMatch rest eval.
Proof.
  induction 1 as [|ct pre Hq _ IH]; [reflexivity|].
  simpl. unfold words.branchQuiet, words.branchMatches,
    words.branchFails, isDefault in Hq.
  destruct (String.eqb (Operator ct) OpDefault); [exact IH|].
  destruct (compare (Operator ct) eval (When ct)) as [[|] [e|]];
    simpl in Hq; try discriminate. exact IH.
Qed.

Lemma explicitMatch_all_quiet eval branches :
  Forall (fun ct => branchQuiet eval ct = true) branches ->
  explicitMatch branches eval = None.
Proof.
  intros H. rewrite <- (app_nil_r branches).
  now rewrite (explicitMatch_quiet eval branches [] H).
Qed.

(** The second loop finds the first default branch. *)
Lemma defaultMatch_find branches :
  defaultMatch branches
  = match List.find isDefault branches with
    | Some ct => Some (Goto ct, None)
    | None => None
    end.
Proof.
  induction branches as [|ct rest IH]; [reflexivity|].
  simpl. unfold isDefault at 1.
  change (String.eqb (Operator ct) "default")
    with (String.eqb (Operator ct) OpDefault).
  destruct (String.eqb (Operator ct) OpDefault); [reflexivity|exact IH].
Qed.

(** C3, as amended. The branches that are not default ones are
    compared in declared order. The first on which [compare] returns
    true gives its goto, if [compare] raised no error on a branch
    before it; if [compare] raises an error on a branch before any has
    matched, that error is returned, with an empty goto. When no branch
    matches and none raises an error, the goto of the first default
    branch is returned, wherever it stands, and the error [no matching
    transition found] when there is no default branch. *)
Theorem evaluateTransitions_first_decisive
    (transition : TaskTransition) (eval : string) :
  (forall pre ct post,
     Branches transition = (pre ++ ct :: post)%list ->
     Forall (fun b => branchQuiet eval b = true) pre ->
     branchMatches eval ct = true ->
     evaluateTransitions transition eval = (Goto ct, None))
  /\ (forall pre ct post,
        Branches transition = (pre ++ ct :: post)%list ->
        Forall (fun b => branchQuiet eval b = true) pre ->
        branchFails eval ct = true ->
        exists e,
          compare (Operator ct) eval (When ct) = (false, Some e)
          /\ evaluateTransitions transition eval = ("", Some e))
  /\ (Forall (fun b => branchQuiet eval b = true) (Branches transition) ->
      evaluateTransitions transition eval
      = match List.find isDefault (Branches transition) with
        | Some ct => (Goto ct, None)
        | None => ("", Some "no matching transition found")
        end).
Proof.
  split; [|split].
  - intros pre ct post Hb Hpre Hm.
    unfold taskengine.evaluateTransitions.
    rewrite Hb, (explicitMatch_quiet eval pre (ct :: post) Hpre). simpl.
    pose proof (branchMatches_not_fails eval ct Hm) as Hf.
    unfold words.branchMatches, words.branchFails, isDefault in Hm, Hf.
    destruct (String.eqb (Operator ct) OpDefault); [discriminate|].
    destruct (compare (Operator ct) eval (When ct)) as [m [e|]];
      simpl in *; [discriminate|]. now rewrite Hm.
  - intros pre ct post Hb Hpre Hf.
    unfold taskengine.evaluateTransitions.
    rewrite Hb, (explicitMatch_quiet eval pre (ct :: post) Hpre). simpl.
    unfold words.branchFails, isDefault in Hf.
    destruct (String.eqb (Operator ct) OpDefault); [discriminate|].
    destruct (compare (Operator ct) eval (When ct)) as [m [e|]] eqn:Hc;
      simpl in Hf; [|discriminate].
    exists e. split; [|reflexivity].
    pose proof (compare_error_false (Operator ct) eval (When ct) e) as Hfalse.
    rewrite Hc in Hfalse. simpl in Hfalse. now rewrite (Hfalse eq_refl).
  - intros Hall. unfold taskengine.evaluateTransitions.
    rewrite (explicitMatch_all_quiet eval _ Hall), defaultMatch_find.
    destruct (List.find isDefault (Branches transition)); reflexivity.
Qed.

(** Where [compare] raises no error at all, [evaluateTransitions] is
    the evaluation of the specification. *)
Lemma evaluateTransitions_refines_spec transition eval :
  Forall (fun b => branchFails eval b = false) (Branches transition) ->
  evaluateTransitions transition eval
  = evaluateTransitions_spec ParseFloat TrimSpace transition eval.
Proof.
  unfold taskengine.evaluateTransitions, evaluateTransitions_spec.
  rewrite defaultMatch_find.
  generalize (List.find isDefault (Branches transition)) as dflt.
  induction (Branches transition) as [|ct rest IH]; intros dflt Hall.
  - simpl. destruct dflt; reflexivity.
  - inversion Hall as [|? ? Hf Hrest]; subst. simpl.
    unfold words.branchMatches, words.branchFails, isDefault in *.
    destruct (String.eqb (Operator ct) OpDefault); simpl; [now apply IH|].
    destruct (compare (Operator ct) eval (When ct)) as [m [e|]];
      simpl in *; [discriminate|].
    destruct m; [reflexivity|now apply IH].
Qed.

End TransitionProperties.

(** The second branch matches; [evaluateTransitions] has left at the
    first one, with the error of [compare] on an operator it does not
    know; and so it does where the specification's words give the default
    branch, or the error [no matching transition found]. *)
Lemma evaluateTransitions_error_before_match :
  let t1 := regexThen [branch "equals" "hi" "b"] in
  let t2 := regexThen [branch "default" "" "c"] in
  let t3 := regexThen [] in
  evaluateTransitions_spec decimal.ParseFloat ascii_space.TrimSpace t1 "hi"
  = ("b", None)
  /\ evaluateTransitions' t1 "hi" = ("", Some "unsupported operator: regex")
  /\ evaluateTransitions_spec decimal.ParseFloat ascii_space.TrimSpace t2 "hi"
     = ("c", None)
  /\ evaluateTransitions' t2 "hi" = ("", Some "unsupported operator: regex")
  /\ evaluateTransitions_spec decimal.ParseFloat ascii_space.TrimSpace t3 "hi"
     = ("", Some "no matching transition found")
  /\ evaluateTransitions' t3 "hi" = ("", Some "unsupported operator: regex").
Proof. repeat split; vm_compute; reflexivity. Qed.

(** A default branch at the head does not hide the match behind it; an
    unknown operator ends the evaluation; without a match the default
    branch decides. *)
Lemma evaluateTransitions_first_decisive_witness :
  evaluateTransitions' lowHigh "73" = ("high", None)
  /\ (exists e,
        compare' "regex" "hi" "h.*" = (false, Some e)
        /\ evaluateTransitions' (regexThen [branch "equals" "hi" "b"]) "hi"
           = ("", Some e))
  /\ evaluateTransitions' lowHigh "42" = ("low", None).
Proof.
  split; [|split].
  - refine (proj1 (evaluateTransitions_first_decisive decimal.ParseFloat
                     ascii_space.TrimSpace lowHigh "73")
                  [branch "default" "" "low"] (branch ">" "50" "high") []
                  eq_refl _ eq_refl).
    repeat constructor.
  - refine (proj1 (proj2 (evaluateTransitions_first_decisive decimal.ParseFloat
                            ascii_space.TrimSpace
                            (regexThen [branch "equals" "hi" "b"]) "hi"))
                  [] (branch "regex" "h.*" "a") [branch "equals" "hi" "b"]
                  eq_refl _ eq_refl).
    constructor.
  - refine (proj2 (proj2 (evaluateTransitions_first_decisive decimal.ParseFloat
                            ascii_space.TrimSpace lowHigh "42")) _).
    repeat constructor.
Defined.

(** ** [findTaskByID] and [validateChain] *)

(** [findTaskByID] gives a task of the list with the id, or the error. *)
Lemma findTaskByID_cases (tasks : list ChainTask) (id : string) :
  (exists t, findTaskByID tasks id = (Some t, None) /\ In t tasks /\ ID t = id)
  \/ (findTaskByID tasks id = (None, Some ("task not found: " +:+ id))
      /\ Forall (fun t => ID t <> id) tasks).
Proof.
  induction tasks as [|t rest IH]; simpl.
  - right. split; [reflexivity|constructor].
  - destruct (String.eqb (ID t) id) eqn:E.
    + apply String.eqb_eq in E. left. exists t. auto.
    + apply String.eqb_neq in E.
      destruct IH as [(t' & -> & Hin & Hid) | (-> & Hall)].
      * left. exists t'. auto.
      * right. split; [reflexivity|]. now constructor.
Qed.

Lemma validateIDs_rejects_iff (tasks : list ChainTask) :
  validateIDs tasks <> None
  <-> Exists (fun t => ID t = "" \/ ID t = TermEnd) tasks.
Proof.
  induction tasks as [|t rest IH]; simpl.
  - split; [congruence|]. intros H. inversion H.
  - destruct (String.eqb (ID t) "") eqn:E1;
      [apply String.eqb_eq in E1|apply String.eqb_neq in E1]; simpl.
    + split; [intros _; left; auto|discriminate].
    + destruct (String.eqb (ID t) TermEnd) eqn:E2;
        [apply String.eqb_eq in E2|apply String.eqb_neq in E2].
      * split; [intros _; left; auto|discriminate].
      * rewrite IH. split; [intros H; now right|].
        intros H. inversion H as [? ? [?|?]|]; subst; [contradiction..|assumption].
Qed.

(** [validateChain] rejects the empty list and the lists with an empty
    id or the id [end], and no other. *)
Lemma validateChain_rejects_iff_ids (tasks : list ChainTask) :
  validateChain tasks <> None
  <-> tasks = [] \/ Exists (fun t => ID t = "" \/ ID t = TermEnd) tasks.
Proof.
  unfold validateChain. destruct tasks as [|t rest].
  - simpl. split; [auto|discriminate].
  - change (List.length (t :: rest) =? 0)%nat with false. cbv iota.
    rewrite validateIDs_rejects_iff. split; [auto|].
    intros [H|H]; [discriminate|assumption].
Qed.

Lemma string_length_zero (s : string) :
  (0 <? String.length s)%nat = false <-> s = "".
Proof.
  destruct s; simpl; split; intros H; try reflexivity; discriminate.
Qed.

(** ** The engine *)

Section EngineProperties.

Variable ParseFloat : string -> float64 * error.
Variable TrimSpace : string -> string.
Variable TextTemplate : Type.
Variable template_Parse : string -> TextTemplate + string.
Variable template_Execute : TextTemplate -> gmap string any -> string + string.
Variable ParseDuration : string -> Z + string.
Variable Policy : Type.
Variable Randomly : Policy.
Variable PolicyFromString : string -> Policy * error.

Local Abbreviation attemptContext := (attemptContext ParseDuration).
Local Abbreviation attempt := (attempt ParseDuration Policy).
Local Abbreviation retryLoop := (retryLoop ParseDuration Policy).
Local Abbreviation renderTemplate :=
  (renderTemplate TextTemplate template_Parse template_Execute).
Local Abbreviation renderPrompt :=
  (renderPrompt TextTemplate template_Parse template_Execute).
Local Abbreviation printStatement :=
  (printStatement TextTemplate template_Parse template_Execute).
Local Abbreviation afterAttempts :=
  (afterAttempts ParseFloat TrimSpace TextTemplate template_Parse
                 template_Execute).
Local Abbreviation visit :=
  (visit ParseFloat TrimSpace TextTemplate template_Parse template_Execute
         ParseDuration Policy).
Local Abbreviation mainLoop :=
  (mainLoop ParseFloat TrimSpace TextTemplate template_Parse template_Execute
            ParseDuration Policy).
Local Abbreviation prepare := (prepare Policy Randomly PolicyFromString).
Local Abbreviation ExecEnv :=
  (ExecEnv ParseFloat TrimSpace TextTemplate template_Parse template_Execute
           ParseDuration Policy Randomly PolicyFromString).

Section Preparation.

Context {S : Type} {exec : TaskExecutor S Policy}.

(** The context of an attempt leaves the executor and the events as
    they are. *)
Lemma attemptContext_inr task (w w0 : World S) ctx :
  attemptContext task w = inr (ctx, w0) ->
  executor w0 = executor w /\ events w0 = events w.
Proof.
  unfold taskengine.attemptContext.
  destruct (String.eqb (Timeout task) ""); [intros [= <- <-]; auto|].
  destruct (ParseDuration (Timeout task)); [|discriminate].
  intros [= <- <-]. auto.
Qed.

(** An attempt that does not return from [ExecEnv] calls the
    executor once on the output so far, with the resolver, and is
    tracked by two events. *)
Lemma attempt_inr resolver retry l (w : World S) l' w' :
  attempt resolver retry l w = inr (l', w') ->
  exists ctx,
    TaskExec (executor w) ctx resolver (currentTask l)
             (output l) (outputType l)
    = ((output l', outputType l', transitionEval l', taskErr l'),
       executor w')
    /\ currentTask l' = currentTask l
    /\ vars l' = vars l
    /\ events w'
       = (events w
          ++ [TrackerStart "task_attempt" (ID (currentTask l))
                [AnyString "retry"; AnyInt retry; AnyString "task_type";
                 AnyString (TaskType (currentTask l))];
              match taskErr l' with
              | Some e =>
                  TrackerReportErr "task_attempt" (ID (currentTask l)) e
              | None =>
                  TrackerReportChange "task_attempt" (ID (currentTask l))
                    (ID (currentTask l)) (output l')
              end])%list.
Proof.
  unfold taskengine.attempt.
  destruct (attemptContext (currentTask l) w) as [e|[ctx w0]] eqn:Hctx;
    [discriminate|].
  destruct (attemptContext_inr _ _ _ _ Hctx) as [Hex Hev].
  simpl. rewrite Hex, Hev.
  destruct (TaskExec (executor w) ctx resolver (currentTask l)
                     (output l) (outputType l))
    as [[[[out ot] ev] err] s'] eqn:Hexec.
  intros Hl. exists ctx.
  destruct err as [e|]; injection Hl as <- <-; simpl;
    rewrite <- app_assoc; auto.
Qed.

(** An attempt returns from [ExecEnv] only for a timeout that does
    not parse. *)
Lemma attempt_inl resolver retry l (w : World S) r :
  attempt resolver retry l w = inl r ->
  Timeout (currentTask l) <> ""
  /\ exists e,
       ParseDuration (Timeout (currentTask l)) = inr e
       /\ r = (AnyNil, Some ("task " +:+ ID (currentTask l)
                             +:+ ": invalid timeout: " +:+ e)).
Proof.
  unfold taskengine.attempt, taskengine.attemptContext.
  destruct (String.eqb (Timeout (currentTask l)) "") eqn:E.
  - simpl. destruct (TaskExec _ _ _ _ _ _) as [[[[out ot] ev] [e|]] s'];
      discriminate.
  - apply String.eqb_neq in E.
    destruct (ParseDuration (Timeout (currentTask l))) as [d|e].
    + simpl. destruct (TaskExec _ _ _ _ _ _) as [[[[out ot] ev] [e|]] s'];
        discriminate.
    + intros [= <-]. split; [assumption|]. exists e. split; [reflexivity|].
      reflexivity.
Qed.

Lemma prepare_no_strategy chain :
  RoutingStrategy chain = "" ->
  prepare chain
  = match validateChain (Tasks chain) with
    | Some e => inl (AnyNil, Some e)
    | None =>
        match Tasks chain with
        | [] => inl (AnyNil, Some "index out of range")
        | first :: _ =>
            match findTaskByID (Tasks chain) (ID first) with
            | (Some task, None) => inr (Randomly, task)
            | (_, err) => inl (AnyNil, err)
            end
        end
    end.
Proof. intros H. unfold taskengine.prepare. now rewrite H. Qed.

Lemma prepare_strategy_error chain p e :
  RoutingStrategy chain <> "" ->
  PolicyFromString (RoutingStrategy chain) = (p, Some e) ->
  prepare chain = inl (AnyNil, Some e).
Proof.
  intros Hne Hp. unfold taskengine.prepare.
  destruct (0 <? String.length (RoutingStrategy chain))%nat eqn:E.
  - now rewrite Hp.
  - apply string_length_zero in E. contradiction.
Qed.

Lemma prepare_strategy_ok chain p :
  RoutingStrategy chain <> "" ->
  PolicyFromString (RoutingStrategy chain) = (p, None) ->
  prepare chain
  = match validateChain (Tasks chain) with
    | Some e => inl (AnyNil, Some e)
    | None =>
        match Tasks chain with
        | [] => inl (AnyNil, Some "index out of range")
        | first :: _ =>
            match findTaskByID (Tasks chain) (ID first) with
            | (Some task, None) => inr (p, task)
            | (_, err) => inl (AnyNil, err)
            end
        end
    end.
Proof.
  intros Hne Hp. unfold taskengine.prepare.
  destruct (0 <? String.length (RoutingStrategy chain))%nat eqn:E.
  - now rewrite Hp.
  - apply string_length_zero in E. contradiction.
Qed.

(** A chain that passes the validation has an entry task, the first
    of its list. *)
Lemma prepare_entry chain resolver task :
  prepare chain = inr (resolver, task) ->
  validateChain (Tasks chain) = None
  /\ exists rest, Tasks chain = task :: rest.
Proof.
  unfold taskengine.prepare.
  destruct (if (0 <? String.length (RoutingStrategy chain))%nat
            then _ else _) as [r|res]; [discriminate|].
  destruct (validateChain (Tasks chain)); [discriminate|].
  destruct (Tasks chain) as [|first rest]; [discriminate|].
  simpl. rewrite String.eqb_refl. intros [= <- <-]. eauto.
Qed.

(** C2, as amended. [validateChain], which [ExecEnv] runs before it
    executes a task, rejects a chain exactly when the task list is
    empty or a task id is the empty string or [end]; [ExecEnv] then
    returns its error without an event and without a call of the
    executor. Neither unique ids nor the targets of gotos are looked
    at. *)
Theorem validateChain_rejects_iff (chain : ChainDefinition) :
  (validateChain (Tasks chain) <> None
   <-> Tasks chain = []
       \/ Exists (fun t => ID t = "" \/ ID t = TermEnd) (Tasks chain))
  /\ (forall e fuel input dataType (w : World S),
        validateChain (Tasks chain) = Some e ->
        RoutingStrategy chain = ""
        \/ snd (PolicyFromString (RoutingStrategy chain)) = None ->
        ExecEnv fuel chain input dataType w
        = (Some (AnyNil, Some e), mkWorld (executor w) (events w) [])).
Proof.
  split; [apply validateChain_rejects_iff_ids|].
  intros e fuel input dataType w Hv Hs.
  unfold taskengine.ExecEnv.
  assert (Hp : prepare chain = inl (AnyNil, Some e)).
  { destruct (String.eqb (RoutingStrategy chain) "") eqn:E.
    - apply String.eqb_eq in E. rewrite (prepare_no_strategy chain E).
      now rewrite Hv.
    - apply String.eqb_neq in E. destruct Hs as [Hs|Hs]; [contradiction|].
      destruct (PolicyFromString (RoutingStrategy chain)) as [p err] eqn:Hp.
      simpl in Hs. subst err.
      rewrite (prepare_strategy_ok chain p E Hp). now rewrite Hv. }
  rewrite Hp. unfold runDeferred. simpl. now rewrite app_nil_r.
Qed.

(** The print statement writes one line, to the standard output. *)
Lemma printStatement_inr task vars (w w' : World S) :
  printStatement task vars w = inr w' ->
  executor w' = executor w
  /\ deferred w' = deferred w
  /\ ((Print task = "" /\ w' = w)
      \/ (Print task <> ""
          /\ exists msg,
               renderTemplate (Print task) vars = (msg, None)
               /\ events w' = (events w ++ [Stdout msg])%list)).
Proof.
  unfold taskengine.printStatement.
  destruct (String.eqb (Print task) "") eqn:E; simpl.
  - apply String.eqb_eq in E. intros [= <-]. auto.
  - apply String.eqb_neq in E.
    destruct (renderTemplate (Print task) vars) as [msg [e|]];
      [discriminate|].
    intros [= <-]. simpl. repeat split. right. eauto.
Qed.

(** What follows the attempts does not call the executor. *)
Lemma afterAttempts_executor tasks maxRetries l (w : World S) :
  executor (snd (afterAttempts tasks maxRetries l w)) = executor w.
Proof.
  unfold taskengine.afterAttempts, complete.
  destruct (taskErr l) as [e|].
  - destruct (negb _); [|reflexivity].
    destruct (findTaskByID tasks _) as [[t|] [err|]]; reflexivity.
  - destruct (printStatement (currentTask l) (updateVars l) w)
      as [r|w'] eqn:Hp; [reflexivity|].
    destruct (printStatement_inr _ _ _ _ Hp) as (He & _).
    destruct (evaluateTransitions _ _ _ _) as [next [err|]]; [exact He|].
    destruct (_ || _); [exact He|].
    destruct (findTaskByID tasks next) as [[t|] [err|]]; exact He.
Qed.

End Preparation.

(** *** The resolver handed to the executor *)

Section Spy.

Context {S : Type} (exec : TaskExecutor S Policy).

Local Abbreviation spied := (S * list Policy)%type.
Local Abbreviation retryLoopSpy :=
  (@taskengine.retryLoop ParseDuration Policy spied (spy exec)).
Local Abbreviation visitSpy :=
  (@taskengine.visit ParseFloat TrimSpace TextTemplate template_Parse
     template_Execute ParseDuration Policy spied (spy exec)).
Local Abbreviation mainLoopSpy :=
  (@taskengine.mainLoop ParseFloat TrimSpace TextTemplate template_Parse
     template_Execute ParseDuration Policy spied (spy exec)).
Local Abbreviation ExecEnvSpy :=
  (@taskengine.ExecEnv ParseFloat TrimSpace TextTemplate template_Parse
     template_Execute ParseDuration Policy Randomly PolicyFromString
     spied (spy exec)).

Lemma noted_refl (resolver : Policy) (w : World spied) :
  noted resolver w w.
Proof. exists 0%nat. simpl. now rewrite app_nil_r. Qed.

Lemma noted_trans (resolver : Policy) (w1 w2 w3 : World spied) :
  noted resolver w1 w2 -> noted resolver w2 w3 -> noted resolver w1 w3.
Proof.
  intros [n Hn] [m Hm]. exists (n + m)%nat.
  now rewrite Hm, Hn, repeat_app, app_assoc.
Qed.

Lemma retryLoop_noted fuel resolver maxRetries :
  forall retry l w,
    noted resolver w (snd (retryLoopSpy fuel resolver maxRetries retry l w)).
Proof.
  induction fuel as [|fuel IH]; intros retry l w; simpl.
  - destruct (negb (retry <=? maxRetries)); apply noted_refl.
  - destruct (negb (retry <=? maxRetries)); [apply noted_refl|].
    destruct (taskengine.attempt ParseDuration Policy resolver retry l w)
      as [r|[l' w']] eqn:Ha; [apply noted_refl|].
    destruct (@attempt_inr spied (spy exec) _ _ _ _ _ _ Ha)
      as (ctx & Hexec & _).
    assert (Hstep : noted resolver w w').
    { exists 1%nat. simpl in Hexec.
      destruct (TaskExec (fst (executor w)) ctx resolver (currentTask l)
                         (output l) (outputType l)) as [res s'].
      injection Hexec as _ <-. reflexivity. }
    destruct (taskErr l'); [|exact Hstep].
    eapply noted_trans; [exact Hstep|apply IH].
Qed.

Lemma visit_noted fuel resolver tasks l w :
  noted resolver w (snd (visitSpy fuel resolver tasks l w)).
Proof.
  unfold taskengine.visit.
  destruct (taskengine.renderPrompt _ _ _ l) as [r|l0]; [apply noted_refl|].
  pose proof (retryLoop_noted fuel resolver
                (Z.max (RetryOnFailure (currentTask l0)) 0) 0 l0 w) as Hn.
  destruct (retryLoopSpy fuel resolver _ 0 l0 w) as [[[r|l1]|] w1];
    simpl in *; try exact Hn.
  pose proof (@afterAttempts_executor spied tasks
                (Z.max (RetryOnFailure (currentTask l0)) 0) l1 w1) as He.
  destruct (taskengine.afterAttempts _ _ _ _ _ tasks _ l1 w1) as [flow w2].
  simpl in *. destruct Hn as [n Hn]. exists n. now rewrite He.
Qed.

Lemma mainLoop_noted fuel resolver tasks :
  forall l w, noted resolver w (snd (mainLoopSpy fuel resolver tasks l w)).
Proof.
  induction fuel as [|fuel IH]; intros l w; [apply noted_refl|].
  cbn [taskengine.mainLoop].
  pose proof (visit_noted (Datatypes.S fuel) resolver tasks l w) as Hv.
  destruct (visitSpy (Datatypes.S fuel) resolver tasks l w)
    as [[[r|l1]|] w1]; simpl in *; try exact Hv.
  eapply noted_trans; [exact Hv|apply IH].
Qed.


End Spy.

Section AfterAttempts.

Context {S : Type} {exec : TaskExecutor S Policy}.

(** C8. When the transition of a task that has succeeded evaluates
    to the empty string, or to [end], the chain ends there: the run
    returns the output of the task without an error, the same in both
    cases, and the final output is tracked by a [chain_complete]
    event. *)
Theorem empty_goto_completes fuel resolver tasks l l0 l1
    (w w1 wp : World S) next :
  renderPrompt l = inr l0 ->
  retryLoop (Datatypes.S fuel) resolver
            (Z.max (RetryOnFailure (currentTask l0)) 0) 0 l0 w
  = (Some (Next l1), w1) ->
  taskErr l1 = None ->
  printStatement (currentTask l1) (updateVars l1) w1 = inr wp ->
  evaluateTransitions ParseFloat TrimSpace (Transition (currentTask l1))
                      (transitionEval l1) = (next, None) ->
  next = "" \/ next = TermEnd ->
  afterAttempts tasks (Z.max (RetryOnFailure (currentTask l0)) 0) l1 w1
  = (Return (output l1, None), complete (output l1) wp)
  /\ mainLoop (Datatypes.S fuel) resolver tasks l w
     = (Some (output l1, None), complete (output l1) wp)
  /\ events (complete (output l1) wp)
     = (events wp
        ++ [TrackerStart "chain_complete" "chain"
              [AnyString "final_output"; output l1];
            TrackerReportChange "chain_complete" "chain" "chain"
              (output l1)])%list.
Proof.
  intros Hr Hl Herr Hp Hev Hnext.
  assert (Ha : afterAttempts tasks
                 (Z.max (RetryOnFailure (currentTask l0)) 0) l1 w1
               = (Return (output l1, None), complete (output l1) wp)).
  { unfold taskengine.afterAttempts. rewrite Herr, Hp, Hev.
    destruct Hnext as [-> | ->]; reflexivity. }
  split; [exact Ha|]. split.
  - cbn [taskengine.mainLoop]. unfold taskengine.visit.
    rewrite Hr, Hl, Ha. reflexivity.
  - unfold complete. simpl. now rewrite <- app_assoc.
Qed.

(** C6, as amended. After a task has succeeded, a print template
    that is not empty is rendered against the variables, with the
    output of the task under [previous_output] and under the id of
    the task, and the result is written as a line to the standard
    output; no tracker event is made of it: the events that follow
    are those of the transition. A template that does not render
    ends the run. *)
Theorem print_goes_to_stdout tasks maxRetries l (w : World S) :
  taskErr l = None ->
  Print (currentTask l) <> "" ->
  (forall msg,
     renderTemplate (Print (currentTask l)) (updateVars l) = (msg, None) ->
     printStatement (currentTask l) (updateVars l) w
     = inr (emit (Stdout msg) w)
     /\ exists rest,
          events (snd (afterAttempts tasks maxRetries l w))
          = (events w ++ Stdout msg :: rest)%list
          /\ forallb isTransitionEvent rest = true)
  /\ (forall msg e,
        renderTemplate (Print (currentTask l)) (updateVars l)
        = (msg, Some e) ->
        afterAttempts tasks maxRetries l w
        = (Return (AnyNil,
                   Some ("task " +:+ ID (currentTask l)
                         +:+ ": print template error: " +:+ e)), w)).
Proof.
  intros Herr Hprint. apply String.eqb_neq in Hprint.
  assert (Hps : forall msg,
             renderTemplate (Print (currentTask l)) (updateVars l)
             = (msg, None) ->
             printStatement (currentTask l) (updateVars l) w
             = inr (emit (Stdout msg) w)).
  { intros msg Hmsg. unfold taskengine.printStatement.
    now rewrite Hprint, Hmsg. }
  split.
  - intros msg Hmsg. split; [now apply Hps|].
    unfold taskengine.afterAttempts. rewrite Herr, (Hps msg Hmsg).
    destruct (evaluateTransitions _ _ _ _) as [next [e|]].
    + exists []. split; reflexivity.
    + destruct (_ || _).
      * eexists. split; [|shelve]. unfold complete. simpl.
        rewrite <- !app_assoc. reflexivity.
      * destruct (findTaskByID tasks next) as [[t|] [e|]]; simpl;
          (eexists; split; [rewrite <- !app_assoc; reflexivity|reflexivity]).
  - intros msg e Hmsg. unfold taskengine.afterAttempts, taskengine.printStatement.
    now rewrite Herr, Hprint, Hmsg.
  Unshelve. reflexivity.
Qed.

End AfterAttempts.

(** *** The attempt loop *)

Lemma wrap64_small (z : Z) : MinInt64 <= z <= MaxInt64 -> wrap64 z = z.
Proof.
  unfold wrap64, MinInt64, MaxInt64. intros H.
  rewrite Z.mod_small; lia.
Qed.

Lemma wrap64_range (z : Z) : MinInt64 <= wrap64 z <= MaxInt64.
Proof.
  unfold wrap64, MinInt64, MaxInt64.
  pose proof (Z.mod_pos_bound (z - -9223372036854775808) (2 ^ 64)
                ltac:(lia)) as H.
  change (2 ^ 64) with 18446744073709551616 in *. lia.
Qed.

Lemma attempts_app (a b : list Event) :
  attempts (a ++ b) = (attempts a + attempts b)%nat.
Proof. unfold attempts. now rewrite List.filter_app, length_app. Qed.

Section Bounded.

Context {S : Type} {exec : TaskExecutor S Policy}.

Lemma attempt_attempts resolver retry l (w : World S) l' w' :
  attempt resolver retry l w = inr (l', w') ->
  attempts (events w') = Datatypes.S (attempts (events w)).
Proof.
  intros Ha. destruct (attempt_inr _ _ _ _ _ _ Ha) as (ctx & _ & _ & _ & He).
  rewrite He, attempts_app. simpl. unfold attempts at 2. simpl.
  destruct (taskErr l'); simpl; lia.
Qed.

(** Below the largest [int] the attempt loop ends, after
    [maxRetries + 1] attempts at most. *)
Lemma retryLoop_bounded resolver maxRetries :
  maxRetries < MaxInt64 ->
  forall (n : nat) retry l (w : World S) fuel,
    0 <= retry ->
    maxRetries + 1 - retry <= Z.of_nat n ->
    (n <= fuel)%nat ->
    exists flow w',
      retryLoop fuel resolver maxRetries retry l w = (Some flow, w')
      /\ (attempts (events w') <= attempts (events w) + n)%nat.
Proof.
  intros Hmax. induction n as [|n IH]; intros retry l w fuel Hr Hn Hf.
  - exists (Next l), w.
    destruct fuel; simpl;
      (destruct (retry <=? maxRetries) eqn:E; [lia|]); simpl; split;
      try reflexivity; lia.
  - destruct fuel as [|fuel]; [lia|]. simpl.
    destruct (retry <=? maxRetries) eqn:E; simpl;
      [|exists (Next l), w; split; [reflexivity|lia]].
    apply Z.leb_le in E.
    destruct (attempt resolver retry l w) as [r|[l1 w1]] eqn:Ha.
    + exists (Return r), w. split; [reflexivity|lia].
    + pose proof (attempt_attempts _ _ _ _ _ _ Ha) as Hc.
      destruct (taskErr l1).
      * rewrite wrap64_small by (unfold MinInt64; lia).
        destruct (IH (retry + 1) l1 w1 fuel) as (flow & w' & -> & Hle);
          try lia.
        exists flow, w'. split; [reflexivity|lia].
      * exists (Next l1), w1. split; [reflexivity|lia].
Qed.

(** A negative retry count is clamped to zero: one attempt at most. *)
Lemma retryLoop_negative resolver l (w : World S) fuel :
  RetryOnFailure (currentTask l) < 0 ->
  exists flow w',
    retryLoop (Datatypes.S fuel) resolver
              (Z.max (RetryOnFailure (currentTask l)) 0) 0 l w
    = (Some flow, w')
    /\ (attempts (events w') <= attempts (events w) + 1)%nat.
Proof.
  intros Hneg. rewrite Z.max_r by lia.
  apply (retryLoop_bounded resolver 0 ltac:(unfold MaxInt64; lia) 1%nat);
    lia.
Qed.

End Bounded.

Section Failing.

Context {S : Type} {exec : TaskExecutor S Policy}.

(** The executor fails at every call from the states of [failing]. *)
Variable failing : S -> Prop.
Hypothesis failing_exec :
  forall s ctx resolver task input dataType,
    failing s ->
    exists out outType eval e s',
      TaskExec s ctx resolver task input dataType
      = ((out, outType, eval, Some e), s')
      /\ failing s'.

Lemma attempt_failing resolver retry l (w : World S) :
  failing (executor w) ->
  timeoutParses ParseDuration (currentTask l) ->
  exists l' w' e,
    attempt resolver retry l w = inr (l', w')
    /\ taskErr l' = Some e
    /\ currentTask l' = currentTask l
    /\ failing (executor w')
    /\ attempts (events w') = Datatypes.S (attempts (events w)).
Proof.
  intros Hf Ht.
  assert (Hctx : exists ctx w0,
             attemptContext (currentTask l) w = inr (ctx, w0)
             /\ executor w0 = executor w).
  { unfold taskengine.attemptContext. destruct Ht as [Ht|[d Hd]].
    - rewrite Ht. simpl. eauto.
    - destruct (String.eqb (Timeout (currentTask l)) ""); [eauto|].
      rewrite Hd. eauto. }
  destruct Hctx as (ctx & w0 & Hctx & Hex).
  destruct (failing_exec (executor w) ctx resolver (currentTask l)
              (output l) (outputType l) Hf)
    as (out & ot & ev & e & s' & Hexec & Hf').
  assert (Ha : exists l' w',
             attempt resolver retry l w = inr (l', w')
             /\ taskErr l' = Some e /\ currentTask l' = currentTask l
             /\ executor w' = s').
  { unfold taskengine.attempt. rewrite Hctx. simpl. rewrite Hex, Hexec.
    eexists _, _. repeat split. }
  destruct Ha as (l' & w' & Ha & He & Hc & Hs).
  exists l', w', e. repeat split; try assumption.
  - now rewrite Hs.
  - exact (attempt_attempts _ _ _ _ _ _ Ha).
Qed.

(** With the largest [int] for [maxRetries] and an executor that
    fails at every call, no number of iterations ends the loop: the
    counter wraps around and stays within [maxRetries]. *)
Lemma retryLoop_diverges resolver :
  forall fuel retry l (w : World S),
    failing (executor w) ->
    timeoutParses ParseDuration (currentTask l) ->
    retry <= MaxInt64 ->
    fst (retryLoop fuel resolver MaxInt64 retry l w) = None.
Proof.
  induction fuel as [|fuel IH]; intros retry l w Hf Ht Hr; simpl;
    (destruct (retry <=? MaxInt64) eqn:E; [|lia]); simpl; [reflexivity|].
  destruct (attempt_failing resolver retry l w Hf Ht)
    as (l1 & w1 & e & -> & He & Hc & Hf1 & _).
  rewrite He. apply IH; [assumption| |apply wrap64_range].
  unfold timeoutParses in *. now rewrite Hc.
Qed.

End Failing.

Section FailingTask.

Context {S : Type} {exec : TaskExecutor S Policy}.

(** From the states of [failsNext k] the executor fails at the next [k]
    calls; what it does at the calls after them is open. *)
Variable failsNext : nat -> S -> Prop.

Hypothesis failsNext_exec :
  forall k s ctx resolver task input dataType,
    failsNext (Datatypes.S k) s ->
    exists out outType eval e s',
      TaskExec s ctx resolver task input dataType
      = ((out, outType, eval, Some e), s')
      /\ failsNext k s'.

Lemma attempt_failsNext resolver retry l (w : World S) k :
  failsNext (Datatypes.S k) (executor w) ->
  timeoutParses ParseDuration (currentTask l) ->
  exists l' w' e,
    attempt resolver retry l w = inr (l', w')
    /\ taskErr l' = Some e
    /\ currentTask l' = currentTask l
    /\ failsNext k (executor w')
    /\ attempts (events w') = Datatypes.S (attempts (events w)).
Proof.
  intros Hf Ht.
  assert (Hctx : exists ctx w0,
             attemptContext (currentTask l) w = inr (ctx, w0)
             /\ executor w0 = executor w).
  { unfold taskengine.attemptContext. destruct Ht as [Ht|[d Hd]].
    - rewrite Ht. simpl. eauto.
    - destruct (String.eqb (Timeout (currentTask l)) ""); [eauto|].
      rewrite Hd. eauto. }
  destruct Hctx as (ctx & w0 & Hctx & Hex).
  destruct (failsNext_exec k (executor w) ctx resolver (currentTask l)
              (output l) (outputType l) Hf)
    as (out & ot & ev & e & s' & Hexec & Hf').
  assert (Ha : exists l' w',
             attempt resolver retry l w = inr (l', w')
             /\ taskErr l' = Some e /\ currentTask l' = currentTask l
             /\ executor w' = s').
  { unfold taskengine.attempt. rewrite Hctx. simpl. rewrite Hex, Hexec.
    eexists _, _. repeat split. }
  destruct Ha as (l' & w' & Ha & He & Hc & Hs).
  exists l', w', e. repeat split; try assumption.
  - now rewrite Hs.
  - exact (attempt_attempts _ _ _ _ _ _ Ha).
Qed.

(** With an executor that fails at the attempts from [retry] to
    [maxRetries] the loop is left after them, the error of the last one
    in [taskErr]. *)
Lemma retryLoop_failsNext resolver maxRetries :
  maxRetries < MaxInt64 ->
  forall (n : nat) retry l (w : World S) fuel,
    failsNext (Datatypes.S n) (executor w) ->
    timeoutParses ParseDuration (currentTask l) ->
    0 <= retry ->
    retry + Z.of_nat (Datatypes.S n) = maxRetries + 1 ->
    (n < fuel)%nat ->
    exists l' w' e,
      retryLoop fuel resolver maxRetries retry l w = (Some (Next l'), w')
      /\ taskErr l' = Some e
      /\ currentTask l' = currentTask l
      /\ failsNext 0 (executor w')
      /\ attempts (events w')
         = (attempts (events w) + Datatypes.S n)%nat.
Proof.
  clear Randomly PolicyFromString.
  intros Hmax. induction n as [|n IH]; intros retry l w fuel Hf Ht Hr Hn Hfuel;
    (destruct fuel as [|fuel]; [lia|]); simpl;
    (destruct (retry <=? maxRetries) eqn:E; [|lia]); simpl;
    destruct (attempt_failsNext resolver retry l w _ Hf Ht)
      as (l1 & w1 & e & -> & He & Hc & Hf1 & Ha);
    rewrite He, wrap64_small by (unfold MinInt64; lia).
  - exists l1, w1, e.
    destruct fuel; simpl;
      (destruct (retry + 1 <=? maxRetries) eqn:E'; [lia|]); simpl;
      repeat split; try assumption; lia.
  - destruct (IH (retry + 1) l1 w1 fuel Hf1) as (l' & w' & e' & -> & ?);
      try lia; [unfold timeoutParses in *; now rewrite Hc|].
    exists l', w', e'. intuition (try congruence; lia).
Qed.


End FailingTask.

Section Returns.

Context {S : Type} {exec : TaskExecutor S Policy}.

(** *** What a run returns *)

Lemma retryLoop_task fuel resolver maxRetries :
  forall retry l (w : World S) l' w',
    retryLoop fuel resolver maxRetries retry l w = (Some (Next l'), w') ->
    currentTask l' = currentTask l.
Proof.
  induction fuel as [|fuel IH]; intros retry l w l' w'; simpl;
    (destruct (negb (retry <=? maxRetries)); [now intros [= <- <-]|]);
    [discriminate|].
  destruct (attempt resolver retry l w) as [r|[l1 w1]] eqn:Ha;
    [discriminate|].
  destruct (attempt_inr _ _ _ _ _ _ Ha) as (_ & _ & Hc & _).
  destruct (taskErr l1).
  - intros H. rewrite (IH _ _ _ _ _ H). exact Hc.
  - intros [= <- <-]. exact Hc.
Qed.

(** The attempt loop returns from [ExecEnv] with an error only. *)
Lemma retryLoop_return fuel resolver maxRetries :
  forall retry l (w : World S) r w',
    retryLoop fuel resolver maxRetries retry l w = (Some (Return r), w') ->
    snd r <> None.
Proof.
  induction fuel as [|fuel IH]; intros retry l w r w'; simpl;
    (destruct (negb (retry <=? maxRetries)); [discriminate|]);
    [discriminate|].
  destruct (attempt resolver retry l w) as [r0|[l1 w1]] eqn:Ha.
  - intros [= <- <-].
    destruct (attempt_inl _ _ _ _ _ Ha) as (_ & e & _ & ->). discriminate.
  - destruct (taskErr l1); [apply IH|discriminate].
Qed.

(** A loop left without an error has reported the output of its
    last attempt, as the last of its events. *)
Lemma retryLoop_success fuel resolver maxRetries :
  forall retry l (w : World S) l' w',
    retryLoop fuel resolver maxRetries retry l w = (Some (Next l'), w') ->
    taskErr l' = None ->
    retry <= maxRetries \/ taskErr l <> None ->
    exists pre,
      events w'
      = (pre ++ [TrackerReportChange "task_attempt" (ID (currentTask l))
                   (ID (currentTask l)) (output l')])%list.
Proof.
  induction fuel as [|fuel IH]; intros retry l w l' w'; simpl;
    (destruct (retry <=? maxRetries) eqn:E; simpl;
     [|intros [= <- <-] Hnone [Hle|Herr]; [lia|contradiction]]);
    [discriminate|].
  destruct (attempt resolver retry l w) as [r|[l1 w1]] eqn:Ha;
    [discriminate|].
  destruct (attempt_inr _ _ _ _ _ _ Ha) as (_ & _ & Hc & _ & He).
  destruct (taskErr l1) as [e|] eqn:Herr1.
  - intros H Hnone _.
    destruct (IH _ _ _ _ _ H Hnone) as [pre Hpre];
      [right; congruence|].
    exists pre. now rewrite Hpre, Hc.
  - intros [= <- <-] _ _.
    eexists (events w ++ [_])%list. rewrite He, <- app_assoc. reflexivity.
Qed.

Lemma renderPrompt_inr l l0 :
  renderPrompt l = inr l0 -> currentTask l0 = currentTask l.
Proof.
  unfold taskengine.renderPrompt.
  destruct (_ && _); [|now intros [= <-]].
  destruct (renderTemplate _ _) as [out [e|]]; [discriminate|].
  destruct (String.eqb out ""); [discriminate|]. now intros [= <-].
Qed.

Lemma renderPrompt_inl l r : renderPrompt l = inl r -> snd r <> None.
Proof.
  unfold taskengine.renderPrompt.
  destruct (_ && _); [|discriminate].
  destruct (renderTemplate _ _) as [out [e|]]; [now intros [= <-]|].
  destruct (String.eqb out ""); [now intros [= <-]|discriminate].
Qed.

(** What follows the attempts returns without an error only at the
    end of the chain, with the output of the task, tracked as
    [chain_complete]. *)
Lemma afterAttempts_return tasks maxRetries l (w w' : World S) out :
  afterAttempts tasks maxRetries l w = (Return (out, None), w') ->
  taskErr l = None
  /\ out = output l
  /\ exists wp pre,
       w' = complete out wp /\ events wp = (events w ++ pre)%list.
Proof.
  unfold taskengine.afterAttempts.
  destruct (taskErr l) as [e|].
  - destruct (negb _); [|discriminate].
    destruct (findTaskByID tasks _) as [[t|] [err|]]; discriminate.
  - destruct (printStatement (currentTask l) (updateVars l) w)
      as [r|wp] eqn:Hp.
    + unfold taskengine.printStatement in Hp.
      destruct (negb _); [|discriminate].
      destruct (renderTemplate _ _) as [msg [e|]]; [|discriminate].
      injection Hp as <-. discriminate.
    + destruct (evaluateTransitions _ _ _ _) as [next [err|]];
        [discriminate|].
      destruct (_ || _).
      * intros [= <- <-]. repeat split. exists wp.
        destruct (printStatement_inr _ _ _ _ Hp)
          as (_ & _ & [[_ ->] | (_ & msg & _ & ->)]).
        -- exists []. now rewrite app_nil_r.
        -- eauto.
      * destruct (findTaskByID tasks next) as [[t|] [err|]]; discriminate.
Qed.

(** The main loop goes on at a task of the chain. *)
Lemma afterAttempts_next tasks maxRetries l (w w' : World S) l' :
  afterAttempts tasks maxRetries l w = (Next l', w') ->
  In (currentTask l') tasks.
Proof.
  unfold taskengine.afterAttempts.
  destruct (taskErr l) as [e|].
  - destruct (negb _); [|discriminate].
    destruct (findTaskByID_cases tasks (OnFailure (Transition (currentTask l))))
      as [(t & -> & Hin & _) | (-> & _)]; [|discriminate].
    now intros [= <- <-].
  - destruct (printStatement _ _ w) as [r|wp]; [discriminate|].
    destruct (evaluateTransitions _ _ _ _) as [next [err|]];
      [discriminate|].
    destruct (_ || _); [discriminate|].
    destruct (findTaskByID_cases tasks next)
      as [(t & -> & Hin & _) | (-> & _)]; [|discriminate].
    now intros [= <- <-].
Qed.

Lemma visit_return fuel resolver tasks l (w w' : World S) out :
  visit fuel resolver tasks l w = (Some (Return (out, None)), w') ->
  In (TrackerReportChange "task_attempt" (ID (currentTask l))
        (ID (currentTask l)) out) (events w')
  /\ In (TrackerReportChange "chain_complete" "chain" "chain" out)
        (events w')
  /\ deferred w' <> [].
Proof.
  unfold taskengine.visit.
  destruct (renderPrompt l) as [r|l0] eqn:Hr.
  - intros [= -> <-]. now apply renderPrompt_inl in Hr.
  - rewrite <- (renderPrompt_inr _ _ Hr).
    destruct (retryLoop fuel resolver _ 0 l0 w) as [[[r|l1]|] w1] eqn:Hl;
      [| |discriminate].
    + intros [= -> <-]. now apply retryLoop_return in Hl.
    + destruct (afterAttempts tasks _ l1 w1) as [flow w2] eqn:Ha.
      intros [= -> <-].
      destruct (afterAttempts_return _ _ _ _ _ _ Ha)
        as (Hnone & -> & wp & pre & -> & Hwp).
      destruct (retryLoop_success _ _ _ _ _ _ _ _ Hl Hnone)
        as [pre1 Hpre1]; [left; lia|].
      unfold complete. simpl. rewrite Hwp, Hpre1.
      repeat split; [| |discriminate];
        rewrite !in_app_iff; simpl; auto 10.
Qed.

Lemma visit_next fuel resolver tasks l (w w' : World S) l' :
  visit fuel resolver tasks l w = (Some (Next l'), w') ->
  In (currentTask l') tasks.
Proof.
  unfold taskengine.visit.
  destruct (renderPrompt l) as [r|l0]; [discriminate|].
  destruct (retryLoop fuel resolver _ 0 l0 w) as [[[r|l1]|] w1];
    try discriminate.
  destruct (afterAttempts tasks _ l1 w1) as [flow w2] eqn:Ha.
  intros [= -> <-]. exact (afterAttempts_next _ _ _ _ _ _ Ha).
Qed.

Lemma mainLoop_return fuel resolver tasks :
  forall l (w w' : World S) out,
    mainLoop fuel resolver tasks l w = (Some (out, None), w') ->
    In (currentTask l) tasks ->
    exists t,
      In t tasks
      /\ In (TrackerReportChange "task_attempt" (ID t) (ID t) out)
            (events w')
      /\ In (TrackerReportChange "chain_complete" "chain" "chain" out)
            (events w').
Proof.
  induction fuel as [|fuel IH]; intros l w w' out; [discriminate|].
  cbn [taskengine.mainLoop].
  destruct (visit (Datatypes.S fuel) resolver tasks l w)
    as [[[r|l1]|] w1] eqn:Hv; [| |discriminate].
  - intros [= -> <-] Hin.
    destruct (visit_return _ _ _ _ _ _ _ Hv) as (H1 & H2 & _). eauto.
  - intros H _. exact (IH _ _ _ _ H (visit_next _ _ _ _ _ _ _ Hv)).
Qed.

(** What a run that ends without an error returns: an output that a
    task of the chain has reported to the activity tracker in a
    [task_attempt] event, and that the engine has reported at the end
    in a [chain_complete] event; no call is left deferred. *)
Theorem ExecEnv_returns_final_output fuel chain input dataType
    (w w' : World S) out :
  ExecEnv fuel chain input dataType w = (Some (out, None), w') ->
  exists t,
    In t (Tasks chain)
    /\ In (TrackerReportChange "task_attempt" (ID t) (ID t) out)
          (events w')
    /\ In (TrackerReportChange "chain_complete" "chain" "chain" out)
          (events w')
    /\ deferred w' = [].
Proof.
  unfold taskengine.ExecEnv.
  destruct (prepare chain) as [r|[resolver t0]] eqn:Hp.
  - intros [= -> <-]. exfalso. revert Hp. unfold taskengine.prepare.
    destruct (if (0 <? String.length (RoutingStrategy chain))%nat
              then _ else _) as [r|res] eqn:Hres.
    + destruct (0 <? String.length (RoutingStrategy chain))%nat;
        [|discriminate].
      destruct (PolicyFromString _) as [p [e|]]; [|discriminate].
      injection Hres as <-. discriminate.
    + destruct (validateChain (Tasks chain)); [discriminate|].
      destruct (Tasks chain) as [|first rest]; [discriminate|].
      destruct (findTaskByID_cases (first :: rest) (ID first))
        as [(t & -> & _) | (-> & _)]; discriminate.
  - destruct (prepare_entry _ _ _ Hp) as (_ & rest & Htasks).
    destruct (mainLoop fuel resolver (Tasks chain) _ _) as [r w1] eqn:Hm.
    intros [= -> <-].
    destruct (mainLoop_return _ _ _ _ _ _ _ Hm) as (t & Hin & H1 & H2).
    { simpl. rewrite Htasks. now left. }
    exists t. unfold runDeferred. simpl. rewrite !in_app_iff. auto.
Qed.

End Returns.

End EngineProperties.

(** The list [twins] has an id twice and a goto to no task, which the
    validation of the specification rejects; [validateChain] accepts it,
    the first task is executed, and only its transition fails. *)
Lemma validateChain_accepts_duplicate_and_dangling :
  validateChain_spec twins = true
  /\ hasDuplicate (List.map ID twins) = true
  /\ existsb (fun t => existsb (danglingGoto twins) (Branches (Transition t)))
             twins = true
  /\ validateChain twins = None
  /\ fst (run 3 (chainOf twins) goodMock)
     = Some (AnyNil,
             Some "next task nowhere not found: task not found: nowhere")
  /\ attempts (events (snd (run 3 (chainOf twins) goodMock))) = 1%nat.
Proof. repeat split; vm_compute; reflexivity. Qed.

(** A task with the id [end] is rejected before anything is done. *)
Lemma validateChain_rejects_iff_witness :
  run 3 (chainOf reserved) goodMock
  = (Some (AnyNil, Some "task ID cannot be 'end'"), emptyWorld goodMock).
Proof.
  exact (proj2 (validateChain_rejects_iff decimal.ParseFloat
                  ascii_space.TrimSpace string plain.Parse plain.Execute
                  plain.ParseDuration llmresolver.Policy llmresolver.Randomly
                  llmresolver.PolicyFromString (chainOf reserved))
               "task ID cannot be 'end'" 3%nat (AnyString "in") DataTypeString
               (emptyWorld goodMock) eq_refl (or_introl eq_refl)).
Defined.


(** The task of [emptyGoto] succeeds, its default branch has the empty
    goto, and the run ends with the output of the task. *)
Lemma empty_goto_completes_witness :
  fst (mainLoop' 1 llmresolver.Randomly (Tasks emptyGoto)
                 (startLocals (entry emptyGoto)) (emptyWorld goodMock))
  = Some (AnyString "out", None).
Proof.
  edestruct (empty_goto_completes decimal.ParseFloat ascii_space.TrimSpace
               string plain.Parse plain.Execute plain.ParseDuration
               llmresolver.Policy (exec := MockTaskExecutor_exec)
               0%nat llmresolver.Randomly (Tasks emptyGoto)
               (startLocals (entry emptyGoto)) (startLocals (entry emptyGoto))
               (mkLocals (entry emptyGoto) (AnyString "out") DataTypeString
                         "raw" None {["input" := AnyString "in"]})
               (emptyWorld goodMock))
    as (_ & Hloop & _);
    [reflexivity | reflexivity | reflexivity | reflexivity | reflexivity
    | left; reflexivity | ].
  unfold mainLoop'. rewrite Hloop. reflexivity.
Defined.

(** The print statement of [printing] is written to the standard
    output, and no tracker event carries it. *)
Lemma print_not_tracked :
  fst (run 3 printing goodMock) = Some (AnyString "out", None)
  /\ List.filter isStdout (events (snd (run 3 printing goodMock)))
     = [Stdout "printed"]
  /\ List.filter (trackerCarries "printed")
                 (events (snd (run 3 printing goodMock))) = [].
Proof. repeat split; vm_compute; reflexivity. Qed.

(** The print statement of [printing], after its task has succeeded. *)
Lemma print_goes_to_stdout_witness :
  let l := mkLocals (entry printing) (AnyString "out") DataTypeString "raw"
                    None {["input" := AnyString "in"]} in
  exists rest,
    events (snd (afterAttempts' (Tasks printing) 0 l (emptyWorld goodMock)))
    = Stdout "printed" :: rest
    /\ forallb isTransitionEvent rest = true.
Proof.
  intros l.
  exact (proj2 (proj1 (print_goes_to_stdout decimal.ParseFloat
                         ascii_space.TrimSpace string plain.Parse plain.Execute
                         (Tasks printing) 0 l (emptyWorld goodMock)
                         eq_refl ltac:(discriminate))
                      "printed" eq_refl)).
Defined.

(** ** The mock executor *)

Lemma mockFails_exec (m : MockTaskExecutor) (ctx : option Z)
    (resolver : llmresolver.Policy) (task : ChainTask) (input : any)
    (dataType : DataType) :
  mockFails m ->
  exists out outType eval e m',
    TaskExec m ctx resolver task input dataType
    = ((out, outType, eval, Some e), m')
    /\ mockFails m'.
Proof.
  intros [He Hs]. simpl. unfold MockTaskExec. rewrite Hs, He. simpl.
  eexists _, _, _, _, _. split; [reflexivity|]. split; simpl; auto.
Qed.

Lemma MockTaskExec_step {Policy : Type} (m : MockTaskExecutor) ctx
    (resolver : Policy) task input dataType :
  exists m',
    MockTaskExec m ctx resolver task input dataType
    = ((MockOutput m, dataType, MockRawResponse m,
        nth (callIndex m) (ErrorSequence m) (MockError m)), m')
    /\ MockOutput m' = MockOutput m
    /\ MockRawResponse m' = MockRawResponse m
    /\ MockError m' = MockError m
    /\ ErrorSequence m' = ErrorSequence m
    /\ CalledWithTask m' = Some task
    /\ CalledWithPrompt m'
       = match input with AnyString s => s | _ => "" end
    /\ callIndex m'
       = (if (callIndex m <? List.length (ErrorSequence m))%nat
          then Datatypes.S (callIndex m) else callIndex m).
Proof.
  unfold MockTaskExec.
  destruct (callIndex m <? List.length (ErrorSequence m))%nat eqn:E.
  - apply Nat.ltb_lt in E. eexists. split.
    + rewrite (nth_indep (ErrorSequence m) None (MockError m) E).
      reflexivity.
    + cbn. repeat split.
  - apply Nat.ltb_ge in E. eexists. split.
    + rewrite (nth_overflow (ErrorSequence m) (MockError m) E).
      reflexivity.
    + cbn. repeat split.
Qed.

Lemma skipn_cons_nth {A : Type} (n : nat) (l : list A) (x d : A) (r : list A) :
  skipn n l = x :: r ->
  (n < List.length l)%nat /\ nth n l d = x /\ skipn (Datatypes.S n) l = r.
Proof.
  revert l. induction n as [|n IH]; intros [|y l]; simpl; try discriminate.
  - intros [= -> ->]. repeat split. lia.
  - intros H. destruct (IH l H) as (Hl & Hn & Hs). repeat split; auto. lia.
Qed.

Lemma mockFailsFor_fails (k : nat) (m : MockTaskExecutor) (ctx : option Z)
    (resolver : llmresolver.Policy) (task : ChainTask) (input : any)
    (dataType : DataType) :
  mockFailsFor (Datatypes.S k) m ->
  exists out outType eval e m',
    TaskExec m ctx resolver task input dataType
    = ((out, outType, eval, Some e), m')
    /\ mockFailsFor k m'.
Proof.
  intros [He Hs]. simpl in Hs.
  destruct (skipn_cons_nth _ _ _ (MockError m) _ Hs) as (Hlt & Hn & Hr).
  destruct (MockTaskExec_step m ctx resolver task input dataType)
    as (m' & Hexec & _ & _ & He' & Hs' & _ & _ & Hi).
  apply Nat.ltb_lt in Hlt. rewrite Hlt in Hi. rewrite Hn in Hexec.
  exists (MockOutput m), dataType, (MockRawResponse m), "boom", m'.
  split; [exact Hexec|]. split; [congruence|]. now rewrite Hs', Hi.
Qed.

Lemma mockFailsFor_succeeds (m : MockTaskExecutor) (ctx : option Z)
    (resolver : llmresolver.Policy) (task : ChainTask) (input : any)
    (dataType : DataType) :
  mockFailsFor 0 m ->
  exists out outType eval m',
    TaskExec m ctx resolver task input dataType
    = ((out, outType, eval, None), m')
    /\ mockFailsFor 0 m'.
Proof.
  intros [He Hs]. simpl in Hs. apply skipn_all_iff in Hs.
  destruct (MockTaskExec_step m ctx resolver task input dataType)
    as (m' & Hexec & _ & _ & He' & Hs' & _ & _ & Hi).
  rewrite nth_overflow, He in Hexec by exact Hs.
  apply Nat.ltb_ge in Hs. unfold error in *. rewrite Hs in Hi.
  exists (MockOutput m), dataType, (MockRawResponse m), m'.
  split; [exact Hexec|]. split; [congruence|].
  rewrite Hs', Hi. simpl. apply skipn_all_iff. now apply Nat.ltb_ge.
Qed.

(** An executor that fails at every call fails at the next calls,
    however many. *)
Lemma mockFails_next (k : nat) (m : MockTaskExecutor) (ctx : option Z)
    (resolver : llmresolver.Policy) (task : ChainTask) (input : any)
    (dataType : DataType) :
  mockFails m ->
  exists out outType eval e m',
    TaskExec m ctx resolver task input dataType
    = ((out, outType, eval, Some e), m')
    /\ mockFails m'.
Proof. apply mockFails_exec. Qed.



(** C9, at the largest retry count. With [retry_on_failure] at the
    largest [int] and an executor that fails at every call, [ExecEnv]
    does not return, however many iterations its loops are allowed: the
    attempt loop does not end. *)
Theorem retry_loop_never_ends :
  forall fuel, fst (run fuel endless failingMock) = None.
Proof.
  intros fuel. unfold run, ExecEnv', ExecEnv.
  change (prepare llmresolver.Policy llmresolver.Randomly
            llmresolver.PolicyFromString endless)
    with (@inr (any * error) _ (llmresolver.Randomly, entry endless)).
  cbv iota beta.
  destruct fuel as [|fuel]; [reflexivity|].
  cbn [mainLoop]. unfold visit.
  change (renderPrompt string plain.Parse plain.Execute _)
    with (@inr (any * error) _
            (mkLocals (entry endless) (AnyString "in") DataTypeString "" None
                      {["input" := AnyString "in"]})).
  cbv iota beta.
  pose proof (retryLoop_diverges plain.ParseDuration llmresolver.Policy
                mockFails mockFails_exec llmresolver.Randomly
                (Datatypes.S fuel) 0
                (mkLocals (entry endless) (AnyString "in") DataTypeString ""
                          None {["input" := AnyString "in"]})
                (mkWorld failingMock [] [])
                ltac:(split; reflexivity) ltac:(left; reflexivity)
                ltac:(unfold MaxInt64; lia)) as Hd.
  change (Z.max (RetryOnFailure (currentTask _)) 0) with MaxInt64.
  destruct (retryLoop _ _ _ _ _ _ _ _) as [[flow|] w1]; [discriminate|].
  reflexivity.
Qed.

(** Below the largest retry count the attempt loop of a task ends, for
    every executor, and a negative retry count makes it one attempt. *)
Lemma retry_loop_negative_once :
  exists flow w',
    retryLoop' 1 llmresolver.Randomly
               (Z.max (RetryOnFailure (task "t" (-3) "" "" "" toEnd)) 0) 0
               (startLocals (task "t" (-3) "" "" "" toEnd))
               (emptyWorld failingMock)
    = (Some flow, w')
    /\ (attempts (events w') <= 1)%nat.
Proof.
  exact (retryLoop_negative plain.ParseDuration llmresolver.Policy
           llmresolver.Randomly
           (startLocals (task "t" (-3) "" "" "" toEnd))
           (emptyWorld failingMock) 0%nat ltac:(simpl; lia)).
Defined.

(** ** What [ExecEnv] returns *)

(** C1, on the code. [ExecEnv] returns an output and an error and no
    captured state: the runs of [oneTask] and of [twoTasks] return the
    same, after one visit and after two, so nothing read off what
    [ExecEnv] returns has one unit for each visit. *)
Lemma return_value_hides_visits :
  fst (run 3 oneTask goodMock) = Some (AnyString "out", None)
  /\ fst (run 3 twoTasks goodMock) = Some (AnyString "out", None)
  /\ visits (events (snd (run 3 oneTask goodMock))) = 1%nat
  /\ visits (events (snd (run 3 twoTasks goodMock))) = 2%nat
  /\ ~ (exists captured : any * error -> list CapturedStateUnit,
          forall chain m fuel r w',
            run fuel chain m = (Some r, w') ->
            snd r = None ->
            List.length (captured r) = visits (events w')).
Proof.
  assert (V1 : visits (events (snd (run 3 oneTask goodMock))) = 1%nat)
    by (vm_compute; reflexivity).
  assert (V2 : visits (events (snd (run 3 twoTasks goodMock))) = 2%nat)
    by (vm_compute; reflexivity).
  assert (R1 : fst (run 3 oneTask goodMock) = Some (AnyString "out", None))
    by (vm_compute; reflexivity).
  assert (R2 : fst (run 3 twoTasks goodMock) = Some (AnyString "out", None))
    by (vm_compute; reflexivity).
  repeat split; try assumption.
  intros [captured H].
  assert (E1 : run 3 oneTask goodMock
               = (Some (AnyString "out", None), snd (run 3 oneTask goodMock)))
    by (apply injective_projections; [exact R1 | reflexivity]).
  assert (E2 : run 3 twoTasks goodMock
               = (Some (AnyString "out", None), snd (run 3 twoTasks goodMock)))
    by (apply injective_projections; [exact R2 | reflexivity]).
  pose proof (H oneTask goodMock 3%nat _ _ E1 eq_refl) as H1.
  pose proof (H twoTasks goodMock 3%nat _ _ E2 eq_refl) as H2.
  rewrite V1 in H1. rewrite V2 in H2.
  rewrite H1 in H2. discriminate.
Qed.

(** The run of [twoTasks] returns the output of its second task. *)
Lemma ExecEnv_returns_final_output_witness :
  exists t,
    In t (Tasks twoTasks)
    /\ In (TrackerReportChange "task_attempt" (ID t) (ID t) (AnyString "out"))
          (events (snd (run 3 twoTasks goodMock)))
    /\ In (TrackerReportChange "chain_complete" "chain" "chain"
             (AnyString "out"))
          (events (snd (run 3 twoTasks goodMock)))
    /\ deferred (snd (run 3 twoTasks goodMock)) = [].
Proof.
  apply (ExecEnv_returns_final_output decimal.ParseFloat ascii_space.TrimSpace
           string plain.Parse plain.Execute plain.ParseDuration
           llmresolver.Policy llmresolver.Randomly llmresolver.PolicyFromString
           3%nat twoTasks (AnyString "in") DataTypeString
           (emptyWorld goodMock)).
  change (run 3 twoTasks goodMock
          = (Some (AnyString "out", None), snd (run 3 twoTasks goodMock))).
  apply injective_projections; [vm_compute; reflexivity | reflexivity].
Defined.


(** * Further properties *)

(** ** [findTaskByID] *)

(** X1. [findTaskByID] returns the first task of the list with the id: a
    task behind another one with the same id is never returned. It
    returns the error [task not found: <id>] exactly for an id that no
    task has. *)
Theorem findTaskByID_first (tasks : list ChainTask) (id : string) :
  (forall pre t post,
     tasks = (pre ++ t :: post)%list ->
     ID t = id ->
     Forall (fun u => ID u <> id) pre ->
     findTaskByID tasks id = (Some t, None))
  /\ (forall t,
        findTaskByID tasks id = (Some t, None) ->
        exists pre post,
          tasks = (pre ++ t :: post)%list
          /\ ID t = id
          /\ Forall (fun u => ID u <> id) pre)
  /\ (Forall (fun u => ID u <> id) tasks
      <-> findTaskByID tasks id = (None, Some ("task not found: " +:+ id))).
Proof.
  split; [|split].
  - intros pre t post -> Hid Hpre.
    induction Hpre as [|u pre Hu _ IH]; simpl.
    + apply String.eqb_eq in Hid. now rewrite Hid.
    + apply String.eqb_neq in Hu. now rewrite Hu.
  - induction tasks as [|u rest IH]; intros t; simpl; [discriminate|].
    destruct (String.eqb (ID u) id) eqn:E.
    + apply String.eqb_eq in E. intros [= <-].
      exists [], rest. repeat split; [assumption|constructor].
    + apply String.eqb_neq in E. intros H.
      destruct (IH t H) as (pre & post & -> & Hid & Hpre).
      exists (u :: pre), post. repeat split; [assumption|now constructor].
  - split.
    + intros Hall. induction Hall as [|u rest Hu _ IH]; simpl; [reflexivity|].
      apply String.eqb_neq in Hu. now rewrite Hu.
    + induction tasks as [|u rest IH]; simpl; [constructor|].
      destruct (String.eqb (ID u) id) eqn:E; [discriminate|].
      apply String.eqb_neq in E. intros H. constructor; auto.
Qed.

(** Of the two tasks of [twins] with the id [a], the first is found. *)
Lemma findTaskByID_first_witness :
  findTaskByID twins "a"
  = (Some (task "a" 0 "" "" "" [branch "default" "" "nowhere"]), None).
Proof.
  exact (proj1 (findTaskByID_first twins "a")
               [] (task "a" 0 "" "" "" [branch "default" "" "nowhere"])
               [task "a" 0 "" "" "" toEnd] eq_refl eq_refl
               (List.Forall_nil _)).
Defined.

(** ** [validateChain] *)

(** X2. The error of [validateChain] is that of the first offending
    task: [chain has no tasks] exactly for the empty list, [task ID
    cannot be empty] when the first task with an empty id or the id [end]
    has the empty id, [task ID cannot be 'end'] when it has the id
    [end]. *)
Theorem validateChain_first_offender (tasks : list ChainTask) :
  (validateChain tasks = Some "chain has no tasks" <-> tasks = [])
  /\ (forall pre t post,
        tasks = (pre ++ t :: post)%list ->
        Forall (fun u => ID u <> "" /\ ID u <> TermEnd) pre ->
        (ID t = "" -> validateChain tasks = Some "task ID cannot be empty")
        /\ (ID t = TermEnd ->
            validateChain tasks = Some "task ID cannot be 'end'")).
Proof.
  assert (Hids : forall pre t post,
             Forall (fun u => ID u <> "" /\ ID u <> TermEnd) pre ->
             validateIDs (pre ++ t :: post) = validateIDs (t :: post)).
  { intros pre t post Hpre.
    induction Hpre as [|u pre [H1 H2] _ IH]; [reflexivity|]. simpl.
    apply String.eqb_neq in H1, H2. now rewrite H1, H2. }
  assert (Hne : forall ts, validateIDs ts <> Some "chain has no tasks").
  { induction ts as [|u rest IH]; simpl; [discriminate|].
    destruct (String.eqb (ID u) ""); simpl; [discriminate|].
    destruct (String.eqb (ID u) TermEnd); [discriminate|exact IH]. }
  split.
  - unfold validateChain. destruct tasks as [|t rest]; simpl.
    + split; reflexivity.
    + split; [|discriminate]. intros H. exfalso. exact (Hne (t :: rest) H).
  - intros pre t post -> Hpre. unfold validateChain.
    replace (List.length (pre ++ t :: post) =? 0)%nat with false
      by (destruct pre; reflexivity).
    rewrite (Hids pre t post Hpre). simpl. split; intros ->; reflexivity.
Qed.

(** A task without an id behind a sound one; a list without tasks. *)
Lemma validateChain_first_offender_witness :
  validateChain [task "a" 0 "" "" "" toEnd; task "" 0 "" "" "" toEnd;
                 task "end" 0 "" "" "" toEnd]
  = Some "task ID cannot be empty"
  /\ validateChain [] = Some "chain has no tasks".
Proof.
  split.
  - refine (proj1 (proj2 (validateChain_first_offender _)
                      [task "a" 0 "" "" "" toEnd] (task "" 0 "" "" "" toEnd)
                      [task "end" 0 "" "" "" toEnd] eq_refl _) eq_refl).
    repeat constructor; discriminate.
  - exact (proj2 (proj1 (validateChain_first_offender [])) eq_refl).
Defined.

(** ** The string operators of [compare] *)

Lemma append_nil_l (b : string) : "" +:+ b = b.
Proof. reflexivity. Qed.

Lemma append_cons (c : ascii) (a b : string) :
  String c a +:+ b = String c (a +:+ b).
Proof. reflexivity. Qed.

Lemma prefix_iff (p s : string) :
  String.prefix p s = true <-> exists b, s = p +:+ b.
Proof.
  revert s. induction p as [|c p IH]; intros s.
  - split; [intros _; now exists s|]. intros _. now destruct s.
  - destruct s as [|d s]; simpl.
    + split; [discriminate|]. intros [b Hb]. rewrite append_cons in Hb.
      discriminate.
    + destruct (ascii_dec c d) as [->|Hne].
      * rewrite IH. split; intros [b Hb]; exists b.
        -- now rewrite append_cons, Hb.
        -- rewrite append_cons in Hb. now injection Hb.
      * split; [discriminate|]. intros [b Hb]. rewrite append_cons in Hb.
        injection Hb as Hd _. congruence.
Qed.

Lemma Contains_iff (s w : string) :
  strings.Contains s w = true <-> exists a b, s = a +:+ (w +:+ b).
Proof.
  induction s as [|c s IH]; cbn [strings.Contains].
  - rewrite orb_false_r, prefix_iff. split.
    + intros [b Hb]. now exists "", b.
    + intros (a & b & H). destruct a as [|d a]; [now exists b|].
      rewrite append_cons in H. discriminate.
  - rewrite orb_true_iff, prefix_iff, IH. split.
    + intros [[b Hb] | (a & b & ->)]; [now exists "", b|].
      now exists (String c a), b.
    + intros (a & b & H). destruct a as [|d a]; [left; now exists b|].
      right. rewrite append_cons in H. injection H as _ ->. now exists a, b.
Qed.

Lemma length_append (a b : string) :
  String.length (a +:+ b) = (String.length a + String.length b)%nat.
Proof.
  induction a as [|c a IH]; [reflexivity|].
  rewrite append_cons. simpl. now rewrite IH.
Qed.

Lemma substring_all (s : string) : String.substring 0 (String.length s) s = s.
Proof. induction s; simpl; congruence. Qed.

Lemma substring_append (a b : string) :
  String.substring (String.length a) (String.length b) (a +:+ b) = b.
Proof.
  induction a as [|c a IH]; [apply substring_all|].
  rewrite append_cons. simpl. exact IH.
Qed.

Lemma substring_split (s : string) (n : nat) :
  (n <= String.length s)%nat ->
  s = String.substring 0 n s +:+ String.substring n (String.length s - n) s.
Proof.
  revert n. induction s as [|c s IH]; intros n Hn; simpl in *.
  - destruct n; [reflexivity|lia].
  - destruct n as [|n]; simpl.
    + now rewrite append_nil_l, substring_all.
    + rewrite append_cons. f_equal. apply IH. lia.
Qed.

Lemma HasSuffix_iff (s suf : string) :
  strings.HasSuffix s suf = true <-> exists a, s = a +:+ suf.
Proof.
  unfold strings.HasSuffix. rewrite andb_true_iff, Nat.leb_le, String.eqb_eq.
  split.
  - intros [Hle Hsub].
    exists (String.substring 0 (String.length s - String.length suf) s).
    pose proof (substring_split s (String.length s - String.length suf)
                  ltac:(lia)) as H.
    replace (String.length s - (String.length s - String.length suf))%nat
      with (String.length suf) in H by lia.
    now rewrite Hsub in H.
  - intros [a ->]. rewrite length_append. split; [lia|].
    replace (String.length a + String.length suf - String.length suf)%nat
      with (String.length a) by lia.
    apply substring_append.
Qed.

Section StringOperators.

Variable ParseFloat : string -> float64 * error.
Variable TrimSpace : string -> string.

Local Abbreviation compare := (compare ParseFloat TrimSpace).

(** X3. [equals], [contains], [starts_with] and [ends_with] never give
    an error. [equals] is true exactly for equal strings, [contains]
    when [when] occurs somewhere in the response, [starts_with] when the
    response begins with it, [ends_with] when the response ends with it;
    so an empty [when] makes the last three true for every response. *)
Theorem compare_string_operators (response when : string) :
  (compare OpEquals response when = (true, None) <-> response = when)
  /\ (compare OpContains response when = (true, None)
      <-> exists a b, response = a +:+ (when +:+ b))
  /\ (compare OpStartsWith response when = (true, None)
      <-> exists b, response = when +:+ b)
  /\ (compare OpEndsWith response when = (true, None)
      <-> exists a, response = a +:+ when)
  /\ snd (compare OpEquals response when) = None
  /\ snd (compare OpContains response when) = None
  /\ snd (compare OpStartsWith response when) = None
  /\ snd (compare OpEndsWith response when) = None
  /\ compare OpContains response "" = (true, None)
  /\ compare OpStartsWith response "" = (true, None)
  /\ compare OpEndsWith response "" = (true, None).
Proof.
  assert (Hpair : forall b : bool, (b, nil_error) = (true, None) <-> b = true).
  { intros b. split; [now intros [= ->]|now intros ->]. }
  change (compare OpEquals response when)
    with (String.eqb response when, nil_error).
  change (compare OpContains response when)
    with (strings.Contains response when, nil_error).
  change (compare OpStartsWith response when)
    with (strings.HasPrefix response when, nil_error).
  change (compare OpEndsWith response when)
    with (strings.HasSuffix response when, nil_error).
  change (compare OpContains response "")
    with (strings.Contains response "", nil_error).
  change (compare OpStartsWith response "")
    with (strings.HasPrefix response "", nil_error).
  change (compare OpEndsWith response "")
    with (strings.HasSuffix response "", nil_error).
  rewrite !Hpair. unfold strings.HasPrefix.
  rewrite String.eqb_eq, Contains_iff, prefix_iff, HasSuffix_iff.
  repeat split; try reflexivity; try (intros H; exact H).
  - apply (proj2 (Contains_iff _ _)).
    now exists "", response.
  - apply (proj2 (prefix_iff _ _)). now exists response.
  - apply (proj2 (HasSuffix_iff _ _)). exists response.
    clear. induction response as [|c r IH]; [reflexivity|].
    now rewrite append_cons, <- IH.
Qed.

(** X4. For an operator that is none of the nine it knows, [default]
    among them, [compare] returns the error [unsupported operator:
    <operator>], whatever the operands. *)
Theorem compare_unknown_operator (operator response when : string) :
  ~ In operator [OpEquals; OpContains; OpStartsWith; OpEndsWith;
                 OpGreaterThan; OpGt; OpLessThan; OpLt; OpInRange] ->
  compare operator response when
  = (false, Some ("unsupported operator: " +:+ operator)).
Proof.
  intros Hop. unfold taskengine.compare.
  repeat match goal with
         | |- context [String.eqb operator ?c] =>
             let E := fresh "E" in
             destruct (String.eqb operator c) eqn:E;
             [apply String.eqb_eq in E; exfalso; apply Hop;
              rewrite E; simpl; tauto|]
         end.
  reflexivity.
Qed.

End StringOperators.

(** An empty [when] is contained in every response; [default] is no
    operator of [compare]. *)
Lemma compare_unknown_operator_witness :
  compare' "default" "yes" "" = (false, Some "unsupported operator: default").
Proof.
  refine (compare_unknown_operator decimal.ParseFloat ascii_space.TrimSpace
            "default" "yes" "" _).
  simpl. intros H.
  repeat (destruct H as [H|H]; [discriminate|]). exact H.
Defined.

(** ** Where a goto comes from *)

Section TransitionTargets.

Variable ParseFloat : string -> float64 * error.
Variable TrimSpace : string -> string.

Local Abbreviation explicitMatch := (explicitMatch ParseFloat TrimSpace).
Local Abbreviation evaluateTransitions :=
  (evaluateTransitions ParseFloat TrimSpace).
Local Abbreviation branchMatches := (branchMatches ParseFloat TrimSpace).

Lemma explicitMatch_result branches eval r :
  explicitMatch branches eval = Some r ->
  (exists e, r = ("", Some e))
  \/ (exists ct,
        In ct branches /\ branchMatches eval ct = true /\ r = (Goto ct, None)).
Proof.
  induction branches as [|ct rest IH]; simpl; [discriminate|].
  unfold words.branchMatches, isDefault.
  destruct (String.eqb (Operator ct) OpDefault) eqn:Ed.
  - intros H. destruct (IH H) as [He | (b & Hin & Hm & Hr)]; [now left|].
    right. exists b. auto.
  - destruct (taskengine.compare ParseFloat TrimSpace (Operator ct) eval (When ct))
      as [[|] [e|]] eqn:Hc.
    + intros [= <-]. left. eauto.
    + intros [= <-]. right. exists ct. rewrite Ed, Hc. auto.
    + intros [= <-]. left. eauto.
    + intros H. destruct (IH H) as [He | (b & Hin & Hm & Hr)]; [now left|].
      right. exists b. auto.
Qed.

Lemma defaultMatch_result branches r :
  defaultMatch branches = Some r ->
  exists ct, In ct branches /\ isDefault ct = true /\ r = (Goto ct, None).
Proof.
  induction branches as [|ct rest IH]; simpl; [discriminate|].
  destruct (String.eqb (Operator ct) "default") eqn:E.
  - intros [= <-]. exists ct. auto.
  - intros H. destruct (IH H) as (b & Hin & Hd & Hr). exists b. auto.
Qed.

(** X5. A goto that [evaluateTransitions] returns is the goto of a
    branch of the transition, a default branch or one on which [compare]
    returns true; with an error the goto is empty. Without branches the
    error is [no matching transition found]; a transition of default
    branches only gives the goto of its first branch, whatever was
    evaluated. *)
Theorem evaluateTransitions_goto_of_branch
    (transition : TaskTransition) (eval : string) :
  (forall goto,
     evaluateTransitions transition eval = (goto, None) ->
     exists ct,
       In ct (Branches transition)
       /\ Goto ct = goto
       /\ (isDefault ct = true \/ branchMatches eval ct = true))
  /\ (forall goto e,
        evaluateTransitions transition eval = (goto, Some e) -> goto = "")
  /\ (Branches transition = [] ->
      evaluateTransitions transition eval
      = ("", Some "no matching transition found"))
  /\ (forall first rest,
        Branches transition = first :: rest ->
        Forall (fun ct => isDefault ct = true) (first :: rest) ->
        evaluateTransitions transition eval = (Goto first, None)).
Proof.
  split; [|split; [|split]].
  - intros goto. unfold taskengine.evaluateTransitions.
    destruct (explicitMatch (Branches transition) eval) as [r|] eqn:He.
    + intros ->.
      destruct (explicitMatch_result _ _ _ He)
        as [[e Hr] | (ct & Hin & Hm & Hr)]; [discriminate Hr|].
      injection Hr as ->. exists ct. auto.
    + destruct (defaultMatch (Branches transition)) as [r|] eqn:Hd;
        [|discriminate].
      intros ->.
      destruct (defaultMatch_result _ _ Hd) as (ct & Hin & Hdef & Hr).
      injection Hr as ->. exists ct. auto.
  - intros goto e. unfold taskengine.evaluateTransitions.
    destruct (explicitMatch (Branches transition) eval) as [r|] eqn:He.
    + intros ->.
      destruct (explicitMatch_result _ _ _ He)
        as [[e' Hr] | (ct & _ & _ & Hr)]; [|discriminate Hr].
      now injection Hr.
    + destruct (defaultMatch (Branches transition)) as [r|] eqn:Hd.
      * intros ->. destruct (defaultMatch_result _ _ Hd) as (ct & _ & _ & Hr).
        discriminate Hr.
      * now intros [= <- _].
  - intros Hb. unfold taskengine.evaluateTransitions. now rewrite Hb.
  - intros first rest Hb Hall. unfold taskengine.evaluateTransitions.
    rewrite Hb.
    assert (Hnone : forall bs,
               Forall (fun ct => isDefault ct = true) bs ->
               explicitMatch bs eval = None).
    { induction 1 as [|ct bs Hd _ IH]; [reflexivity|]. simpl.
      unfold isDefault in Hd. now rewrite Hd. }
    rewrite (Hnone _ Hall). inversion Hall as [|? ? Hd _]; subst. simpl.
    unfold isDefault in Hd. change OpDefault with "default" in Hd.
    now rewrite Hd.
Qed.

End TransitionTargets.

(** The goto [high] of [lowHigh] comes from its second branch; a
    transition of one default branch goes where that branch says. *)
Lemma evaluateTransitions_goto_of_branch_witness :
  (exists ct,
     In ct (Branches lowHigh) /\ Goto ct = "high"
     /\ (isDefault ct = true
         \/ branchMatches decimal.ParseFloat ascii_space.TrimSpace "73" ct
            = true))
  /\ evaluateTransitions' {| OnFailure := ""; Branches := toEnd |} "anything"
     = ("end", None).
Proof.
  split.
  - exact (proj1 (evaluateTransitions_goto_of_branch decimal.ParseFloat
                    ascii_space.TrimSpace lowHigh "73") "high" eq_refl).
  - refine (proj2 (proj2 (proj2 (evaluateTransitions_goto_of_branch
              decimal.ParseFloat ascii_space.TrimSpace
              {| OnFailure := ""; Branches := toEnd |} "anything")))
              (branch "default" "" "end") [] eq_refl _).
    repeat constructor.
Defined.

(** ** The operations tracked by a run *)

Lemma startsOf_app (a b : list Event) :
  startsOf (a ++ b) = (startsOf a ++ startsOf b)%list.
Proof.
  induction a as [|e a IH]; [reflexivity|].
  destruct e; simpl; now rewrite IH.
Qed.

Lemma endsOf_app (a b : list Event) :
  endsOf (a ++ b) = (endsOf a ++ endsOf b)%list.
Proof.
  induction a as [|e a IH]; [reflexivity|].
  destruct e; simpl; now rewrite IH.
Qed.

Lemma grows_refl {S : Type} (w : World S) : grows w w.
Proof. exists [], []. simpl. now rewrite app_nil_r. Qed.

Lemma grows_trans {S : Type} (w1 w2 w3 : World S) :
  grows w1 w2 -> grows w2 w3 -> grows w1 w3.
Proof.
  intros (n1 & d1 & He1 & Hd1 & Hf1 & Hn1 & Hs1)
         (n2 & d2 & He2 & Hd2 & Hf2 & Hn2 & Hs2).
  exists (n1 ++ n2)%list, (d2 ++ d1)%list.
  rewrite He2, He1, Hd2, Hd1, !app_assoc, forallb_app, Hf1, Hf2.
  rewrite !endsOf_app, startsOf_app, Hn1, Hn2, Hs1, Hs2, rev_app_distr.
  auto.
Qed.

(** An event that neither starts nor ends an operation. *)
Lemma grows_emit {S : Type} (e : Event) (w : World S) :
  startsOf [e] = [] -> endsOf [e] = [] -> grows w (emit e w).
Proof.
  intros Hs He. exists [e], [].
  repeat split; [exact He|now rewrite Hs].
Qed.

Lemma grows_trackerStart {S : Type} operation subject kvArgs (w : World S) :
  grows w (trackerStart operation subject kvArgs w).
Proof.
  exists [TrackerStart operation subject kvArgs],
         [TrackerEnd operation subject].
  simpl. auto.
Qed.

Lemma grows_cancel {S : Type} (timeout : Z) (w : World S) :
  grows w (defer (ContextCancel timeout) w).
Proof. exists [], [ContextCancel timeout]. simpl. now rewrite app_nil_r. Qed.

(** The executor moving on leaves the events as they are. *)
Lemma grows_executor {S : Type} (s : S) (w : World S) :
  grows w (mkWorld s (events w) (deferred w)).
Proof. exists [], []. simpl. now rewrite app_nil_r. Qed.

Section EngineInvariants.

Variable ParseFloat : string -> float64 * error.
Variable TrimSpace : string -> string.
Variable TextTemplate : Type.
Variable template_Parse : string -> TextTemplate + string.
Variable template_Execute : TextTemplate -> gmap string any -> string + string.
Variable ParseDuration : string -> Z + string.
Variable Policy : Type.
Variable Randomly : Policy.
Variable PolicyFromString : string -> Policy * error.

Context {S : Type} {exec : TaskExecutor S Policy}.

Local Abbreviation attempt := (attempt ParseDuration Policy).
Local Abbreviation retryLoop := (retryLoop ParseDuration Policy).
Local Abbreviation renderPrompt :=
  (renderPrompt TextTemplate template_Parse template_Execute).
Local Abbreviation printStatement :=
  (printStatement TextTemplate template_Parse template_Execute).
Local Abbreviation afterAttempts :=
  (afterAttempts ParseFloat TrimSpace TextTemplate template_Parse
                 template_Execute).
Local Abbreviation visit :=
  (visit ParseFloat TrimSpace TextTemplate template_Parse template_Execute
         ParseDuration Policy).
Local Abbreviation mainLoop :=
  (mainLoop ParseFloat TrimSpace TextTemplate template_Parse template_Execute
            ParseDuration Policy).
Local Abbreviation prepare := (prepare Policy Randomly PolicyFromString).
Local Abbreviation ExecEnv :=
  (ExecEnv ParseFloat TrimSpace TextTemplate template_Parse template_Execute
           ParseDuration Policy Randomly PolicyFromString).

Lemma attempt_grows resolver retry l (w : World S) l' w' :
  attempt resolver retry l w = inr (l', w') -> grows w w'.
Proof.
  unfold taskengine.attempt, taskengine.attemptContext.
  assert (Hrun : forall ctx (w0 : World S),
             grows w w0 ->
             (let w1 := trackerStart "task_attempt" (ID (currentTask l))
                          [AnyString "retry"; AnyInt retry;
                           AnyString "task_type";
                           AnyString (TaskType (currentTask l))] w0 in
              let '(out, outType, eval, err, s') :=
                TaskExec (executor w1) ctx resolver (currentTask l)
                         (output l) (outputType l) in
              match err with
              | Some e =>
                  @inr (any * error) _
                    (mkLocals (currentTask l) out outType eval err (vars l),
                     emit (TrackerReportErr "task_attempt" (ID (currentTask l)) e)
                          (mkWorld s' (events w1) (deferred w1)))
              | None =>
                  inr (mkLocals (currentTask l) out outType eval err (vars l),
                       emit (TrackerReportChange "task_attempt"
                               (ID (currentTask l)) (ID (currentTask l)) out)
                            (mkWorld s' (events w1) (deferred w1)))
              end) = inr (l', w') ->
             grows w w').
  { intros ctx w0 H0. cbv zeta.
    destruct (TaskExec _ ctx resolver (currentTask l) (output l) (outputType l))
      as [[[[out ot] ev] [e|]] s']; intros [= <- <-];
      (eapply grows_trans; [exact H0|]);
      (eapply grows_trans; [apply grows_trackerStart|]);
      (eapply grows_trans; [apply (grows_executor s')|]);
      apply grows_emit; reflexivity. }
  destruct (String.eqb (Timeout (currentTask l)) "").
  - apply (Hrun None w), grows_refl.
  - destruct (ParseDuration (Timeout (currentTask l))) as [d|e];
      [|discriminate].
    apply (Hrun (Some d)), grows_cancel.
Qed.

Lemma retryLoop_grows fuel resolver maxRetries :
  forall retry l (w : World S),
    grows w (snd (retryLoop fuel resolver maxRetries retry l w)).
Proof.
  induction fuel as [|fuel IH]; intros retry l w; simpl;
    (destruct (negb (retry <=? maxRetries)); [apply grows_refl|]);
    [apply grows_refl|].
  destruct (attempt resolver retry l w) as [r|[l1 w1]] eqn:Ha;
    [apply grows_refl|].
  pose proof (attempt_grows _ _ _ _ _ _ Ha) as Hg.
  destruct (taskErr l1); [|exact Hg].
  eapply grows_trans; [exact Hg|apply IH].
Qed.

Lemma printStatement_grows task vars (w w' : World S) :
  printStatement task vars w = inr w' -> grows w w'.
Proof.
  unfold taskengine.printStatement.
  destruct (negb _); [|intros [= <-]; apply grows_refl].
  destruct (taskengine.renderTemplate _ _ _ _ _) as [msg [e|]];
    [discriminate|].
  intros [= <-]. apply grows_emit; reflexivity.
Qed.

Lemma complete_grows finalOutput (w : World S) :
  grows w (complete finalOutput w).
Proof.
  unfold complete.
  eapply grows_trans; [apply grows_trackerStart|apply grows_emit; reflexivity].
Qed.

Lemma afterAttempts_grows tasks maxRetries l (w : World S) :
  grows w (snd (afterAttempts tasks maxRetries l w)).
Proof.
  unfold taskengine.afterAttempts.
  destruct (taskErr l) as [e|].
  - destruct (negb _); [|apply grows_refl].
    destruct (findTaskByID tasks _) as [[t|] [err|]]; simpl;
      try apply grows_refl.
    eapply grows_trans; [apply grows_trackerStart|apply grows_emit; reflexivity].
  - destruct (printStatement (currentTask l) (updateVars l) w)
      as [r|wp] eqn:Hp; [apply grows_refl|].
    pose proof (printStatement_grows _ _ _ _ Hp) as Hg.
    destruct (evaluateTransitions _ _ _ _) as [next [err|]]; [exact Hg|].
    destruct (_ || _); simpl.
    + eapply grows_trans; [exact Hg|apply complete_grows].
    + assert (Hn : grows w
                (emit (TrackerReportChange "next_task" (ID (currentTask l))
                         next (AnyString (transitionEval l)))
                      (trackerStart "next_task" (ID (currentTask l))
                         [AnyString "next_task"; AnyString next] wp))).
      { eapply grows_trans; [exact Hg|].
        eapply grows_trans; [apply grows_trackerStart|].
        apply grows_emit; reflexivity. }
      destruct (findTaskByID tasks next) as [[t|] [err|]]; exact Hn.
Qed.

Lemma visit_grows fuel resolver tasks l (w : World S) :
  grows w (snd (visit fuel resolver tasks l w)).
Proof.
  unfold taskengine.visit.
  destruct (renderPrompt l) as [r|l0]; [apply grows_refl|].
  pose proof (retryLoop_grows fuel resolver
                (Z.max (RetryOnFailure (currentTask l0)) 0) 0 l0 w) as Hg.
  destruct (retryLoop fuel resolver _ 0 l0 w) as [[[r|l1]|] w1];
    simpl in *; try exact Hg.
  pose proof (afterAttempts_grows tasks
                (Z.max (RetryOnFailure (currentTask l0)) 0) l1 w1) as Ha.
  destruct (afterAttempts tasks _ l1 w1) as [flow w2].
  simpl in *. eapply grows_trans; eassumption.
Qed.

Lemma mainLoop_grows fuel resolver tasks :
  forall l (w : World S), grows w (snd (mainLoop fuel resolver tasks l w)).
Proof.
  induction fuel as [|fuel IH]; intros l w; [apply grows_refl|].
  cbn [taskengine.mainLoop].
  pose proof (visit_grows (Datatypes.S fuel) resolver tasks l w) as Hv.
  destruct (visit (Datatypes.S fuel) resolver tasks l w) as [[[r|l1]|] w1];
    simpl in *; try exact Hv.
  eapply grows_trans; [exact Hv|apply IH].
Qed.

(** X6. When [ExecEnv] returns, with an output or with an error, the
    events before the call are as they were; behind them come the events
    of the run, none of which ends a tracked operation, and last the
    deferred calls, which end every operation that the run has started,
    the latest first, and leave nothing deferred. *)
Theorem ExecEnv_ends_what_it_starts fuel chain input dataType
    (w w' : World S) r :
  ExecEnv fuel chain input dataType w = (Some r, w') ->
  exists new ends,
    events w' = (events w ++ new ++ ends)%list
    /\ deferred w' = []
    /\ endsOf new = []
    /\ forallb isDeferredCall ends = true
    /\ endsOf ends = rev (startsOf new).
Proof.
  unfold taskengine.ExecEnv.
  assert (Hflush : forall w1 : World S,
             grows (mkWorld (executor w) (events w) []) w1 ->
             exists new ends,
               events (runDeferred w1) = (events w ++ new ++ ends)%list
               /\ deferred (runDeferred w1) = []
               /\ endsOf new = []
               /\ forallb isDeferredCall ends = true
               /\ endsOf ends = rev (startsOf new)).
  { intros w1 (new & dnew & He & Hd & Hf & Hn & Hs). simpl in *.
    exists new, dnew. rewrite He, Hd, app_nil_r, app_assoc. auto. }
  destruct (prepare chain) as [r0|[resolver t0]].
  - intros H. injection H as _ <-. apply Hflush, grows_refl.
  - pose proof (mainLoop_grows fuel resolver (Tasks chain)
                  (mkLocals t0 input dataType "" None {["input" := input]})
                  (mkWorld (executor w) (events w) [])) as Hg.
    destruct (mainLoop fuel resolver (Tasks chain) _ _) as [r1 w1].
    intros H. injection H as _ <-. apply Hflush, Hg.
Qed.

(** *** What is returned with an error, and what ends a run *)

Lemma retryLoop_return_nil fuel resolver maxRetries :
  forall retry l (w : World S) r w',
    retryLoop fuel resolver maxRetries retry l w = (Some (Return r), w') ->
    fst r = AnyNil.
Proof.
  induction fuel as [|fuel IH]; intros retry l w r w'; simpl;
    (destruct (negb (retry <=? maxRetries)); [discriminate|]);
    [discriminate|].
  destruct (attempt resolver retry l w) as [r0|[l1 w1]] eqn:Ha.
  - intros [= <- <-].
    destruct (attempt_inl _ _ _ _ _ _ _ Ha) as (_ & e & _ & ->). reflexivity.
  - destruct (taskErr l1); [apply IH|discriminate].
Qed.

Lemma renderPrompt_inl_nil l r : renderPrompt l = inl r -> fst r = AnyNil.
Proof.
  unfold taskengine.renderPrompt.
  destruct (_ && _); [|discriminate].
  destruct (taskengine.renderTemplate _ _ _ _ _) as [out [e|]];
    [now intros [= <-]|].
  destruct (String.eqb out ""); [now intros [= <-]|discriminate].
Qed.

Lemma afterAttempts_return_nil tasks maxRetries l (w w' : World S) out e :
  afterAttempts tasks maxRetries l w = (Return (out, Some e), w') ->
  out = AnyNil.
Proof.
  unfold taskengine.afterAttempts, taskengine.printStatement.
  destruct (taskErr l) as [e0|].
  - destruct (negb _); [|now intros [= <- _ _]].
    destruct (findTaskByID tasks _) as [[t|] [err|]];
      try discriminate; now intros [= <- _ _].
  - destruct (negb (String.eqb (Print (currentTask l)) "")).
    + destruct (taskengine.renderTemplate _ _ _ _ _) as [msg [e1|]];
        [now intros [= <- _ _]|].
      destruct (evaluateTransitions _ _ _ _) as [next [err|]];
        [now intros [= <- _ _]|].
      destruct (_ || _); [discriminate|].
      destruct (findTaskByID tasks next) as [[t|] [err|]];
        try discriminate; now intros [= <- _ _].
    + destruct (evaluateTransitions _ _ _ _) as [next [err|]];
        [now intros [= <- _ _]|].
      destruct (_ || _); [discriminate|].
      destruct (findTaskByID tasks next) as [[t|] [err|]];
        try discriminate; now intros [= <- _ _].
Qed.

Lemma visit_return_nil fuel resolver tasks l (w w' : World S) out e :
  visit fuel resolver tasks l w = (Some (Return (out, Some e)), w') ->
  out = AnyNil.
Proof.
  unfold taskengine.visit.
  destruct (renderPrompt l) as [r|l0] eqn:Hr.
  - intros [= -> _]. exact (renderPrompt_inl_nil _ _ Hr).
  - destruct (retryLoop fuel resolver _ 0 l0 w) as [[[r|l1]|] w1] eqn:Hl;
      [| |discriminate].
    + intros [= -> _]. exact (retryLoop_return_nil _ _ _ _ _ _ _ _ Hl).
    + destruct (afterAttempts tasks _ l1 w1) as [flow w2] eqn:Ha.
      intros [= -> _]. exact (afterAttempts_return_nil _ _ _ _ _ _ _ Ha).
Qed.

Lemma prepare_inl_nil chain r : prepare chain = inl r -> fst r = AnyNil.
Proof.
  unfold taskengine.prepare.
  destruct (if (0 <? String.length (RoutingStrategy chain))%nat
            then _ else _) as [r0|res] eqn:Hres.
  - intros [= <-].
    destruct (0 <? String.length (RoutingStrategy chain))%nat; [|discriminate].
    destruct (PolicyFromString _) as [p [e|]]; [|discriminate].
    now injection Hres as <-.
  - destruct (validateChain (Tasks chain)); [now intros [= <-]|].
    destruct (Tasks chain) as [|first rest]; [now intros [= <-]|].
    destruct (findTaskByID (first :: rest) (ID first)) as [[t|] [err|]];
      try discriminate; now intros [= <-].
Qed.

Lemma prepare_inl_error chain r : prepare chain = inl r -> snd r <> None.
Proof.
  unfold taskengine.prepare.
  destruct (if (0 <? String.length (RoutingStrategy chain))%nat
            then _ else _) as [r0|res] eqn:Hres.
  - intros [= <-].
    destruct (0 <? String.length (RoutingStrategy chain))%nat; [|discriminate].
    destruct (PolicyFromString _) as [p [e|]]; [|discriminate].
    now injection Hres as <-.
  - destruct (validateChain (Tasks chain)); [now intros [= <-]|].
    destruct (Tasks chain) as [|first rest]; [now intros [= <-]|].
    destruct (findTaskByID_cases (first :: rest) (ID first))
      as [(t & -> & _) | (-> & _)]; [discriminate|now intros [= <-]].
Qed.

(** X7. When [ExecEnv] returns an error, the output it returns with it
    is [nil], wherever the error arises: in the routing strategy, the
    validation, a template, a timeout, the attempts or the transition. *)
Theorem ExecEnv_error_without_output fuel chain input dataType
    (w w' : World S) out e :
  ExecEnv fuel chain input dataType w = (Some (out, Some e), w') ->
  out = AnyNil.
Proof.
  unfold taskengine.ExecEnv.
  destruct (prepare chain) as [r|[resolver t0]] eqn:Hp.
  - intros [= -> _]. exact (prepare_inl_nil _ _ Hp).
  - destruct (mainLoop fuel resolver (Tasks chain) _ _) as [r1 w1] eqn:Hm.
    intros [= -> _]. clear Hp. revert Hm.
    generalize (mkLocals t0 input dataType "" None {["input" := input]}).
    generalize (mkWorld (executor w) (events w) []).
    induction fuel as [|fuel IH]; intros w0 l0; [discriminate|].
    cbn [taskengine.mainLoop].
    destruct (visit (Datatypes.S fuel) resolver (Tasks chain) l0 w0)
      as [[[r|l1]|] w2] eqn:Hv; [| |discriminate].
    + intros [= -> _]. exact (visit_return_nil _ _ _ _ _ _ _ _ Hv).
    + apply IH.
Qed.

Lemma visit_return_last fuel resolver tasks l (w w' : World S) out :
  visit fuel resolver tasks l w = (Some (Return (out, None)), w') ->
  exists pre,
    events w'
    = (pre ++ [TrackerStart "chain_complete" "chain"
                 [AnyString "final_output"; out];
               TrackerReportChange "chain_complete" "chain" "chain" out])%list.
Proof.
  unfold taskengine.visit.
  destruct (renderPrompt l) as [r|l0] eqn:Hr.
  - intros [= -> <-].
    exfalso. eapply renderPrompt_inl in Hr. now apply Hr.
  - destruct (retryLoop fuel resolver _ 0 l0 w) as [[[r|l1]|] w1] eqn:Hl;
      [| |discriminate].
    + intros [= -> <-].
      exfalso. eapply retryLoop_return in Hl. now apply Hl.
    + destruct (afterAttempts tasks _ l1 w1) as [flow w2] eqn:Ha.
      intros [= -> <-].
      eapply afterAttempts_return in Ha.
      destruct Ha as (_ & _ & wp & pre & -> & _).
      exists (events wp). unfold complete. simpl. now rewrite <- app_assoc.
Qed.

(** X8. When [ExecEnv] returns without an error, the last that the run
    has done is to track the final output as [chain_complete]: behind
    these two events come only the deferred calls. *)
Theorem ExecEnv_completes_last fuel chain input dataType
    (w w' : World S) out :
  ExecEnv fuel chain input dataType w = (Some (out, None), w') ->
  exists pre ends,
    events w'
    = (pre ++ [TrackerStart "chain_complete" "chain"
                 [AnyString "final_output"; out];
               TrackerReportChange "chain_complete" "chain" "chain" out]
           ++ ends)%list
    /\ forallb isDeferredCall ends = true.
Proof.
  unfold taskengine.ExecEnv.
  destruct (prepare chain) as [r|[resolver t0]] eqn:Hp.
  - intros [= -> _]. exfalso. now apply prepare_inl_error in Hp.
  - pose proof (mainLoop_grows fuel resolver (Tasks chain)
                  (mkLocals t0 input dataType "" None {["input" := input]})
                  (mkWorld (executor w) (events w) [])) as Hg.
    destruct (mainLoop fuel resolver (Tasks chain) _ _) as [r1 w1] eqn:Hm.
    intros [= -> <-]. simpl in Hg.
    destruct Hg as (new & dnew & _ & Hd & Hf & _). rewrite app_nil_r in Hd.
    assert (Hlast : exists pre,
               events w1
               = (pre ++ [TrackerStart "chain_complete" "chain"
                            [AnyString "final_output"; out];
                          TrackerReportChange "chain_complete" "chain" "chain"
                            out])%list).
    { clear - Hm. revert Hm.
      generalize (mkLocals t0 input dataType "" None {["input" := input]}).
      generalize (mkWorld (executor w) (events w) []).
      induction fuel as [|fuel IH]; intros w0 l0; [discriminate|].
      cbn [taskengine.mainLoop].
      destruct (visit (Datatypes.S fuel) resolver (Tasks chain) l0 w0)
        as [[[r|l1]|] w2] eqn:Hv; [| |discriminate].
      - intros [= -> <-]. exact (visit_return_last _ _ _ _ _ _ _ Hv).
      - apply IH. }
    destruct Hlast as [pre Hpre]. exists pre, dnew.
    unfold runDeferred. simpl. rewrite Hpre, Hd, <- app_assoc. auto.
Qed.

(** *** The variables *)

Lemma updateVars_lookup l :
  updateVars l !! ID (currentTask l) = Some (output l)
  /\ updateVars l !! "previous_output" = Some (output l)
  /\ (forall k,
        k <> ID (currentTask l) -> k <> "previous_output" ->
        updateVars l !! k = vars l !! k).
Proof.
  unfold updateVars. split; [apply lookup_insert_eq|]. split.
  - destruct (decide (ID (currentTask l) = "previous_output")) as [->|Hne].
    + apply lookup_insert_eq.
    + rewrite lookup_insert_ne by exact Hne. apply lookup_insert_eq.
  - intros k H1 H2. rewrite !lookup_insert_ne by congruence. reflexivity.
Qed.

(** X9. When the main loop goes on to a next task, the payload is
    passed on as the attempts have left it. After a task that has
    succeeded, the variables hold its output under its id and under
    [previous_output], and every other variable is as before. After a
    task that has failed and has a failure handler, the variables are
    as before, and the next task is the handler. *)
Theorem scope_after_task tasks maxRetries l (w w' : World S) l' :
  afterAttempts tasks maxRetries l w = (Next l', w') ->
  output l' = output l
  /\ outputType l' = outputType l
  /\ (taskErr l = None ->
      vars l' !! ID (currentTask l) = Some (output l)
      /\ vars l' !! "previous_output" = Some (output l)
      /\ (forall k,
            k <> ID (currentTask l) -> k <> "previous_output" ->
            vars l' !! k = vars l !! k))
  /\ (taskErr l <> None ->
      vars l' = vars l
      /\ ID (currentTask l') = OnFailure (Transition (currentTask l))).
Proof.
  unfold taskengine.afterAttempts.
  destruct (taskErr l) as [e|].
  - destruct (negb _); [|discriminate].
    destruct (findTaskByID_cases tasks (OnFailure (Transition (currentTask l))))
      as [(t & -> & _ & Hid) | (-> & _)]; [|discriminate].
    intros [= <- _]. simpl. repeat split; try congruence.
  - destruct (printStatement (currentTask l) (updateVars l) w) as [r|wp];
      [discriminate|].
    destruct (evaluateTransitions _ _ _ _) as [next [err|]]; [discriminate|].
    destruct (_ || _); [discriminate|].
    destruct (findTaskByID tasks next) as [[t|] [err|]]; try discriminate.
    intros [= <- _]. simpl. repeat split; try apply updateVars_lookup;
      congruence.
Qed.

End EngineInvariants.

(** The run of [handled]: four attempts and a failure transition are
    started, and ended in the reverse order. *)
Lemma ExecEnv_ends_what_it_starts_witness :
  exists new ends,
    events (snd (run 5 handled failingMock)) = ([] ++ new ++ ends)%list
    /\ deferred (snd (run 5 handled failingMock)) = []
    /\ endsOf new = []
    /\ forallb isDeferredCall ends = true
    /\ endsOf ends = rev (startsOf new).
Proof.
  apply (ExecEnv_ends_what_it_starts decimal.ParseFloat ascii_space.TrimSpace
           string plain.Parse plain.Execute plain.ParseDuration
           llmresolver.Policy llmresolver.Randomly llmresolver.PolicyFromString
           5%nat handled (AnyString "in") DataTypeString
           (emptyWorld failingMock) (snd (run 5 handled failingMock))
           (AnyNil, Some "task h failed after 0 retries: boom")).
  change (run 5 handled failingMock
          = (Some (AnyNil, Some "task h failed after 0 retries: boom"),
             snd (run 5 handled failingMock))).
  apply injective_projections; [vm_compute; reflexivity | reflexivity].
Defined.

(** The run of [badTimeout] returns its error without an output. *)
Lemma ExecEnv_error_without_output_witness :
  exists out e,
    fst (run 5 badTimeout failingMock) = Some (out, Some e) /\ out = AnyNil.
Proof.
  assert (H : run 5 badTimeout failingMock
              = (Some (AnyNil,
                       Some ("task t: invalid timeout: time: invalid duration "
                             +:+ quote "soon")),
                 snd (run 5 badTimeout failingMock)))
    by (apply injective_projections; [vm_compute; reflexivity | reflexivity]).
  eexists _, _. split; [rewrite H; reflexivity|].
  exact (ExecEnv_error_without_output decimal.ParseFloat
           ascii_space.TrimSpace string plain.Parse plain.Execute
           plain.ParseDuration llmresolver.Policy llmresolver.Randomly
           llmresolver.PolicyFromString 5%nat badTimeout (AnyString "in")
           DataTypeString (emptyWorld failingMock) _ _ _ H).
Defined.

(** The run of [twoTasks] ends with the two events of [chain_complete]
    and the ends of the operations it has started. *)
Lemma ExecEnv_completes_last_witness :
  exists pre ends,
    events (snd (run 3 twoTasks goodMock))
    = (pre ++ [TrackerStart "chain_complete" "chain"
                 [AnyString "final_output"; AnyString "out"];
               TrackerReportChange "chain_complete" "chain" "chain"
                 (AnyString "out")]
           ++ ends)%list
    /\ forallb isDeferredCall ends = true.
Proof.
  apply (ExecEnv_completes_last decimal.ParseFloat ascii_space.TrimSpace
           string plain.Parse plain.Execute plain.ParseDuration
           llmresolver.Policy llmresolver.Randomly llmresolver.PolicyFromString
           3%nat twoTasks (AnyString "in") DataTypeString
           (emptyWorld goodMock)).
  change (run 3 twoTasks goodMock
          = (Some (AnyString "out", None), snd (run 3 twoTasks goodMock))).
  apply injective_projections; [vm_compute; reflexivity | reflexivity].
Defined.

(** After the first task of [twoTasks] the variables hold its output
    under [t] and [previous_output], and the input as before. *)
Lemma scope_after_task_witness :
  exists l' w',
    afterAttempts' (Tasks twoTasks) 0
      (mkLocals (entry twoTasks) (AnyString "out") DataTypeString "raw" None
                {["input" := AnyString "in"]})
      (emptyWorld goodMock)
    = (Next l', w')
    /\ vars l' !! "t" = Some (AnyString "out")
    /\ vars l' !! "previous_output" = Some (AnyString "out")
    /\ vars l' !! "input" = Some (AnyString "in").
Proof.
  destruct (afterAttempts' (Tasks twoTasks) 0
              (mkLocals (entry twoTasks) (AnyString "out") DataTypeString
                        "raw" None {["input" := AnyString "in"]})
              (emptyWorld goodMock)) as [flow w'] eqn:Ha.
  assert (Hf : exists l', flow = Next l').
  { vm_compute in Ha. injection Ha as <- _. eauto. }
  destruct Hf as [l' ->]. exists l', w'. split; [reflexivity|].
  destruct (scope_after_task decimal.ParseFloat ascii_space.TrimSpace
              string plain.Parse plain.Execute _ _ _ _ _ _ Ha)
    as (_ & _ & Hok & _).
  destruct (Hok eq_refl) as (H1 & H2 & H3).
  split; [exact H1|]. split; [exact H2|].
  rewrite (H3 "input") by discriminate. reflexivity.
Defined.

(** ** What a retry is given *)

Section RetryInputs.

Variable ParseDuration : string -> Z + string.
Variable Policy : Type.

Context {S : Type} (exec : TaskExecutor S Policy).

Local Abbreviation recorded := (S * list Call)%type.
Local Abbreviation retryLoopRec :=
  (@taskengine.retryLoop ParseDuration Policy recorded (recorder exec)).

Lemma attempt_recorded resolver retry l (w : World recorded) l' w' :
  @taskengine.attempt ParseDuration Policy recorded (recorder exec)
    resolver retry l w = inr (l', w') ->
  snd (executor w')
  = (snd (executor w)
     ++ [mkCall (output l) (outputType l) (output l') (outputType l')
                (taskErr l')])%list.
Proof.
  intros Ha. eapply attempt_inr in Ha. destruct Ha as (ctx & Hexec & _).
  simpl in Hexec.
  destruct (TaskExec (fst (executor w)) ctx resolver (currentTask l)
                     (output l) (outputType l))
    as [[[[out ot] ev] err] s'].
  injection Hexec as <- <- _ <- <-. reflexivity.
Qed.

(** X10. Within the attempt loop of a task the first call of the
    executor is given the payload with which the loop is entered, and
    each retry is given the output and the type that the failed call
    before it has returned, not the payload of the first call. *)
Theorem retry_inputs_chained fuel resolver maxRetries :
  forall retry l (w : World recorded),
    exists calls,
      snd (executor (snd (retryLoopRec fuel resolver maxRetries retry l w)))
      = (snd (executor w) ++ calls)%list
      /\ chained (output l, outputType l) calls.
Proof.
  induction fuel as [|fuel IH]; intros retry l w; simpl;
    (destruct (negb (retry <=? maxRetries));
     [exists []; simpl; now rewrite app_nil_r|]);
    [exists []; simpl; now rewrite app_nil_r|].
  destruct (taskengine.attempt ParseDuration Policy resolver retry l w)
    as [r|[l1 w1]] eqn:Ha; [exists []; simpl; now rewrite app_nil_r|].
  pose proof (attempt_recorded _ _ _ _ _ _ Ha) as Hlog.
  destruct (taskErr l1) as [e|] eqn:He.
  - destruct (IH (wrap64 (retry + 1)) l1 w1) as (calls & Hcalls & Hch).
    exists (mkCall (output l) (outputType l) (output l1) (outputType l1)
                   (Some e) :: calls).
    split.
    + etransitivity; [exact Hcalls|]. rewrite Hlog, <- app_assoc. reflexivity.
    + simpl. repeat split; auto.
  - exists [mkCall (output l) (outputType l) (output l1) (outputType l1) None].
    split; [exact Hlog|]. simpl. repeat split; auto.
Qed.

End RetryInputs.

(** The three attempts of the task of [unhandled]: the first is given
    the input of the chain, the two retries the output of the mock. *)
Lemma unhandled_retry_inputs :
  snd (executor (snd
    (@taskengine.retryLoop plain.ParseDuration llmresolver.Policy _
       (recorder MockTaskExecutor_exec) 3 llmresolver.Randomly 2 0
       (startLocals (entry unhandled)) (emptyWorld (failingMock, [])))))
  = [mkCall (AnyString "in") DataTypeString AnyNil DataTypeString (Some "boom");
     mkCall AnyNil DataTypeString AnyNil DataTypeString (Some "boom");
     mkCall AnyNil DataTypeString AnyNil DataTypeString (Some "boom")].
Proof. vm_compute. reflexivity. Qed.

(** ** The mock executor of the tests *)

(** X11. A mock executor hands out the errors of its [ErrorSequence] in
    order, one for each call from its call index on, and [MockError] at
    every call once they are used up; it returns its output and raw
    response at every call and the data type it was given. *)
Theorem mock_error_sequence (m : MockTaskExecutor)
    (args : list (ChainTask * any * DataType)) (k : nat) task input dataType :
  nth_error args k = Some (task, input, dataType) ->
  nth_error (mockCalls m args) k
  = Some (MockOutput m, dataType, MockRawResponse m,
          nth (callIndex m + k) (ErrorSequence m) (MockError m)).
Proof.
  revert m k. induction args as [|[[t i] d] rest IH]; intros m k.
  - destruct k; discriminate.
  - cbn [mockCalls].
    destruct (MockTaskExec_step (Policy := unit) m None tt t i d)
      as (m' & -> & Ho & Hr & He & Hs & _ & _ & Hi).
    destruct k as [|k]; simpl.
    + intros [= -> -> ->]. now rewrite Nat.add_0_r.
    + intros Hk. rewrite (IH m' k Hk), Ho, Hr, He, Hs, Hi. do 2 f_equal.
      destruct (callIndex m <? List.length (ErrorSequence m))%nat eqn:E.
      * f_equal. lia.
      * apply Nat.ltb_ge in E.
        rewrite !nth_overflow by lia. reflexivity.
Qed.

(** The third call of [recoveringMock] succeeds. *)
Lemma mock_error_sequence_witness :
  nth_error (mockCalls recoveringMock
               [(entry oneTask, AnyString "a", DataTypeString);
                (entry oneTask, AnyInt 1, DataTypeInt);
                (entry oneTask, AnyNil, DataTypeAny)]) 2
  = Some (AnyString "out", DataTypeAny, "raw", None).
Proof.
  exact (mock_error_sequence recoveringMock
           [(entry oneTask, AnyString "a", DataTypeString);
            (entry oneTask, AnyInt 1, DataTypeInt);
            (entry oneTask, AnyNil, DataTypeAny)] 2
           (entry oneTask) AnyNil DataTypeAny eq_refl).
Defined.

(** ** Failures within the retries, and beyond them *)

Section Recovering.

Variable ParseDuration : string -> Z + string.
Variable Policy : Type.

Context {S : Type} {exec : TaskExecutor S Policy}.

Local Abbreviation attempt := (taskengine.attempt ParseDuration Policy).
Local Abbreviation retryLoop := (taskengine.retryLoop ParseDuration Policy).

(** With a timeout that is absent or a duration an attempt calls the
    executor and the loop goes on. *)
Lemma attempt_runs resolver retry l (w : World S) :
  timeoutParses ParseDuration (currentTask l) ->
  exists l' w' ctx,
    attempt resolver retry l w = inr (l', w')
    /\ TaskExec (executor w) ctx resolver (currentTask l)
                (output l) (outputType l)
       = ((output l', outputType l', transitionEval l', taskErr l'),
          executor w')
    /\ currentTask l' = currentTask l
    /\ vars l' = vars l
    /\ attempts (events w') = Datatypes.S (attempts (events w)).
Proof.
  intros Ht.
  destruct (attempt resolver retry l w) as [r|[l' w']] eqn:Ha.
  - exfalso. eapply attempt_inl in Ha. destruct Ha as (Hne & e & He & _).
    destruct Ht as [Ht|[d Hd]]; [contradiction|congruence].
  - exists l', w'. pose proof Ha as Hc. eapply attempt_attempts in Hc.
    eapply attempt_inr in Ha. destruct Ha as (ctx & Hexec & Hcur & Hv & _).
    exists ctx. auto.
Qed.

(** From the states of [failsFor k] the executor fails at [k] calls and
    succeeds at the call after them. *)
Variable failsFor : nat -> S -> Prop.

Hypothesis failsFor_fails :
  forall k s ctx resolver task input dataType,
    failsFor (Datatypes.S k) s ->
    exists out outType eval e s',
      TaskExec s ctx resolver task input dataType
      = ((out, outType, eval, Some e), s')
      /\ failsFor k s'.

Hypothesis failsFor_succeeds :
  forall s ctx resolver task input dataType,
    failsFor 0 s ->
    exists out outType eval s',
      TaskExec s ctx resolver task input dataType
      = ((out, outType, eval, None), s')
      /\ failsFor 0 s'.

(** Failures that the retries left cover: the loop is left after the
    attempt that succeeds. *)
Lemma retryLoop_recovers resolver maxRetries :
  maxRetries <= MaxInt64 ->
  forall (k : nat) retry l (w : World S) fuel,
    failsFor k (executor w) ->
    timeoutParses ParseDuration (currentTask l) ->
    0 <= retry ->
    retry + Z.of_nat k <= maxRetries ->
    (k < fuel)%nat ->
    exists l' w',
      retryLoop fuel resolver maxRetries retry l w = (Some (Next l'), w')
      /\ taskErr l' = None
      /\ currentTask l' = currentTask l
      /\ failsFor 0 (executor w')
      /\ attempts (events w') = (attempts (events w) + Datatypes.S k)%nat.
Proof.
  intros Hmax. induction k as [|k IH]; intros retry l w fuel Hf Ht Hr Hk Hfuel;
    (destruct fuel as [|fuel]; [lia|]); simpl;
    (destruct (retry <=? maxRetries) eqn:E; [|lia]); simpl;
    destruct (attempt_runs resolver retry l w Ht)
      as (l1 & w1 & ctx & -> & Hexec & Hc & _ & Ha).
  - destruct (failsFor_succeeds (executor w) ctx resolver (currentTask l)
                (output l) (outputType l) Hf)
      as (out & ot & ev & s' & Hs & Hf').
    rewrite Hs in Hexec. injection Hexec as _ _ _ He Hw. rewrite <- He.
    exists l1, w1. repeat split; auto; [congruence|lia].
  - destruct (failsFor_fails k (executor w) ctx resolver (currentTask l)
                (output l) (outputType l) Hf)
      as (out & ot & ev & e & s' & Hs & Hf').
    rewrite Hs in Hexec. injection Hexec as _ _ _ He Hw. rewrite <- He.
    rewrite wrap64_small by (unfold MinInt64; lia).
    destruct (IH (retry + 1) l1 w1 fuel) as (l' & w' & -> & H1 & H2 & H3 & H4);
      try lia; [congruence|unfold timeoutParses in *; now rewrite Hc|].
    exists l', w'. repeat split; auto; [congruence|lia].
Qed.

(** More failures than attempts: the loop is left after the last retry,
    the error of its attempt in [taskErr]. *)
Lemma retryLoop_exhausts resolver maxRetries :
  maxRetries < MaxInt64 ->
  forall (n k : nat) retry l (w : World S) fuel,
    failsFor k (executor w) ->
    (n < k)%nat ->
    timeoutParses ParseDuration (currentTask l) ->
    0 <= retry ->
    retry + Z.of_nat (Datatypes.S n) = maxRetries + 1 ->
    (n < fuel)%nat ->
    exists l' w' e,
      retryLoop fuel resolver maxRetries retry l w = (Some (Next l'), w')
      /\ taskErr l' = Some e
      /\ currentTask l' = currentTask l
      /\ failsFor (k - Datatypes.S n) (executor w')
      /\ attempts (events w') = (attempts (events w) + Datatypes.S n)%nat.
Proof.
  intros Hmax.
  induction n as [|n IH]; intros k retry l w fuel Hf Hnk Ht Hr Hn Hfuel;
    (destruct fuel as [|fuel]; [lia|]); simpl;
    (destruct (retry <=? maxRetries) eqn:E; [|lia]); simpl;
    (destruct k as [|k]; [lia|]);
    destruct (attempt_runs resolver retry l w Ht)
      as (l1 & w1 & ctx & -> & Hexec & Hc & _ & Ha);
    destruct (failsFor_fails k (executor w) ctx resolver (currentTask l)
                (output l) (outputType l) Hf)
      as (out & ot & ev & e & s' & Hs & Hf');
    rewrite Hs in Hexec; injection Hexec as _ _ _ He Hw; rewrite <- He;
    rewrite wrap64_small by (unfold MinInt64; lia).
  - exists l1, w1, e.
    destruct fuel; simpl;
      (destruct (retry + 1 <=? maxRetries) eqn:E'; [lia|]); simpl;
      repeat split; auto; try lia;
      rewrite <- Hw;
      match goal with |- failsFor ?x _ => now replace x with k by lia end.
  - destruct (IH k (retry + 1) l1 w1 fuel)
      as (l' & w' & e' & -> & H1 & H2 & H3 & H4);
      try lia; [congruence|unfold timeoutParses in *; now rewrite Hc|].
    exists l', w', e'. repeat split; auto; [congruence|lia].
Qed.

(** X12. A task whose executor fails at [k] calls and then succeeds,
    with a timeout that is absent or a duration and [N] retries, [N]
    below the largest [int]: the attempt loop makes [min k N + 1]
    attempts, and it is left without an error exactly when the failures
    are at most [N]. *)
Theorem retries_recover_or_exhaust resolver (k : nat) maxRetries l
    (w : World S) fuel :
  failsFor k (executor w) ->
  timeoutParses ParseDuration (currentTask l) ->
  0 <= maxRetries < MaxInt64 ->
  (Z.to_nat maxRetries < fuel)%nat ->
  exists l' w',
    retryLoop fuel resolver maxRetries 0 l w = (Some (Next l'), w')
    /\ attempts (events w')
       = (attempts (events w) + Datatypes.S (Nat.min k (Z.to_nat maxRetries)))%nat
    /\ (taskErr l' = None <-> Z.of_nat k <= maxRetries).
Proof.
  intros Hf Ht HN Hfuel.
  destruct (Z_le_gt_dec (Z.of_nat k) maxRetries) as [Hle|Hgt].
  - destruct (retryLoop_recovers resolver maxRetries ltac:(lia) k 0 l w fuel
                Hf Ht ltac:(lia) ltac:(lia) ltac:(lia))
      as (l' & w' & Hloop & He & _ & _ & Ha).
    exists l', w'. split; [exact Hloop|]. split.
    + rewrite Ha, Nat.min_l by lia. reflexivity.
    + tauto.
  - destruct (retryLoop_exhausts resolver maxRetries ltac:(lia)
                (Z.to_nat maxRetries) k 0 l w fuel
                Hf ltac:(lia) Ht ltac:(lia) ltac:(lia) Hfuel)
      as (l' & w' & e & Hloop & He & _ & _ & Ha).
    exists l', w'. split; [exact Hloop|]. split.
    + rewrite Ha, Nat.min_r by lia. reflexivity.
    + rewrite He. split; [discriminate|lia].
Qed.

End Recovering.

(** The task of [unhandled], with two retries, at a mock that fails
    twice: three attempts, the third without an error. *)
Lemma retries_recover_or_exhaust_witness :
  exists l' w',
    retryLoop' 3 llmresolver.Randomly 2 0 (startLocals (entry unhandled))
               (emptyWorld recoveringMock)
    = (Some (Next l'), w')
    /\ attempts (events w') = 3%nat
    /\ (taskErr l' = None <-> 2 <= 2).
Proof.
  exact (retries_recover_or_exhaust plain.ParseDuration llmresolver.Policy
           mockFailsFor mockFailsFor_fails mockFailsFor_succeeds
           llmresolver.Randomly 2%nat 2 (startLocals (entry unhandled))
           (emptyWorld recoveringMock) 3%nat
           (conj eq_refl eq_refl) (or_introl eq_refl)
           ltac:(unfold MaxInt64; lia) ltac:(simpl; lia)).
Defined.

(** ** Chains that do not reach their end *)

Lemma deferred_no_attempts (calls : list Event) :
  forallb isDeferredCall calls = true -> attempts calls = 0%nat.
Proof.
  unfold attempts. induction calls as [|e rest IH]; [reflexivity|].
  simpl. intros H. apply andb_true_iff in H as [He Hrest].
  destruct e; try discriminate; simpl; auto.
Qed.

Section Cycling.

Variable ParseFloat : string -> float64 * error.
Variable TrimSpace : string -> string.
Variable TextTemplate : Type.
Variable template_Parse : string -> TextTemplate + string.
Variable template_Execute : TextTemplate -> gmap string any -> string + string.
Variable ParseDuration : string -> Z + string.
Variable Policy : Type.
Variable Randomly : Policy.
Variable PolicyFromString : string -> Policy * error.

Context {S : Type} {exec : TaskExecutor S Policy}.

Local Abbreviation retryLoop := (taskengine.retryLoop ParseDuration Policy).
Local Abbreviation afterAttempts :=
  (taskengine.afterAttempts ParseFloat TrimSpace TextTemplate template_Parse
                            template_Execute).
Local Abbreviation visit :=
  (taskengine.visit ParseFloat TrimSpace TextTemplate template_Parse
                    template_Execute ParseDuration Policy).
Local Abbreviation mainLoop :=
  (taskengine.mainLoop ParseFloat TrimSpace TextTemplate template_Parse
                       template_Execute ParseDuration Policy).
Local Abbreviation ExecEnv :=
  (taskengine.ExecEnv ParseFloat TrimSpace TextTemplate template_Parse
                      template_Execute ParseDuration Policy Randomly
                      PolicyFromString).

(** The executor succeeds at every call from the states of
    [succeeding]. *)
Variable succeeding : S -> Prop.

Hypothesis succeeding_exec :
  forall s ctx resolver task input dataType,
    succeeding s ->
    exists out outType eval s',
      TaskExec s ctx resolver task input dataType
      = ((out, outType, eval, None), s')
      /\ succeeding s'.

Lemma explicitMatch_defaults branches eval :
  Forall (fun ct => Operator ct = OpDefault) branches ->
  explicitMatch ParseFloat TrimSpace branches eval = None.
Proof.
  induction 1 as [|ct rest Hct _ IH]; simpl; [reflexivity|].
  now rewrite Hct.
Qed.

Lemma evaluateTransitions_defaults transition eval ct rest :
  Forall (fun ct => Operator ct = OpDefault) (Branches transition) ->
  Branches transition = ct :: rest ->
  evaluateTransitions ParseFloat TrimSpace transition eval = (Goto ct, None).
Proof.
  intros Hall Hb. unfold evaluateTransitions.
  rewrite (explicitMatch_defaults _ _ Hall), Hb. simpl.
  rewrite Hb in Hall. inversion Hall as [|? ? Hct _]. now rewrite Hct.
Qed.

(** A visit of a task that passes on, at an executor that succeeds: one
    attempt, and the main loop goes on at a task of the chain. *)
Lemma visit_passesOn fuel resolver tasks l (w : World S) :
  passesOn ParseDuration tasks (currentTask l) ->
  succeeding (executor w) ->
  exists l' w',
    visit (Datatypes.S fuel) resolver tasks l w = (Some (Next l'), w')
    /\ In (currentTask l') tasks
    /\ succeeding (executor w')
    /\ attempts (events w') = Datatypes.S (attempts (events w)).
Proof.
  clear Randomly PolicyFromString.
  intros (Htmpl & Hprint & Ht & Hall & ct & rest & next & Hb & Hne & Hnend
          & Hfind) Hs.
  destruct (attempt_runs ParseDuration Policy resolver 0 l w Ht)
    as (l1 & w1 & ctx & Ha & Hexec & Hc & _ & Hcount).
  destruct (succeeding_exec (executor w) ctx resolver (currentTask l)
              (output l) (outputType l) Hs)
    as (out & ot & ev & s' & Hcall & Hs').
  rewrite Hcall in Hexec. injection Hexec as _ _ _ He Hw.
  unfold taskengine.visit, taskengine.renderPrompt.
  rewrite Htmpl, andb_false_r. cbn [taskengine.retryLoop].
  replace (0 <=? Z.max (RetryOnFailure (currentTask l)) 0) with true
    by (symmetry; apply Z.leb_le; lia).
  cbn [negb]. rewrite Ha, <- He.
  unfold taskengine.afterAttempts, taskengine.printStatement.
  rewrite <- He, Hc, Hprint. cbn [String.eqb negb].
  rewrite (evaluateTransitions_defaults _ (transitionEval l1) ct rest Hall Hb).
  apply String.eqb_neq in Hne. apply String.eqb_neq in Hnend.
  rewrite Hne, Hnend, Hfind. cbn [orb].
  eexists _, _. split; [reflexivity|]. cbn.
  destruct (findTaskByID_cases tasks (Goto ct))
    as [(t & Hf & Hin & _) | (Hf & _)]; [|congruence].
  split; [congruence|]. split; [now rewrite <- Hw|].
  rewrite !List.filter_app, !length_app. simpl.
  fold (attempts (events w1)). rewrite Hcount. lia.
Qed.

(** X13. The engine bounds neither the visits of a run nor those of a
    task. In a chain that passes the validation, whose routing strategy
    is absent or resolves, and whose tasks all pass on by a default
    branch to a task of the chain, a run at an executor that succeeds at
    every call does not return, whatever the number of passes through
    the main loop: after [n] passes it has made [n] attempts and goes
    on. *)
Theorem chain_without_end_never_returns (chain : ChainDefinition)
    input dataType (w : World S) :
  (RoutingStrategy chain = ""
   \/ exists p, PolicyFromString (RoutingStrategy chain) = (p, None)) ->
  validateChain (Tasks chain) = None ->
  (forall t, In t (Tasks chain) -> passesOn ParseDuration (Tasks chain) t) ->
  succeeding (executor w) ->
  forall fuel,
    fst (ExecEnv fuel chain input dataType w) = None
    /\ attempts (events (snd (ExecEnv fuel chain input dataType w)))
       = (attempts (events w) + fuel)%nat.
Proof.
  intros Hstrategy Hvalid Hpass Hs fuel.
  assert (Hloop : forall fuel resolver l (w : World S),
             In (currentTask l) (Tasks chain) ->
             succeeding (executor w) ->
             fst (mainLoop fuel resolver (Tasks chain) l w) = None
             /\ attempts
                  (events (snd (mainLoop fuel resolver (Tasks chain) l w)))
                = (attempts (events w) + fuel)%nat).
  { clear fuel w Hs. induction fuel as [|fuel IH]; intros resolver l w Hin Hs.
    - simpl. split; [reflexivity|lia].
    - cbn [taskengine.mainLoop].
      destruct (visit_passesOn fuel resolver (Tasks chain) l w
                  (Hpass _ Hin) Hs) as (l' & w' & -> & Hin' & Hs' & Hcount).
      destruct (IH resolver l' w' Hin' Hs') as (Hnone & Hatt).
      split; [exact Hnone|]. rewrite Hatt, Hcount. lia. }
  assert (Hprep : exists resolver first,
             taskengine.prepare Policy Randomly PolicyFromString chain
             = inr (resolver, first) /\ In first (Tasks chain)).
  { destruct (Tasks chain) as [|first rest] eqn:Htasks; [discriminate|].
    assert (Hfirst : findTaskByID (first :: rest) (ID first)
                     = (Some first, None))
      by (simpl; now rewrite String.eqb_refl).
    destruct (String.eqb (RoutingStrategy chain) "") eqn:E.
    - apply String.eqb_eq in E. exists Randomly, first. split; [|now left].
      rewrite (prepare_no_strategy _ Randomly PolicyFromString chain E).
      now rewrite Htasks, Hvalid, Hfirst.
    - apply String.eqb_neq in E.
      destruct Hstrategy as [Hnone|[p Hp]]; [contradiction|].
      exists p, first. split; [|now left].
      rewrite (prepare_strategy_ok _ Randomly PolicyFromString chain p E Hp).
      now rewrite Htasks, Hvalid, Hfirst. }
  destruct Hprep as (resolver & first & Hprep & Hin).
  unfold taskengine.ExecEnv. rewrite Hprep.
  set (l0 := mkLocals first input dataType "" None {["input" := input]}).
  set (w0 := mkWorld (executor w) (events w) []).
  destruct (Hloop fuel resolver l0 w0 Hin Hs) as (Hnone & Hatt).
  pose proof (mainLoop_grows ParseFloat TrimSpace TextTemplate template_Parse
                template_Execute ParseDuration Policy fuel resolver
                (Tasks chain) l0 w0) as Hg.
  fold mainLoop in Hg.
  destruct (mainLoop fuel resolver (Tasks chain) l0 w0) as [r w1].
  simpl in Hnone, Hatt, Hg. subst r. split; [reflexivity|].
  destruct Hg as (new & dnew & _ & Hd & Hcalls & _).
  cbn [snd runDeferred events]. rewrite attempts_app, Hatt, Hd.
  cbn [w0 deferred events]. rewrite app_nil_r.
  rewrite (deferred_no_attempts dnew Hcalls). lia.
Qed.

End Cycling.

Lemma pingPong_passesOn (t : ChainTask) :
  In t (Tasks pingPong) -> passesOn plain.ParseDuration (Tasks pingPong) t.
Proof.
  intros [<-|[<-|[]]]; unfold passesOn; cbn [Template Print task].
  - split; [reflexivity|]. split; [reflexivity|].
    split; [left; reflexivity|].
    split; [repeat constructor|].
    eexists _, _, _. split; [reflexivity|].
    split; [discriminate|]. split; [discriminate|]. reflexivity.
  - split; [reflexivity|]. split; [reflexivity|].
    split; [right; eexists; vm_compute; reflexivity|].
    split; [repeat constructor|].
    eexists _, _, _. split; [reflexivity|].
    split; [discriminate|]. split; [discriminate|]. reflexivity.
Qed.

(** The two tasks of [pingPong] at a mock that succeeds: seven passes
    through the main loop make seven attempts and do not end the run. *)
Lemma chain_without_end_never_returns_witness :
  fst (run 7 pingPong goodMock) = None
  /\ attempts (events (snd (run 7 pingPong goodMock)))
     = (attempts (events (emptyWorld goodMock)) + 7)%nat.
Proof.
  exact (chain_without_end_never_returns
           decimal.ParseFloat ascii_space.TrimSpace
           string plain.Parse plain.Execute plain.ParseDuration
           llmresolver.Policy llmresolver.Randomly llmresolver.PolicyFromString
           (mockFailsFor 0) (mockFailsFor_succeeds)
           pingPong (AnyString "in") DataTypeString (emptyWorld goodMock)
           (or_introl eq_refl) eq_refl pingPong_passesOn
           (conj eq_refl eq_refl) 7%nat).
Defined.

(** ** What holds from the start of a run to its end *)

Section Frames.

Variable ParseFloat : string -> float64 * error.
Variable TrimSpace : string -> string.
Variable TextTemplate : Type.
Variable template_Parse : string -> TextTemplate + string.
Variable template_Execute : TextTemplate -> gmap string any -> string + string.
Variable ParseDuration : string -> Z + string.
Variable Policy : Type.

Context {S : Type} {exec : TaskExecutor S Policy}.

Local Abbreviation attempt := (taskengine.attempt ParseDuration Policy).
Local Abbreviation retryLoop := (taskengine.retryLoop ParseDuration Policy).
Local Abbreviation renderPrompt :=
  (taskengine.renderPrompt TextTemplate template_Parse template_Execute).
Local Abbreviation printStatement :=
  (taskengine.printStatement TextTemplate template_Parse template_Execute).
Local Abbreviation afterAttempts :=
  (taskengine.afterAttempts ParseFloat TrimSpace TextTemplate template_Parse
                            template_Execute).
Local Abbreviation visit :=
  (taskengine.visit ParseFloat TrimSpace TextTemplate template_Parse
                    template_Execute ParseDuration Policy).
Local Abbreviation mainLoop :=
  (taskengine.mainLoop ParseFloat TrimSpace TextTemplate template_Parse
                       template_Execute ParseDuration Policy).

(** A relation between the world before and after, kept by an attempt
    at a task of [tasks], by the events beside the attempts and by the
    start of another operation than [task_attempt]. *)
Variable tasks : list ChainTask.
Variable R : World S -> World S -> Prop.

Hypothesis R_refl : forall w, R w w.
Hypothesis R_trans : forall w1 w2 w3, R w1 w2 -> R w2 w3 -> R w1 w3.
Hypothesis R_attempt :
  forall resolver retry l w l' w',
    In (currentTask l) tasks ->
    attempt resolver retry l w = inr (l', w') -> R w w'.
Hypothesis R_emit :
  forall e w, besideAttempts e = true -> R w (emit e w).
Hypothesis R_start :
  forall operation subject kvArgs w,
    String.eqb operation "task_attempt" = false ->
    R w (trackerStart operation subject kvArgs w).

Lemma retryLoop_frame fuel resolver maxRetries :
  forall retry l (w : World S),
    In (currentTask l) tasks ->
    R w (snd (retryLoop fuel resolver maxRetries retry l w)).
Proof.
  induction fuel as [|fuel IH]; intros retry l w Hin; simpl;
    (destruct (negb (retry <=? maxRetries)); [apply R_refl|]);
    [apply R_refl|].
  destruct (attempt resolver retry l w) as [r|[l1 w1]] eqn:Ha;
    [apply R_refl|].
  pose proof (R_attempt _ _ _ _ _ _ Hin Ha) as Hg.
  eapply attempt_inr in Ha. destruct Ha as (ctx & _ & Hc & _).
  destruct (taskErr l1); [|exact Hg].
  eapply R_trans; [exact Hg|apply IH; now rewrite Hc].
Qed.

Lemma printStatement_frame task vars (w w' : World S) :
  printStatement task vars w = inr w' -> R w w'.
Proof.
  unfold taskengine.printStatement.
  destruct (negb _); [|intros [= <-]; apply R_refl].
  destruct (taskengine.renderTemplate _ _ _ _ _) as [msg [e|]];
    [discriminate|].
  intros [= <-]. now apply R_emit.
Qed.

Lemma afterAttempts_frame maxRetries l (w : World S) :
  R w (snd (afterAttempts tasks maxRetries l w)).
Proof.
  assert (Hop : forall operation subject kvArgs id data (w0 : World S),
             String.eqb operation "task_attempt" = false ->
             R w w0 ->
             R w (emit (TrackerReportChange operation subject id data)
                       (trackerStart operation subject kvArgs w0))).
  { intros operation subject kvArgs id data w0 Hne Hg.
    eapply R_trans; [exact Hg|].
    eapply R_trans; [apply R_start, Hne|].
    apply R_emit. cbn [besideAttempts]. now rewrite Hne. }
  unfold taskengine.afterAttempts.
  destruct (taskErr l) as [e|].
  - destruct (negb _); [|apply R_refl].
    destruct (findTaskByID tasks _) as [[t|] [err|]]; cbn [snd];
      try apply R_refl.
    apply Hop; [reflexivity|apply R_refl].
  - destruct (printStatement (currentTask l) (updateVars l) w)
      as [r|wp] eqn:Hp; [apply R_refl|].
    pose proof (printStatement_frame _ _ _ _ Hp) as Hg.
    destruct (evaluateTransitions _ _ _ _) as [next [err|]]; [exact Hg|].
    destruct (_ || _); cbn [snd].
    + unfold complete. apply Hop; [reflexivity|exact Hg].
    + assert (Hn : R w
                (emit (TrackerReportChange "next_task" (ID (currentTask l))
                         next (AnyString (transitionEval l)))
                      (trackerStart "next_task" (ID (currentTask l))
                         [AnyString "next_task"; AnyString next] wp)))
        by (apply Hop; [reflexivity|exact Hg]).
      destruct (findTaskByID tasks next) as [[t|] [err|]]; exact Hn.
Qed.

Lemma visit_frame fuel resolver l (w : World S) :
  In (currentTask l) tasks ->
  R w (snd (visit fuel resolver tasks l w)).
Proof.
  intros Hin. unfold taskengine.visit.
  destruct (renderPrompt l) as [r|l0] eqn:Hr; [apply R_refl|].
  eapply renderPrompt_inr in Hr.
  pose proof (retryLoop_frame fuel resolver
                (Z.max (RetryOnFailure (currentTask l0)) 0) 0 l0 w
                ltac:(now rewrite Hr)) as Hg.
  destruct (retryLoop fuel resolver _ 0 l0 w) as [[[r|l1]|] w1];
    simpl in *; try exact Hg.
  pose proof (afterAttempts_frame
                (Z.max (RetryOnFailure (currentTask l0)) 0) l1 w1) as Ha.
  destruct (afterAttempts tasks _ l1 w1) as [flow w2].
  simpl in *. eapply R_trans; eassumption.
Qed.

Lemma mainLoop_frame fuel resolver :
  forall l (w : World S),
    In (currentTask l) tasks ->
    R w (snd (mainLoop fuel resolver tasks l w)).
Proof.
  induction fuel as [|fuel IH]; intros l w Hin; [apply R_refl|].
  cbn [taskengine.mainLoop].
  pose proof (visit_frame (Datatypes.S fuel) resolver l w Hin) as Hv.
  destruct (visit (Datatypes.S fuel) resolver tasks l w)
    as [[[r|l1]|] w1] eqn:Hvisit; simpl in *; try exact Hv.
  eapply visit_next in Hvisit.
  eapply R_trans; [exact Hv|apply IH, Hvisit].
Qed.

Section FramesOfRuns.

Variable Randomly : Policy.
Variable PolicyFromString : string -> Policy * error.

Local Abbreviation ExecEnv :=
  (taskengine.ExecEnv ParseFloat TrimSpace TextTemplate template_Parse
                      template_Execute ParseDuration Policy Randomly
                      PolicyFromString).

(** A run is its body, from a world without deferred calls to a world
    [w1], and the deferred calls of [w1] run behind it. *)
Lemma ExecEnv_frame fuel chain input dataType (w : World S) :
  Tasks chain = tasks ->
  exists w1 dnew,
    snd (ExecEnv fuel chain input dataType w) = runDeferred w1
    /\ R (mkWorld (executor w) (events w) []) w1
    /\ deferred w1 = dnew
    /\ forallb isDeferredCall dnew = true.
Proof.
  intros Htasks. unfold taskengine.ExecEnv.
  destruct (taskengine.prepare Policy Randomly PolicyFromString chain)
    as [r0|[resolver t0]] eqn:Hprep.
  - eexists _, _. split; [reflexivity|]. split; [apply R_refl|].
    split; reflexivity.
  - eapply prepare_entry in Hprep. destruct Hprep as (_ & rest & Hfirst).
    set (l0 := mkLocals t0 input dataType "" None {["input" := input]}).
    set (w0 := mkWorld (executor w) (events w) []).
    assert (Hin : In (currentTask l0) tasks)
      by (rewrite <- Htasks, Hfirst; now left).
    pose proof (mainLoop_frame fuel resolver l0 w0 Hin) as HR.
    pose proof (mainLoop_grows ParseFloat TrimSpace TextTemplate
                  template_Parse template_Execute ParseDuration Policy
                  fuel resolver tasks l0 w0) as Hg.
    rewrite Htasks.
    destruct (taskengine.mainLoop _ _ _ _ _ _ _ fuel resolver tasks l0 w0)
      as [r1 w1].
    simpl in HR, Hg. destruct Hg as (new & dnew & _ & Hd & Hcalls & _).
    exists w1, dnew. split; [reflexivity|]. split; [exact HR|].
    split; [|exact Hcalls]. rewrite Hd. apply app_nil_r.
Qed.

End FramesOfRuns.

End Frames.

(** ** Calls of the executor and what the tracker is told *)

Lemma reportsOf_app (a b : list Event) :
  reportsOf (a ++ b) = (reportsOf a ++ reportsOf b)%list.
Proof.
  induction a as [|e a IH]; [reflexivity|].
  destruct e; simpl; try exact IH;
    destruct (String.eqb operation "task_attempt"); simpl; now rewrite ?IH.
Qed.

Lemma deferred_no_reports (calls : list Event) :
  forallb isDeferredCall calls = true -> reportsOf calls = [].
Proof.
  induction calls as [|e rest IH]; [reflexivity|].
  simpl. intros H. apply andb_true_iff in H as [He Hrest].
  destruct e; try discriminate; simpl; auto.
Qed.

Lemma tracked_refl {S : Type} (w : World (S * list Call)) : tracked w w.
Proof. exists [], []. simpl. now rewrite !app_nil_r. Qed.

Lemma tracked_trans {S : Type} (w1 w2 w3 : World (S * list Call)) :
  tracked w1 w2 -> tracked w2 w3 -> tracked w1 w3.
Proof.
  intros (n1 & c1 & He1 & Hc1 & Ha1 & Hr1) (n2 & c2 & He2 & Hc2 & Ha2 & Hr2).
  exists (n1 ++ n2)%list, (c1 ++ c2)%list.
  rewrite He2, He1, Hc2, Hc1, !app_assoc, attempts_app, reportsOf_app.
  rewrite length_app, map_app, Ha1, Ha2, Hr1, Hr2. auto.
Qed.

Lemma tracked_emit {S : Type} (e : Event) (w : World (S * list Call)) :
  besideAttempts e = true -> tracked w (emit e w).
Proof.
  intros He. exists [e], []. simpl. rewrite app_nil_r.
  destruct e; try discriminate; simpl in *; repeat split.
  apply negb_true_iff in He. now rewrite He.
Qed.

Lemma tracked_start {S : Type} operation subject kvArgs
    (w : World (S * list Call)) :
  String.eqb operation "task_attempt" = false ->
  tracked w (trackerStart operation subject kvArgs w).
Proof.
  intros Hne. exists [TrackerStart operation subject kvArgs], [].
  simpl. rewrite app_nil_r. unfold attempts. simpl. rewrite Hne. auto.
Qed.

Section Tracked.

Variable ParseFloat : string -> float64 * error.
Variable TrimSpace : string -> string.
Variable TextTemplate : Type.
Variable template_Parse : string -> TextTemplate + string.
Variable template_Execute : TextTemplate -> gmap string any -> string + string.
Variable ParseDuration : string -> Z + string.
Variable Policy : Type.
Variable Randomly : Policy.
Variable PolicyFromString : string -> Policy * error.

Context {S : Type} (exec : TaskExecutor S Policy).

Local Abbreviation recorded := (S * list Call)%type.

Lemma tracked_attempt resolver retry l (w : World recorded) l' w' :
  @taskengine.attempt ParseDuration Policy recorded (recorder exec)
    resolver retry l w = inr (l', w') ->
  tracked w w'.
Proof.
  intros Ha. pose proof (attempt_recorded _ _ _ _ _ _ _ _ _ Ha) as Hlog.
  eapply attempt_inr in Ha. destruct Ha as (ctx & _ & _ & _ & Hev).
  eexists _, _. split; [exact Hev|]. split; [exact Hlog|].
  unfold attempts, outcome. simpl. destruct (taskErr l'); auto.
Qed.

(** X14. Every call of the executor is tracked, and nothing else is
    tracked as an attempt: over a run of [ExecEnv], however far it
    gets, the executor is called once for each [task_attempt] that is
    started, and the tracker is told, in the order of the calls, the
    error of each call that has failed and the output of each call that
    has succeeded. *)
Theorem every_call_is_tracked fuel chain input dataType (w : World recorded) :
  exists new calls,
    events (snd (@taskengine.ExecEnv ParseFloat TrimSpace TextTemplate
                   template_Parse template_Execute ParseDuration Policy
                   Randomly PolicyFromString recorded (recorder exec)
                   fuel chain input dataType w))
    = (events w ++ new)%list
    /\ snd (executor
              (snd (@taskengine.ExecEnv ParseFloat TrimSpace TextTemplate
                      template_Parse template_Execute ParseDuration Policy
                      Randomly PolicyFromString recorded (recorder exec)
                      fuel chain input dataType w)))
       = (snd (executor w) ++ calls)%list
    /\ attempts new = List.length calls
    /\ reportsOf new = List.map outcome calls.
Proof.
  destruct (@ExecEnv_frame ParseFloat TrimSpace TextTemplate template_Parse
              template_Execute ParseDuration Policy recorded (recorder exec)
              (Tasks chain) tracked tracked_refl tracked_trans
              (fun resolver retry l w l' w' _ Ha =>
                 tracked_attempt resolver retry l w l' w' Ha)
              tracked_emit tracked_start Randomly PolicyFromString
              fuel chain input dataType w eq_refl)
    as (w1 & dnew & -> & (new & calls & He & Hc & Ha & Hr) & Hd & Hcalls).
  exists (new ++ dnew)%list, calls. simpl in *.
  rewrite He, Hd, app_assoc, attempts_app, reportsOf_app.
  rewrite (deferred_no_attempts dnew Hcalls), (deferred_no_reports dnew Hcalls).
  rewrite app_nil_r, Nat.add_0_r. auto.
Qed.

End Tracked.

(** The run of [unhandled] at a mock that fails twice: three calls, and
    the tracker is told of two errors and of the output of the third
    call. *)
Lemma unhandled_reports :
  exists new,
    events (snd (@taskengine.ExecEnv decimal.ParseFloat ascii_space.TrimSpace
                   string plain.Parse plain.Execute plain.ParseDuration
                   llmresolver.Policy llmresolver.Randomly
                   llmresolver.PolicyFromString _
                   (recorder MockTaskExecutor_exec)
                   5 unhandled (AnyString "in") DataTypeString
                   (emptyWorld (recoveringMock, []))))
    = new
    /\ attempts new = 3%nat
    /\ reportsOf new = [inr "boom"; inr "boom"; inl (AnyString "out")].
Proof. eexists. split; [reflexivity|]. vm_compute. auto. Qed.

(** ** The cancel functions of the timeout contexts *)

Lemma cancelCalls_app (a b : list Event) :
  cancelCalls (a ++ b) = (cancelCalls a + cancelCalls b)%nat.
Proof. unfold cancelCalls. now rewrite List.filter_app, length_app. Qed.

Lemma timing_refl {S : Type} tasks (w : World S) : timing tasks w w.
Proof. exists [], []. simpl. rewrite app_nil_r. repeat split; auto. Qed.

Lemma timing_trans {S : Type} tasks (w1 w2 w3 : World S) :
  timing tasks w1 w2 -> timing tasks w2 w3 -> timing tasks w1 w3.
Proof.
  intros (n1 & d1 & He1 & Hd1 & Hc1 & Ha1 & Hle1 & Hall1 & Hnone1)
         (n2 & d2 & He2 & Hd2 & Hc2 & Ha2 & Hle2 & Hall2 & Hnone2).
  exists (n1 ++ n2)%list, (d2 ++ d1)%list.
  rewrite He2, He1, Hd2, Hd1, !app_assoc, !cancelCalls_app, !attempts_app.
  repeat split; auto; try lia.
  - intros Hall. rewrite (Hall1 Hall), (Hall2 Hall). lia.
  - intros Hnone. rewrite (Hnone1 Hnone), (Hnone2 Hnone). lia.
Qed.

Lemma timing_emit {S : Type} tasks (e : Event) (w : World S) :
  besideAttempts e = true -> timing tasks w (emit e w).
Proof.
  intros He. exists [e], [].
  destruct e; try discriminate; simpl; repeat split; auto.
Qed.

Lemma timing_start {S : Type} tasks operation subject kvArgs (w : World S) :
  String.eqb operation "task_attempt" = false ->
  timing tasks w (trackerStart operation subject kvArgs w).
Proof.
  intros Hne.
  exists [TrackerStart operation subject kvArgs],
         [TrackerEnd operation subject].
  unfold attempts, cancelCalls. simpl. rewrite Hne. simpl. repeat split; auto.
Qed.

Section Timing.

Variable ParseFloat : string -> float64 * error.
Variable TrimSpace : string -> string.
Variable TextTemplate : Type.
Variable template_Parse : string -> TextTemplate + string.
Variable template_Execute : TextTemplate -> gmap string any -> string + string.
Variable ParseDuration : string -> Z + string.
Variable Policy : Type.
Variable Randomly : Policy.
Variable PolicyFromString : string -> Policy * error.

Context {S : Type} {exec : TaskExecutor S Policy}.

Local Abbreviation attempt := (taskengine.attempt ParseDuration Policy).
Local Abbreviation ExecEnv :=
  (taskengine.ExecEnv ParseFloat TrimSpace TextTemplate template_Parse
                      template_Execute ParseDuration Policy Randomly
                      PolicyFromString).

(** An attempt defers the end of its tracking and, for a task with a
    timeout, before it the cancel of its context. *)
Lemma attempt_deferred resolver retry l (w : World S) l' w' :
  attempt resolver retry l w = inr (l', w') ->
  exists c,
    deferred w'
    = (TrackerEnd "task_attempt" (ID (currentTask l)) :: c ++ deferred w)%list
    /\ ((Timeout (currentTask l) = "" /\ c = [])
        \/ (Timeout (currentTask l) <> ""
            /\ exists d, c = [ContextCancel d])).
Proof.
  unfold taskengine.attempt, taskengine.attemptContext.
  destruct (String.eqb (Timeout (currentTask l)) "") eqn:E.
  - apply String.eqb_eq in E. cbv zeta.
    destruct (TaskExec _ None resolver (currentTask l) (output l)
                       (outputType l))
      as [[[[out ot] ev] [e|]] s']; intros [= <- <-];
      exists []; (split; [reflexivity|left; auto]).
  - apply String.eqb_neq in E.
    destruct (ParseDuration (Timeout (currentTask l))) as [d|e0];
      [|discriminate].
    cbv zeta.
    destruct (TaskExec _ (Some d) resolver (currentTask l) (output l)
                       (outputType l))
      as [[[[out ot] ev] [e|]] s']; intros [= <- <-];
      exists [ContextCancel d]; (split; [reflexivity|right; eauto]).
Qed.

Lemma timing_attempt tasks resolver retry l (w : World S) l' w' :
  In (currentTask l) tasks ->
  attempt resolver retry l w = inr (l', w') ->
  timing tasks w w'.
Proof.
  intros Hin Ha. destruct (attempt_deferred _ _ _ _ _ _ Ha) as (c & Hd & Hc).
  eapply attempt_inr in Ha. destruct Ha as (ctx & _ & _ & _ & Hev).
  eexists _, (TrackerEnd "task_attempt" (ID (currentTask l)) :: c).
  split; [exact Hev|]. split; [exact Hd|].
  assert (Hone : attempts
                   [TrackerStart "task_attempt" (ID (currentTask l))
                      [AnyString "retry"; AnyInt retry; AnyString "task_type";
                       AnyString (TaskType (currentTask l))];
                    match taskErr l' with
                    | Some e =>
                        TrackerReportErr "task_attempt" (ID (currentTask l)) e
                    | None =>
                        TrackerReportChange "task_attempt" (ID (currentTask l))
                          (ID (currentTask l)) (output l')
                    end] = 1%nat)
    by (destruct (taskErr l'); reflexivity).
  rewrite Hone.
  split; [destruct (taskErr l'); reflexivity|].
  destruct Hc as [[Ht ->]|[Ht [d ->]]]; (split; [reflexivity|]);
    (split; [unfold cancelCalls; simpl; lia|]); split; intros Hall;
    try reflexivity.
  - contradiction (Hall _ Hin).
  - contradiction (Ht (Hall _ Hin)).
Qed.

(** X15. [ExecEnv] calls the [cancel] function of a timeout context
    only by [defer], inside the attempt loop: while a run is going it
    calls none, and when it returns it calls them with the other
    deferred calls, at most as many as attempts have been started,
    exactly as many when every task of the chain has a timeout (one
    for each attempt, retries included), and none when no task has.
    Whether a context has ended before at its deadline is not what is
    stated: that is no call of [ExecEnv]. *)
Theorem cancel_calls_are_deferred fuel chain input dataType (w w' : World S) r :
  ExecEnv fuel chain input dataType w = (Some r, w') ->
  exists new ends,
    events w' = (events w ++ new ++ ends)%list
    /\ cancelCalls new = 0%nat
    /\ attempts ends = 0%nat
    /\ (cancelCalls ends <= attempts new)%nat
    /\ ((forall t, In t (Tasks chain) -> Timeout t <> "") ->
        cancelCalls ends = attempts new)
    /\ ((forall t, In t (Tasks chain) -> Timeout t = "") ->
        cancelCalls ends = 0%nat).
Proof.
  intros Hrun.
  destruct (@ExecEnv_frame ParseFloat TrimSpace TextTemplate template_Parse
              template_Execute ParseDuration Policy S exec
              (Tasks chain) (timing (Tasks chain))
              (timing_refl (Tasks chain)) (timing_trans (Tasks chain))
              (timing_attempt (Tasks chain))
              (timing_emit (Tasks chain)) (timing_start (Tasks chain))
              Randomly PolicyFromString
              fuel chain input dataType w eq_refl)
    as (w1 & dnew & Hsnd
        & (new & d & He & Hd & Hc & Ha & Hle & Hall & Hnone) & Hd1 & _).
  rewrite Hrun in Hsnd. simpl in Hsnd, He, Hd. subst w'.
  rewrite app_nil_r in Hd.
  exists new, d. simpl. rewrite He, Hd, app_assoc.
  repeat split; assumption.
Qed.

End Timing.

(** The task of [timed] at a mock that fails twice: three attempts with
    a timeout of a second each, and the three calls of their [cancel]
    functions when the run has returned. *)
Lemma cancel_calls_are_deferred_witness :
  exists new ends,
    events (snd (run 5 timed recoveringMock)) = ([] ++ new ++ ends)%list
    /\ cancelCalls new = 0%nat
    /\ attempts ends = 0%nat
    /\ (cancelCalls ends <= attempts new)%nat
    /\ ((forall t, In t (Tasks timed) -> Timeout t <> "") ->
        cancelCalls ends = attempts new)
    /\ ((forall t, In t (Tasks timed) -> Timeout t = "") ->
        cancelCalls ends = 0%nat).
Proof.
  apply (cancel_calls_are_deferred decimal.ParseFloat ascii_space.TrimSpace
           string plain.Parse plain.Execute plain.ParseDuration
           llmresolver.Policy llmresolver.Randomly llmresolver.PolicyFromString
           5%nat timed (AnyString "in") DataTypeString
           (emptyWorld recoveringMock) (snd (run 5 timed recoveringMock))
           (AnyString "out", None)).
  change (run 5 timed recoveringMock
          = (Some (AnyString "out", None), snd (run 5 timed recoveringMock))).
  apply injective_projections; [vm_compute; reflexivity | reflexivity].
Defined.

(** In that run three [cancel] functions are called. *)
Lemma timed_cancel_calls :
  cancelCalls (events (snd (run 5 timed recoveringMock))) = 3%nat
  /\ attempts (events (snd (run 5 timed recoveringMock))) = 3%nat.
Proof. vm_compute. auto. Qed.
